(** * pynektools.comm.router: the Router class over a message-passing substrate

    A shallow embedding of [src/pynektools/comm/router.py].

    Every method of [Router] runs inside one process of a fixed group of
    [P] processes.  A method is embedded as a computation in a small
    state/exception monad over the state of that process: the Router object
    ([self]), the queue of messages that reached the process and were not
    yet received, and the log of the communication calls it made.  What the
    substrate hands back to the process (the column of an all-to-all, the
    messages that arrive, the slice of a scatter) is a parameter of the
    local computation; the group-level functions at the end of the
    definitions compute it from the calls of all the processes.

    The substrate (MPI through mpi4py) is not part of the repository.  It is
    taken with the semantics of the MPI standard:
    - a message carries its source rank, its tag and its elements; a receive
      is matched with the first message from its source with its tag, in
      the order the messages were sent; a message longer than the posted
      buffer is a truncation error, a shorter one fills the front of the
      buffer;
    - the wait on a send request completes once a posted receive matches
      the message, and at once when the message is small enough to be
      buffered (one without elements always is).  The embedding lets every
      wait on a send complete.  The statements about whole rounds that say
      that a call returns are made under hypotheses (one tag, distinct
      destinations and no message left over, or a rank that sends nothing)
      under which every message with elements is matched by a receive that
      its destination posts before it sends anything, so that they do not
      rest on the buffering;
    - [Alltoall] and [allgather] complete once every rank has joined;
      [Gatherv] completes at the root once every rank has contributed and
      at once elsewhere; it reads the array it is passed through the buffer
      protocol (the elements of a contiguous array in the order in which
      they lie in memory, BufferError for an array that is not contiguous)
      and writes into a receive buffer that has to hold the counts;
    - [Scatterv] completes once the root has joined, and at once for a
      process whose receive buffer has no elements; at the root it is taken
      to complete without its peers.
    Ranks, indices and counts are natural numbers (the counts are array
    sizes held in [np.ulong], which they never overflow); negative numpy
    indices, which wrap around, are outside the embedding. *)

From Stdlib Require Import ZArith Lia.
From stdpp Require Import base option list strings gmap.

Local Open Scope Z_scope.
Local Open Scope nat_scope.

(** ** Python exceptions and outcomes of a call *)

Inductive exn :=
| NameError (name : string)
| ValueError (msg : string)
| TypeError (msg : string)
| IndexError
| AttributeError (attr : string)
| BufferError
| MPI_ERR_TRUNCATE.

(** A call returns, raises, or never comes back (it waits on a peer). *)
Inductive outcome (A : Type) :=
| Returns (a : A)
| Raises (e : exn)
| Blocks.
Arguments Returns {A} a.
Arguments Raises {A} e.
Arguments Blocks {A}.

(** ** The Router object *)

Record Comm := { Get_size : nat; Get_rank : nat }.

Record Router := {
  comm : Comm;
  destination_count : list nat;
  source_count : list nat }.

(** [Router.__init__]: two zeroed vectors with one entry per rank. *)
Definition Router_init (c : Comm) : Router :=
  {| comm := c;
     destination_count := replicate (Get_size c) 0;
     source_count := replicate (Get_size c) 0 |}.

Definition with_destination_count (v : list nat) (s : Router) : Router :=
  {| comm := comm s; destination_count := v; source_count := source_count s |}.

Definition with_source_count (v : list nat) (s : Router) : Router :=
  {| comm := comm s; destination_count := destination_count s; source_count := v |}.

(** ** The element datatype

    The [dtype] of a call: the type of the elements of the buffers, with the
    values the numpy constructors of the source fill with: [np.zeros],
    [np.ones * -100] and the unspecified content of [np.empty] (whatever the
    allocator finds at each position). *)
Class Dtype (elt : Type) := {
  zero : elt;
  minus_hundred : elt;
  uninitialised : nat → elt }.

Section Router.

Context {elt : Type} `{!Dtype elt}.

(** An ndarray is represented by its elements in row-major order: [.size] is
    their number and [.flatten()] the flat copy that is sent. *)
Local Abbreviation ndarray := (list elt) (only parsing).
Definition size (a : ndarray) : nat := length a.
Definition flatten (a : ndarray) : ndarray := a.
Definition np_zeros (n : nat) : ndarray := replicate n zero.
Definition np_ones_times_minus_hundred (n : nat) : ndarray := replicate n minus_hundred.
Definition np_empty (n : nat) : ndarray := uninitialised <$> seq 0 n.

(** [send_recv] and [scatter_from_root] read the array they are passed
    through [.size] and [.flatten()] only, so for them an array is its
    elements in row-major order.  [gather_in_root] hands its array to the
    substrate as it is: what is sent is what the buffer protocol exports,
    the elements in the order in which they lie in memory when the array is
    contiguous (row-major order for a C-ordered array, another order for a
    Fortran-ordered one), and nothing for a view that is not contiguous. *)
Record array := {
  elements : ndarray;
  buffer : option ndarray }.

(** A one-dimensional C-ordered array, as [np.zeros], [np.empty] and
    [.flatten()] make them. *)
Definition flat (a : ndarray) : array := {| elements := a; buffer := Some a |}.

(** The [data] argument of [send_recv]: a list of arrays, one array, or the
    default [None]. *)
Inductive data_arg :=
| DataList (l : list ndarray)
| DataArray (a : ndarray)
| DataNone.

(** ** The process and its view of the substrate *)

Record message := {
  msg_source : nat;
  msg_tag : Z;
  msg_payload : list elt }.

(** The communication calls a process makes, in program order. *)
Inductive event :=
| EvAlltoall (sendbuf : list nat)
| EvIrecv (source : nat) (tag : Z) (count : nat)
| EvIsend (dest : nat) (tag : Z) (payload : list elt)
| EvWaitSend (dest : nat)
| EvWaitRecv (source : nat)
| EvAllgather (sendobj : nat)
| EvGatherv (sendbuf : list elt) (recvcounts : list nat) (root : nat)
| EvScatterv (sendbuf : option (list elt)) (sendcounts : list nat)
             (recvcount : nat) (root : nat).

Record proc := {
  self : Router;
  mailbox : list message;
  trace : list event }.

(** What the substrate delivers to this process during one call.  [None]
    stands for a collective that some peer never joins. *)
Record substrate := {
  net_alltoall : option (list nat);
  net_arrivals : list message;
  net_allgather : option (list nat);
  net_gatherv : option (list (list elt));
  net_scatterv : option (list elt) }.

(** ** The monad of a method body *)

Definition M (A : Type) : Type := proc → outcome A * proc.

#[global] Instance M_ret : MRet M := λ A a p, (Returns a, p).
#[global] Instance M_bind : MBind M := λ A B f m p,
  match m p with
  | (Returns a, p') => f a p'
  | (Raises e, p') => (Raises e, p')
  | (Blocks, p') => (Blocks, p')
  end.

Definition raise {A} (e : exn) : M A := λ p, (Raises e, p).
Definition block {A} : M A := λ p, (Blocks, p).
Definition get_self : M Router := λ p, (Returns (self p), p).
Definition put_self (s : Router) : M unit := λ p,
  (Returns tt, {| self := s; mailbox := mailbox p; trace := trace p |}).
Definition get_mailbox : M (list message) := λ p, (Returns (mailbox p), p).
Definition put_mailbox (q : list message) : M unit := λ p,
  (Returns tt, {| self := self p; mailbox := q; trace := trace p |}).
Definition emit (e : event) : M unit := λ p,
  (Returns tt, {| self := self p; mailbox := mailbox p; trace := trace p ++ [e] |}).

(** [for x in l: body(x)] *)
Fixpoint for_each {A} (l : list A) (body : A → M unit) : M unit :=
  match l with
  | [] => mret tt
  | x :: l' => body x ;; for_each l' body
  end.

(** [enumerate(l)] *)
Definition enumerate {A} (l : list A) : list (nat * A) := zip (seq 0 (length l)) l.

(** A loop that updates a local variable. *)
Fixpoint for_each_acc {A B} (l : list A) (body : B → A → M B) (acc : B) : M B :=
  match l with
  | [] => mret acc
  | x :: l' => acc' ← body acc x; for_each_acc l' body acc'
  end.

(** Subscripting a Python list. *)
Definition list_getitem {A} (l : list A) (i : nat) : M A :=
  match l !! i with
  | Some x => mret x
  | None => raise IndexError
  end.

(** ** numpy subscripts on the scratch vectors *)

(** [self.destination_count[:] = 0] *)
Definition zero_destination_count : M unit :=
  s ← get_self;
  put_self (with_destination_count (replicate (length (destination_count s)) 0) s).

(** [self.source_count[:] = 0] *)
Definition zero_source_count : M unit :=
  s ← get_self;
  put_self (with_source_count (replicate (length (source_count s)) 0) s).

(** [self.destination_count[dest] = n]: numpy raises on an index that is out
    of bounds. *)
Definition destination_count_setitem (dest n : nat) : M unit :=
  s ← get_self;
  if decide (dest < length (destination_count s))
  then put_self (with_destination_count (<[dest := n]> (destination_count s)) s)
  else raise IndexError.

(** [self.destination_count[destination] = n] with a list of indices: numpy
    checks every index before it writes. *)
Definition destination_count_setitems (destination : list nat) (n : nat) : M unit :=
  s ← get_self;
  if decide (Forall (λ dest, dest < length (destination_count s)) destination)
  then put_self (with_destination_count
                   (foldl (λ v dest, <[dest := n]> v) (destination_count s) destination) s)
  else raise IndexError.

(** [np.where(v != 0)[0]]: the indices of the nonzero entries, in index order. *)
Fixpoint nonzero_from (i : nat) (v : list nat) : list nat :=
  match v with
  | [] => []
  | c :: v' => if decide (c = 0) then nonzero_from (S i) v' else i :: nonzero_from (S i) v'
  end.
Definition np_where_nonzero (v : list nat) : list nat := nonzero_from 0 v.

(** ** The calls into the substrate *)

Definition Alltoall (net : substrate) : M unit :=
  s ← get_self;
  emit (EvAlltoall (destination_count s)) ;;
  match net_alltoall net with
  | Some column => put_self (with_source_count column s)
  | None => block
  end.

Record request := { req_index : nat; req_source : nat; req_tag : Z }.

Definition Irecv (buf : ndarray) (source_ind source : nat) (tag : Z) : M request :=
  emit (EvIrecv source tag (size buf)) ;;
  mret {| req_index := source_ind; req_source := source; req_tag := tag |}.

(** A standard-mode send is buffered by the substrate: the wait on its
    request completes locally. *)
Definition Isend (payload : ndarray) (dest : nat) (tag : Z) : M nat :=
  emit (EvIsend dest tag payload) ;; mret dest.

Definition wait_send (sendreq : nat) : M unit := emit (EvWaitSend sendreq).

(** Messages are matched in arrival order on source and tag. *)
Fixpoint take_message (source : nat) (tag : Z) (q : list message)
  : option (message * list message) :=
  match q with
  | [] => None
  | m :: q' =>
      if decide (msg_source m = source ∧ msg_tag m = tag) then Some (m, q')
      else '(m', r) ← take_message source tag q'; Some (m', m :: r)
  end.

(** The messages sent to this process during the call reach it. *)
Definition arrive (net : substrate) : M unit :=
  q ← get_mailbox; put_mailbox (q ++ net_arrivals net).

(** [req.wait()] on a receive request: the first matching message is copied
    into the front of the posted buffer; a message longer than the buffer is
    a truncation error, no matching message leaves the process waiting. *)
Definition wait_recv (recvbuff : list ndarray) (req : request) : M (list ndarray) :=
  emit (EvWaitRecv (req_source req)) ;;
  q ← get_mailbox;
  match take_message (req_source req) (req_tag req) q with
  | None => block
  | Some (m, q') =>
      put_mailbox q' ;;
      buf ← list_getitem recvbuff (req_index req);
      if decide (length (msg_payload m) ≤ size buf)
      then mret (<[req_index req := msg_payload m ++ drop (length (msg_payload m)) buf]> recvbuff)
      else raise MPI_ERR_TRUNCATE
  end.

Definition allgather (net : substrate) (sendobj : nat) : M (list nat) :=
  emit (EvAllgather sendobj) ;;
  match net_allgather net with
  | Some sizes => mret sizes
  | None => block
  end.

(** ** [Router.send_recv], section by section *)

(** Fill the destination count (lines 139-147). *)
Definition fill_destination_count (destination : list nat) (data : data_arg) : M unit :=
  zero_destination_count ;;
  match data with
  | DataList l =>
      for_each (enumerate destination) (λ '(dest_ind, dest),
        a ← list_getitem l dest_ind;
        destination_count_setitem dest (size a))
  | DataArray a => destination_count_setitems destination (size a)
  | DataNone => raise (AttributeError "size")
  end.

(** Fill the source count (lines 152-154). *)
Definition fill_source_count (net : substrate) : M (list nat) :=
  zero_source_count ;;
  Alltoall net ;;
  s ← get_self;
  mret (np_where_nonzero (source_count s)).

(** Allocate the receive buffers (lines 159-161). *)
Definition allocate (sources : list nat) : M (list ndarray) :=
  s ← get_self;
  mret ((λ source, np_zeros (source_count s !!! source)) <$> sources).

(** Set up the receive requests (lines 168-171). *)
Definition post_receives (sources : list nat) (recvbuff : list ndarray) (tag : Z)
  : M (list request) :=
  mapM (λ '(source_ind, source),
          buf ← list_getitem recvbuff source_ind;
          Irecv buf source_ind source tag)
       (enumerate sources).

(** Set up and complete the send requests (lines 174-183). *)
Definition complete_sends (destination : list nat) (data : data_arg) (tag : Z) : M unit :=
  match data with
  | DataList l =>
      for_each (enumerate destination) (λ '(dest_ind, dest),
        a ← list_getitem l dest_ind;
        sendreq ← Isend (flatten a) dest tag;
        wait_send sendreq)
  | DataArray a =>
      for_each (enumerate destination) (λ '(dest_ind, dest),
        sendreq ← Isend (flatten a) dest tag;
        wait_send sendreq)
  | DataNone =>
      for_each (enumerate destination) (λ _, raise (AttributeError "flatten"))
  end.

(** Complete the receive requests (lines 186-187). *)
Definition complete_receives (net : substrate) (recvreq : list request)
    (recvbuff : list ndarray) : M (list ndarray) :=
  arrive net ;;
  for_each_acc recvreq wait_recv recvbuff.

Definition send_recv (net : substrate) (destination : list nat) (data : data_arg) (tag : Z)
  : M (list nat * list ndarray) :=
  fill_destination_count destination data ;;
  sources ← fill_source_count net;
  recvbuff ← allocate sources;
  recvreq ← post_receives sources recvbuff tag;
  complete_sends destination data tag ;;
  recvbuff ← complete_receives net recvreq recvbuff;
  mret (sources, recvbuff).

(** ** [Router.gather_in_root] *)

(** The part of rank r lands at the prefix sum of the counts below r; the
    counts have to fit into the receive buffer, which is written in place. *)
Definition write_at (displ : nat) (part buf : ndarray) : ndarray :=
  take displ buf ++ part ++ drop (displ + length part) buf.

Fixpoint gatherv_place (parts : list ndarray) (recvcounts : list nat) (displ : nat)
    (recvbuf : ndarray) : M ndarray :=
  match parts, recvcounts with
  | part :: parts', c :: recvcounts' =>
      if decide (length part ≤ c ∧ displ + c ≤ length recvbuf)
      then gatherv_place parts' recvcounts' (displ + c) (write_at displ part recvbuf)
      else raise MPI_ERR_TRUNCATE
  | _, _ => mret recvbuf
  end.

(** The substrate fills the receive buffer of the root once every process
    has contributed; a process that passes no receive buffer is not the root
    and its call completes locally. *)
Definition Gatherv (net : substrate) (sendbuf : array) (recvbuf : option ndarray)
    (recvcounts : list nat) (root : nat) : M (option ndarray) :=
  match buffer sendbuf with
  | None => raise BufferError
  | Some memory =>
      emit (EvGatherv memory recvcounts root) ;;
      match recvbuf with
      | Some buf =>
          match net_gatherv net with
          | Some parts => buf' ← gatherv_place parts recvcounts 0 buf; mret (Some buf')
          | None => block
          end
      | None => mret None
      end
  end.

Definition gather_in_root (net : substrate) (data : option array) (root : nat)
  : M (option ndarray * list nat) :=
  s ← get_self;
  let rank := Get_rank (comm s) in
  match data with
  | None => raise (AttributeError "size")
  | Some data =>
      sendcounts ← allgather net (size (elements data));
      let recvbuf :=
        if decide (rank = root) then Some (np_empty (sum_list sendcounts)) else None in
      recvbuf ← Gatherv net data recvbuf sendcounts root;
      mret (recvbuf, sendcounts)
  end.

(** ** [Router.scatter_from_root] *)

(** The root's slice for this process is copied into the front of its
    receive buffer.  A process whose receive buffer has no elements takes
    no part in the transfer: its call completes at once, whatever the root
    does. *)
Definition Scatterv (net : substrate) (sendbuf : option ndarray) (sendcounts : list nat)
    (recvbuf : ndarray) (root : nat) : M ndarray :=
  emit (EvScatterv sendbuf sendcounts (size recvbuf) root) ;;
  if decide (size recvbuf = 0) then mret recvbuf
  else
    match net_scatterv net with
    | Some part =>
        if decide (length part ≤ size recvbuf)
        then mret (part ++ drop (length part) recvbuf)
        else raise MPI_ERR_TRUNCATE
    | None => block
    end.

Definition scatter_from_root (net : substrate) (data : option ndarray)
    (sendcounts : option (list nat)) (root : nat) : M ndarray :=
  s ← get_self;
  '(sendcounts, sendbuf) ←
    (if decide (Get_rank (comm s) = root) then
       sendcounts ←
         match sendcounts with
         | None =>
             match data with
             | Some d => mret (Some (replicate (Get_size (comm s))
                                               (size d `div` Get_size (comm s))))
             | None => raise (AttributeError "size")
             end
         | Some c => mret (Some c)
         end;
       match data with
       | Some d => mret (sendcounts, Some (flatten d))
       | None => raise (AttributeError "flatten")
       end
     else mret (sendcounts, None));
  let rank := Get_rank (comm s) in
  match sendcounts with
  | None => raise (TypeError "'NoneType' object is not subscriptable")
  | Some sendcounts =>
      match sendcounts !! rank with
      | None => raise IndexError
      | Some n =>
          let recvbuf := np_ones_times_minus_hundred n in
          Scatterv net sendbuf sendcounts recvbuf root
      end
  end.

(** ** [Router.route_data] *)

Inductive method := m_send_recv | m_gather_in_root | m_scatter_from_root.

Definition router_factory : gmap string method :=
  {[ "distribute" := m_send_recv;
     "gather" := m_gather_in_root;
     "scatter" := m_scatter_from_root ]}.

(** The keyword arguments of a call, by the set of keywords that is passed
    (the [dtype] keyword is the element type of the section). *)
Inductive kwargs :=
| KwDistribute (destination : list nat) (data : data_arg) (tag : Z)
| KwGather (data : option array) (root : nat)
| KwScatter (data : option ndarray) (sendcounts : option (list nat)) (root : nat).

Inductive result :=
| Distributed (sources : list nat) (recvbuff : list ndarray)
| Gathered (recvbuf : option ndarray) (sendcounts : list nat)
| Scattered (recvbuf : ndarray).

(** The method applied to the keyword dictionary: a keyword the method does
    not take is a TypeError. *)
Definition call_method (net : substrate) (m : method) (kw : kwargs) : M result :=
  match m, kw with
  | m_send_recv, KwDistribute destination data tag =>
      '(sources, recvbuff) ← send_recv net destination data tag;
      mret (Distributed sources recvbuff)
  | m_gather_in_root, KwGather data root =>
      '(recvbuf, sendcounts) ← gather_in_root net data root;
      mret (Gathered recvbuf sendcounts)
  | m_scatter_from_root, KwScatter data sendcounts root =>
      recvbuf ← scatter_from_root net data sendcounts root;
      mret (Scattered recvbuf)
  | m_scatter_from_root, KwGather data root =>
      recvbuf ← scatter_from_root net (elements <$> data) None root;
      mret (Scattered recvbuf)
  | _, _ => raise (TypeError "got an unexpected keyword argument")
  end.

(** The string-valued names that are bound where the body of [route_data]
    runs.  Evaluating a name that is bound nowhere raises NameError. *)
Definition route_data_scope (keyword : string) : list (string * string) :=
  [("keyword", keyword)].

Definition load_name (scope : list (string * string)) (name : string) : M string :=
  match list_find (λ binding, binding.1 = name) scope with
  | Some (_, (_, value)) => mret value
  | None => raise (NameError name)
  end.

Definition route_data (net : substrate) (keyword : string) (kw : kwargs) : M result :=
  match router_factory !! keyword with
  | None =>
      shown ← load_name (route_data_scope keyword) "method_keyword";
      raise (ValueError ("Method '" +:+ shown +:+ "' not recognized."))
  | Some m => call_method net m kw
  end.

(** ** The process group

    The state of the group is the list of its processes, in rank order.  All
    the processes make the same call, each with its own arguments.  What the
    substrate delivers to a process is read off the communication calls its
    peers make: a run of a peer against a substrate that delivers less shows
    the calls the peer makes up to the point where it needs more. *)

Definition silent : substrate :=
  {| net_alltoall := None; net_arrivals := []; net_allgather := None;
     net_gatherv := None; net_scatterv := None |}.

(** The calls a process adds to its log when it runs [m]. *)
Definition events_of {A} (m : M A) (p : proc) : list event :=
  drop (length (trace p)) (trace (m p).2).

Record sr_args := { destination : list nat; data : data_arg; tag : Z }.

Definition run_send_recv (net : substrate) (call : proc * sr_args)
  : outcome (list nat * list ndarray) * proc :=
  send_recv net (destination call.2) (data call.2) (tag call.2) call.1.

Definition alltoall_sendbuf (evs : list event) : option (list nat) :=
  head (omap (λ e, match e with EvAlltoall b => Some b | _ => None end) evs).

(** Alltoall: entry s of the column of rank [me] is entry [me] of the vector
    rank s contributes; it completes when every rank has joined. *)
Definition alltoall_columns (calls : list (proc * sr_args)) : option (nat → list nat) :=
  sendbufs ← mapM (λ call,
    alltoall_sendbuf (events_of (send_recv silent (destination call.2) (data call.2)
                                           (tag call.2)) call.1)) calls;
  Some (λ me, (λ b : list nat, b !!! me) <$> sendbufs).

Definition after_alltoall (columns : option (nat → list nat)) (me : nat) : substrate :=
  {| net_alltoall := (λ col, col me) <$> columns; net_arrivals := [];
     net_allgather := None; net_gatherv := None; net_scatterv := None |}.

(** The messages the calls [evs] of rank [s] address to rank [me]. *)
Definition sent_to (me s : nat) (evs : list event) : list message :=
  omap (λ e, match e with
             | EvIsend dest tag payload =>
                 if decide (dest = me)
                 then Some {| msg_source := s; msg_tag := tag; msg_payload := payload |}
                 else None
             | _ => None
             end) evs.

Definition sends_of (columns : option (nat → list nat)) (s : nat) (call : proc * sr_args)
  : list event :=
  events_of (send_recv (after_alltoall columns s) (destination call.2) (data call.2)
                       (tag call.2)) call.1.

Definition arrivals (columns : option (nat → list nat)) (calls : list (proc * sr_args))
    (me : nat) : list message :=
  concat (imap (λ s call, sent_to me s (sends_of columns s call)) calls).

Definition distribute_net (calls : list (proc * sr_args)) (me : nat) : substrate :=
  let columns := alltoall_columns calls in
  {| net_alltoall := (λ col, col me) <$> columns;
     net_arrivals := arrivals columns calls me;
     net_allgather := None; net_gatherv := None; net_scatterv := None |}.

(** One "distribute" round of the whole group. *)
Definition distribute_all (w : list proc) (args : list sr_args)
  : list (outcome (list nat * list ndarray) * proc) :=
  let calls := zip w args in
  imap (λ me call, run_send_recv (distribute_net calls me) call) calls.

(** The number of elements rank [s] sends to rank [me] in the round. *)
Definition elements_sent (w : list proc) (args : list sr_args) (s me : nat) : nat :=
  let calls := zip w args in
  match calls !! s with
  | Some call =>
      sum_list ((λ m, length (msg_payload m)) <$>
                sent_to me s (sends_of (alltoall_columns calls) s call))
  | None => 0
  end.

(** One "gather" round: every rank passes its own [data], all the same [root]. *)
Definition allgather_sendobj (evs : list event) : option nat :=
  head (omap (λ e, match e with EvAllgather n => Some n | _ => None end) evs).

Definition gatherv_sendbuf (evs : list event) : option ndarray :=
  head (omap (λ e, match e with EvGatherv b _ _ => Some b | _ => None end) evs).

Definition after_allgather (sizes : option (list nat)) : substrate :=
  {| net_alltoall := None; net_arrivals := []; net_allgather := sizes;
     net_gatherv := None; net_scatterv := None |}.

Definition gather_net (calls : list (proc * option array)) (root : nat) : substrate :=
  let sizes := mapM (λ call : proc * option array,
    allgather_sendobj (events_of (gather_in_root silent call.2 root) call.1)) calls in
  let parts := mapM (λ call : proc * option array,
    gatherv_sendbuf (events_of (gather_in_root (after_allgather sizes) call.2 root) call.1))
    calls in
  {| net_alltoall := None; net_arrivals := []; net_allgather := sizes;
     net_gatherv := parts; net_scatterv := None |}.

Definition gather_round (w : list proc) (datas : list (option array)) (root : nat)
  : list (outcome (option ndarray * list nat) * proc) :=
  let calls := zip w datas in
  (λ call : proc * option array, gather_in_root (gather_net calls root) call.2 root call.1)
    <$> calls.

(** The round in which every rank passes a flat array (or nothing). *)
Definition gather_all (w : list proc) (datas : list (option ndarray)) (root : nat)
  : list (outcome (option ndarray * list nat) * proc) :=
  gather_round w ((λ data : option ndarray, flat <$> data) <$> datas) root.

(** One "scatter" round: every rank passes its own [data] and [sendcounts]. *)
Definition scatterv_send (evs : list event) : option (ndarray * list nat) :=
  head (omap (λ e, match e with
                   | EvScatterv (Some b) counts _ _ => Some (b, counts)
                   | _ => None
                   end) evs).

(** The slice for rank [me] starts at the sum of the counts of the ranks
    below it. *)
Definition scatterv_part (sendbuf : ndarray) (sendcounts : list nat) (me : nat) : ndarray :=
  take (sendcounts !!! me) (drop (sum_list (take me sendcounts)) sendbuf).

Definition scatter_net (calls : list (proc * (option ndarray * option (list nat))))
    (root me : nat) : substrate :=
  {| net_alltoall := None; net_arrivals := []; net_allgather := None; net_gatherv := None;
     net_scatterv :=
       call ← calls !! root;
       '(sendbuf, sendcounts) ←
         scatterv_send (events_of (scatter_from_root silent call.2.1 call.2.2 root) call.1);
       Some (scatterv_part sendbuf sendcounts me) |}.

Definition scatter_all (w : list proc) (args : list (option ndarray * option (list nat)))
    (root : nat) : list (outcome ndarray * proc) :=
  let calls := zip w args in
  imap (λ me (call : proc * (option ndarray * option (list nat))),
          scatter_from_root (scatter_net calls root me) call.2.1 call.2.2 root call.1)
       calls.

(** A freshly started group of [P] processes. *)
Definition start_proc (P rank : nat) : proc :=
  {| self := Router_init {| Get_size := P; Get_rank := rank |};
     mailbox := []; trace := [] |}.
Definition start (P : nat) : list proc := start_proc P <$> seq 0 P.

(** ** Vocabulary of the statements *)

(** A process of rank [rank] in a group of [P]: its Router was built by
    [Router.__init__] on the group's communicator, so both scratch vectors
    have [P] entries. *)
Definition wf_proc (P rank : nat) (p : proc) : Prop :=
  comm (self p) = {| Get_size := P; Get_rank := rank |} ∧
  length (destination_count (self p)) = P ∧
  length (source_count (self p)) = P.

Definition wf_world (w : list proc) : Prop :=
  ∀ rank p, w !! rank = Some p → wf_proc (length w) rank p.

(** The (destination, payload) pairs of a call. *)
Definition payloads (destination : list nat) (data : data_arg) : list (nat * ndarray) :=
  match data with
  | DataList l => zip destination l
  | DataArray a => (λ dest, (dest, a)) <$> destination
  | DataNone => []
  end.

(** Destination ranks lie in [0, P) and a payload list has a payload for
    every destination. *)
Definition valid_payloads (P : nat) (destination : list nat) (data : data_arg) : Prop :=
  Forall (λ dest, dest < P) destination ∧
  match data with
  | DataList l => length destination ≤ length l
  | DataArray _ => True
  | DataNone => False
  end.

Definition valid_call (P : nat) (a : sr_args) : Prop :=
  valid_payloads P (destination a) (data a).

(** The count table a list of (destination, payload) pairs leaves behind:
    the pairs are written in order into a zeroed vector. *)
Definition write_count (v : list nat) (x : nat * ndarray) : list nat :=
  <[x.1 := size x.2]> v.
Definition counts_of (P : nat) (pl : list (nat * ndarray)) : list nat :=
  foldl write_count (replicate P 0) pl.

(** The calls of the send loop for one (destination, payload) pair. *)
Definition send_events (tag : Z) (x : nat * ndarray) : list event :=
  [EvIsend x.1 tag (flatten x.2); EvWaitSend x.1].

(** The receive side of a call whose all-to-all column is [column]. *)
Definition receive_buffers (column sources : list nat) : list ndarray :=
  (λ source, np_zeros (column !!! source)) <$> sources.
Definition requests (tag : Z) (sources : list nat) : list request :=
  (λ x, {| req_index := x.1; req_source := x.2; req_tag := tag |}) <$> enumerate sources.
Definition posted (tag : Z) (column sources : list nat) : list event :=
  (λ source, EvIrecv source tag (column !!! source)) <$> sources.
Definition awaited (sources : list nat) : list event := EvWaitRecv <$> sources.

(** The message a receive for ([source], [tag]) is matched with. *)
Definition first_match (source : nat) (tag : Z) (q : list message) : option message :=
  fst <$> take_message source tag q.

(** The count tables of the whole group, and the column of rank [me]:
    entry s is what rank s announces for [me]. *)
Definition count_table (P : nat) (args : list sr_args) : list (list nat) :=
  (λ a, counts_of P (payloads (destination a) (data a))) <$> args.
Definition column_of (P : nat) (args : list sr_args) (me : nat) : list nat :=
  (λ b : list nat, b !!! me) <$> count_table P args.

(** The messages rank [s] addresses to rank [me], from its pairs. *)
Definition outgoing (tag : Z) (s me : nat) (pl : list (nat * ndarray)) : list message :=
  (λ x, {| msg_source := s; msg_tag := tag; msg_payload := flatten x.2 |})
    <$> filter (λ x, x.1 = me) pl.

(** The messages from [source] that wait in a queue. *)
Definition pending (source : nat) (q : list message) : list message :=
  filter (λ m, msg_source m = source) q.

(** No message of an earlier exchange is left over from a rank that sends
    to [me] in this one. *)
Definition quiet (w : list proc) (args : list sr_args) : Prop :=
  ∀ me p s, w !! me = Some p → column_of (length w) args me !!! s ≠ 0 →
            pending s (mailbox p) = [].

(** Two calls with the same destinations and payloads (the tags are free). *)
Definition same_payloads (a1 a2 : sr_args) : Prop :=
  destination a1 = destination a2 ∧ data a1 = data a2.

(** The whole group passes one tag. *)
Definition one_tag (args : list sr_args) : Prop :=
  ∀ a1 a2, a1 ∈ args → a2 ∈ args → tag a1 = tag a2.

(** [a'] is the call [a], except that a single array sent to every
    destination (in range) may be replaced by the list that repeats it once
    per destination. *)
Definition broadcast_or_copies (P : nat) (a a' : sr_args) : Prop :=
  destination a = destination a' ∧ tag a = tag a' ∧
  (data a = data a' ∨
   (Forall (λ dest, dest < P) (destination a) ∧
    ∃ x, data a = DataArray x ∧
         data a' = DataList (replicate (length (destination a)) x))).

(** What a call handed back, when it returned. *)
Definition returned {A} (x : outcome A * proc) : option A :=
  match x.1 with
  | Returns a => Some a
  | _ => None
  end.

(** An array the buffer protocol can export: its elements lie in one block
    of memory, in some order. *)
Definition contiguous (a : array) : Prop :=
  ∃ memory, buffer a = Some memory ∧ length memory = size (elements a).
Definition memory_of (a : array) : ndarray := default [] (buffer a).

(** [a'] is the call [a] with its (destination, payload) pairs in another
    order. *)
Definition reordered (a a' : sr_args) : Prop :=
  tag a = tag a' ∧
  payloads (destination a) (data a) ≡ₚ payloads (destination a') (data a').

(** The arguments of the "scatter" round that hands out again what a
    "gather" round returned: every rank passes the buffer and the counts it
    got back. *)
Definition scatter_back (outs : list (outcome (option ndarray * list nat) * proc))
  : list (option ndarray * option (list nat)) :=
  (λ o, match returned o with
        | Some (recvbuf, sendcounts) => (recvbuf, Some sendcounts)
        | None => (None, None)
        end) <$> outs.

Definition set_self (s : Router) (p : proc) : proc :=
  {| self := s; mailbox := mailbox p; trace := trace p |}.
Definition set_mailbox (q : list message) (p : proc) : proc :=
  {| self := self p; mailbox := q; trace := trace p |}.
Definition log (evs : list event) (p : proc) : proc :=
  {| self := self p; mailbox := mailbox p; trace := trace p ++ evs |}.

End Router.

(** * Concrete groups

    Groups of two to four processes exchanging 64-bit integers. *)

Definition int64 : Dtype Z :=
  {| zero := 0%Z; minus_hundred := (-100)%Z; uninitialised := λ _, 0%Z |}.

(** Three ranks in a ring: rank r sends r + 1 elements to rank r + 1 mod 3,
    the last one in broadcast form. *)
Definition ring_args (tag : Z) : list (@sr_args Z) :=
  [ {| destination := [1]; data := DataList [[10%Z]]; tag := tag |};
    {| destination := [2]; data := DataList [[20%Z; 21%Z]]; tag := tag |};
    {| destination := [0]; data := DataArray [30%Z; 31%Z; 32%Z]; tag := tag |} ].

(** Rank 0 lists rank 1 twice, with payloads of 2 and of 3 elements. *)
Definition twice_to_one_args : list (@sr_args Z) :=
  [ {| destination := [1; 1]; data := DataList [[1%Z; 2%Z]; [3%Z; 4%Z; 5%Z]]; tag := 0%Z |};
    {| destination := []; data := DataList []; tag := 0%Z |} ].

(** Ten elements at root 0 of four ranks, no count vector anywhere. *)
Definition ten : list Z := [0; 1; 2; 3; 4; 5; 6; 7; 8; 9]%Z.

Definition uneven_counts : list nat := [3; 1; 4; 2].
Definition uneven_args : list (option (list Z) * option (list nat)) :=
  [ (Some ten, Some uneven_counts); (None, Some uneven_counts);
    (None, Some uneven_counts); (None, Some uneven_counts) ].

(** The ring with the broadcast of rank 2 written as a list of copies. *)
Definition ring_args_copies (tag : Z) : list (@sr_args Z) :=
  [ {| destination := [1]; data := DataList [[10%Z]]; tag := tag |};
    {| destination := [2]; data := DataList [[20%Z; 21%Z]]; tag := tag |};
    {| destination := [0]; data := DataList [[30%Z; 31%Z; 32%Z]]; tag := tag |} ].

(** Rank 0 of two: it is owed one element by rank 1 and sends two. *)
Definition order_net : @substrate Z :=
  {| net_alltoall := Some [0; 1];
     net_arrivals := [ {| msg_source := 1; msg_tag := 3%Z; msg_payload := [9%Z] |} ];
     net_allgather := None; net_gatherv := None; net_scatterv := None |}.

(** Rank 0 of two addresses a payload without elements to rank 1, and in the
    round after that a payload of two elements. *)
Definition empty_first_args : list (@sr_args Z) :=
  [ {| destination := [1]; data := DataList [[]]; tag := 0%Z |};
    {| destination := []; data := DataList []; tag := 0%Z |} ].
Definition two_next_args : list (@sr_args Z) :=
  [ {| destination := [1]; data := DataList [[5%Z; 6%Z]]; tag := 0%Z |};
    {| destination := []; data := DataList []; tag := 0%Z |} ].

(** Rank 0 of two names a rank that does not exist. *)
Definition out_of_range_args : list (@sr_args Z) :=
  [ {| destination := [5]; data := DataArray [1%Z]; tag := 0%Z |};
    {| destination := [0]; data := DataArray [2%Z]; tag := 0%Z |} ].

(** Rank 0 of two sends with tag 1, rank 1 expects tag 2. *)
Definition two_tags_args : list (@sr_args Z) :=
  [ {| destination := [1]; data := DataArray [1%Z]; tag := 1%Z |};
    {| destination := []; data := DataList []; tag := 2%Z |} ].

(** Rank 0 of three sends to ranks 1 and 2, listed in either order. *)
Definition fan_args : list (@sr_args Z) :=
  [ {| destination := [1; 2]; data := DataList [[1%Z]; [2%Z; 3%Z]]; tag := 0%Z |};
    {| destination := []; data := DataList []; tag := 0%Z |};
    {| destination := []; data := DataList []; tag := 0%Z |} ].
Definition fan_args_swapped : list (@sr_args Z) :=
  [ {| destination := [2; 1]; data := DataList [[2%Z; 3%Z]; [1%Z]]; tag := 0%Z |};
    {| destination := []; data := DataList []; tag := 0%Z |};
    {| destination := []; data := DataList []; tag := 0%Z |} ].

(** The 2 x 2 array [[1, 2], [3, 4]] in Fortran order, between two flat
    arrays; and a round in which rank 1 passes every second element of
    [3, 0, 4, 0], a view that is not contiguous. *)
Definition fortran_round : list (@array Z) :=
  [ flat [0%Z];
    {| elements := [1%Z; 2%Z; 3%Z; 4%Z]; buffer := Some [1%Z; 3%Z; 2%Z; 4%Z] |};
    flat [7%Z] ].
Definition strided_view : @array Z := {| elements := [3%Z; 4%Z]; buffer := None |}.
Definition strided_round : list (@array Z) :=
  [ flat [1%Z; 2%Z]; strided_view; flat [7%Z] ].


(** A scatter whose root has nothing to send, and a gather where rank 1
    passes nothing. *)
Definition no_data_args : list (option (list Z) * option (list nat)) :=
  [ (None, Some [1; 1]); (None, Some [1; 1]) ].
Definition one_missing : list (option (list Z)) := [ Some [1%Z]; None ].

(** Ten elements over four ranks: the root leaves the counts out, the others
    pass floor(10 / 4) for every rank. *)
Definition equal_args : list (option (list Z) * option (list nat)) :=
  [ (Some ten, None); (None, Some [2; 2; 2; 2]);
    (None, Some [2; 2; 2; 2]); (None, Some [2; 2; 2; 2]) ].

(** * Properties *)

Ltac run_M :=
  cbv [mbind mret M_bind M_ret raise block get_self put_self get_mailbox put_mailbox emit];
  simpl.

Section Properties.

Context {elt : Type} `{!Dtype elt}.

(** In this section the definitions are read at the element type [elt]. *)
Local Abbreviation ndarray := (list elt) (only parsing).
Local Abbreviation M := (@M elt) (only parsing).
Local Abbreviation proc := (@proc elt) (only parsing).
Local Abbreviation message := (@message elt) (only parsing).
Local Abbreviation event := (@event elt) (only parsing).
Local Abbreviation substrate := (@substrate elt) (only parsing).
Local Abbreviation array := (@array elt) (only parsing).
Local Abbreviation data_arg := (@data_arg elt) (only parsing).
Local Abbreviation sr_args := (@sr_args elt) (only parsing).
Local Abbreviation kwargs := (@kwargs elt) (only parsing).
Local Abbreviation result := (@result elt) (only parsing).
Local Abbreviation write_count := (write_count (elt:=elt)) (only parsing).
Local Abbreviation posted := (posted (elt:=elt)) (only parsing).
Local Abbreviation payloads := (payloads (elt:=elt)) (only parsing).
Local Abbreviation after_alltoall := (after_alltoall (elt:=elt)) (only parsing).
Local Abbreviation column_of := (column_of (elt:=elt)) (only parsing).
Local Abbreviation count_table := (count_table (elt:=elt)) (only parsing).
Local Abbreviation valid_call := (valid_call (elt:=elt)) (only parsing).
Local Abbreviation same_payloads := (same_payloads (elt:=elt)) (only parsing).
Local Abbreviation start_proc := (start_proc (elt:=elt)) (only parsing).
Local Abbreviation wf_world := (wf_world (elt:=elt)) (only parsing).
Local Abbreviation quiet := (quiet (elt:=elt)) (only parsing).
Local Abbreviation one_tag := (one_tag (elt:=elt)) (only parsing).

Implicit Types (p : proc) (w : list proc) (net : substrate) (q : list message)
  (evs : list event) (kw : kwargs) (pl : list (nat * ndarray))
  (recvbuff : list ndarray).

(** ** Running a method body *)

Lemma bind_run {A B} (m : M A) (f : A → M B) p :
  (m ≫= f) p =
  match m p with
  | (Returns a, p') => f a p'
  | (Raises e, p') => (Raises e, p')
  | (Blocks, p') => (Blocks, p')
  end.
Proof. reflexivity. Qed.

Lemma bind_returns {A B} (m : M A) (f : A → M B) p a p' :
  m p = (Returns a, p') → (m ≫= f) p = f a p'.
Proof. intros H. rewrite bind_run, H. reflexivity. Qed.

Lemma proc_eta p : {| self := self p; mailbox := mailbox p; trace := trace p |} = p.
Proof. destruct p; reflexivity. Qed.

Lemma log_nil p : log [] p = p.
Proof. unfold log. rewrite app_nil_r. apply proc_eta. Qed.

Lemma log_log evs evs' p : log evs' (log evs p) = log (evs ++ evs') p.
Proof. unfold log; simpl. by rewrite app_assoc. Qed.

Lemma events_of_log {A} (m : M A) p o p' evs :
  m p = (o, p') → trace p' = trace p ++ evs → events_of m p = evs.
Proof.
  intros Hm Ht. unfold events_of. rewrite Hm; simpl. rewrite Ht.
  by rewrite drop_app_length.
Qed.

(** ** The dispatcher *)

Lemma router_factory_None keyword :
  keyword ∉ ["distribute"; "gather"; "scatter"] → router_factory !! keyword = None.
Proof.
  intros Hk. unfold router_factory.
  rewrite !lookup_insert_ne, lookup_singleton_ne; [done | | |];
    intros <-; apply Hk; set_solver.
Qed.

(** C2 (as the code has it).  For a keyword outside the table the f-string of
    the [raise] statement reads the name [method_keyword], which is bound
    nowhere: the call raises NameError, not the ValueError it builds.  The
    process is left as it was: nothing was communicated and the scratch
    vectors are untouched. *)
Theorem route_data_unrecognized_keyword net keyword kw p :
  keyword ∉ ["distribute"; "gather"; "scatter"] →
  route_data net keyword kw p = (Raises (NameError "method_keyword"), p).
Proof.
  intros Hk. unfold route_data. rewrite (router_factory_None _ Hk). reflexivity.
Qed.

(** ** Frame: gather and scatter never touch the scratch vectors *)

Lemma gatherv_place_frame parts recvcounts displ recvbuf p :
  (gatherv_place parts recvcounts displ recvbuf p).2 = p.
Proof.
  revert recvcounts displ recvbuf.
  induction parts as [|part parts IH]; intros [|c cs] displ buf; simpl; try done.
  case_decide; [apply IH | done].
Qed.

Lemma gather_in_root_self net data root p :
  self (gather_in_root net data root p).2 = self p.
Proof.
  unfold gather_in_root. destruct data as [d|]; [|done].
  rewrite !bind_run; simpl. unfold allgather. rewrite bind_run; simpl.
  destruct (net_allgather net) as [sizes|]; simpl; [|done].
  unfold Gatherv. destruct (buffer d) as [memory|]; [|done].
  rewrite !bind_run; simpl.
  case_decide; simpl; [|done].
  destruct (net_gatherv net) as [parts|]; simpl; [|done].
  rewrite bind_run.
  pose proof (gatherv_place_frame parts sizes 0 (np_empty (sum_list sizes))
                (log [EvGatherv memory sizes root]
                     (log [EvAllgather (size (elements d))] p))) as Hf.
  unfold log in Hf; simpl in Hf.
  destruct (gatherv_place _ _ _ _ _) as [[b|e|] p']; simpl in *; by subst.
Qed.

Lemma Scatterv_self net sendbuf sendcounts recvbuf root p :
  self (Scatterv net sendbuf sendcounts recvbuf root p).2 = self p.
Proof.
  unfold Scatterv. rewrite bind_run; simpl.
  case_decide; [done|].
  destruct (net_scatterv net); simpl; [|done]. by case_decide.
Qed.

Lemma scatter_from_root_self net data sendcounts root p :
  self (scatter_from_root net data sendcounts root p).2 = self p.
Proof.
  unfold scatter_from_root. rewrite !bind_run; simpl.
  case_decide; simpl;
    destruct sendcounts as [c|], data as [d|]; run_M; try done;
    case_match; try done; apply Scatterv_self.
Qed.


Lemma router_factory_gather : router_factory !! "gather" = Some m_gather_in_root.
Proof. unfold router_factory. rewrite lookup_insert_ne by done. by rewrite lookup_insert_eq. Qed.

Lemma router_factory_scatter : router_factory !! "scatter" = Some m_scatter_from_root.
Proof.
  unfold router_factory. rewrite !lookup_insert_ne by done. by rewrite lookup_singleton_eq.
Qed.

Lemma router_factory_distribute : router_factory !! "distribute" = Some m_send_recv.
Proof. unfold router_factory. by rewrite lookup_insert_eq. Qed.

Lemma call_gather_self net kw p :
  self (call_method net m_gather_in_root kw p).2 = self p.
Proof.
  destruct kw as [dest da t|da root|da sc root]; simpl; try done.
  rewrite bind_run.
  pose proof (gather_in_root_self net da root p) as Hs.
  destruct (gather_in_root net da root p) as [[[b c]|e|] p']; done.
Qed.

Lemma call_scatter_self net kw p :
  self (call_method net m_scatter_from_root kw p).2 = self p.
Proof.
  destruct kw as [dest da t|da root|da sc root]; simpl; try done; rewrite bind_run.
  - pose proof (scatter_from_root_self net (elements <$> da) None root p) as Hs.
    destruct (scatter_from_root net (elements <$> da) None root p) as [[b|e|] p']; done.
  - pose proof (scatter_from_root_self net da sc root p) as Hs.
    destruct (scatter_from_root net da sc root p) as [[b|e|] p']; done.
Qed.



(** ** Scatter without a count vector *)

(** C3 (as the code has it).  The equal division is computed inside the
    branch of the root only.  On any other rank [sendcounts] is still [None]
    when it is subscripted: the call raises TypeError before it allocates or
    communicates anything. *)
Theorem scatter_without_counts_off_root net data root p :
  Get_rank (comm (self p)) ≠ root →
  scatter_from_root net data None root p
  = (Raises (TypeError "'NoneType' object is not subscriptable"), p).
Proof.
  intros Hr. unfold scatter_from_root. run_M. by case_decide.
Qed.


(** ** [send_recv], stage by stage *)

Lemma with_destination_count_id s : with_destination_count (destination_count s) s = s.
Proof. by destruct s. Qed.

Lemma set_self_id p : set_self (self p) p = p.
Proof. by destruct p. Qed.

Lemma length_write_counts pl v : length (foldl write_count v pl) = length v.
Proof.
  revert v. induction pl as [|x pl IH]; intros v; simpl; [done|].
  rewrite IH. unfold write_count. by rewrite length_insert.
Qed.

Lemma list_getitem_Some {A} (l : list A) i x p :
  l !! i = Some x → list_getitem l i p = (Returns x, p).
Proof. intros H. unfold list_getitem. by rewrite H. Qed.

Lemma destination_count_setitem_run dest n p :
  dest < length (destination_count (self p)) →
  destination_count_setitem dest n p
  = (Returns tt,
     set_self (with_destination_count (<[dest := n]> (destination_count (self p))) (self p)) p).
Proof. intros H. unfold destination_count_setitem. run_M. by rewrite decide_True. Qed.

Lemma fill_list_loop l destination k p :
  Forall (λ dest, dest < length (destination_count (self p))) destination →
  k + length destination ≤ length l →
  for_each (zip (seq k (length destination)) destination)
    (λ '(dest_ind, dest),
       a ← list_getitem l dest_ind; destination_count_setitem dest (size a)) p
  = (Returns tt,
     set_self (with_destination_count
                 (foldl write_count (destination_count (self p))
                        (zip destination (drop k l))) (self p)) p).
Proof.
  revert k p. induction destination as [|d ds IH]; intros k p Hin Hlen.
  - simpl. by rewrite with_destination_count_id, set_self_id.
  - simpl in *. inversion Hin as [|? ? Hd Hds]; subst.
    destruct (lookup_lt_is_Some_2 l k) as [a Ha]; [lia|].
    rewrite (drop_S _ _ _ Ha). simpl.
    rewrite bind_run.
    rewrite (bind_returns _ _ _ _ _ (list_getitem_Some _ _ _ _ Ha)).
    rewrite destination_count_setitem_run by done.
    rewrite IH; simpl.
    + done.
    + by rewrite length_insert.
    + lia.
Qed.


Lemma zero_destination_count_run p :
  zero_destination_count p
  = (Returns tt,
     set_self (with_destination_count
                 (replicate (length (destination_count (self p))) 0) (self p)) p).
Proof. reflexivity. Qed.

Lemma foldl_write_count_array (a : ndarray) destination v :
  foldl (λ v dest, <[dest := size a]> v) v destination
  = foldl write_count v ((λ dest, (dest, a)) <$> destination).
Proof. revert v. induction destination as [|d ds IH]; intros v; simpl; [done|]. apply IH. Qed.

Lemma fill_destination_count_run P destination data p :
  length (destination_count (self p)) = P →
  valid_payloads P destination data →
  fill_destination_count destination data p
  = (Returns tt,
     set_self (with_destination_count (counts_of P (payloads destination data)) (self p)) p).
Proof.
  intros HP [Hin Hdata]. unfold fill_destination_count.
  rewrite (bind_returns _ _ _ _ _ (zero_destination_count_run p)).
  destruct data as [l|a|]; [| |done].
  - unfold enumerate. rewrite fill_list_loop; simpl.
    + by rewrite HP.
    + by rewrite length_replicate, HP.
    + done.
  - unfold destination_count_setitems. run_M.
    rewrite length_replicate, HP. rewrite decide_True by done.
    by rewrite foldl_write_count_array.
Qed.


Lemma fill_source_count_run net p :
  fill_source_count net p =
  match net_alltoall net with
  | Some column =>
      (Returns (np_where_nonzero column),
       log [EvAlltoall (destination_count (self p))]
           (set_self (with_source_count column (self p)) p))
  | None =>
      (Blocks,
       log [EvAlltoall (destination_count (self p))]
           (set_self (with_source_count (replicate (length (source_count (self p))) 0)
                                        (self p)) p))
  end.
Proof.
  unfold fill_source_count, zero_source_count, Alltoall. run_M.
  by destruct (net_alltoall net).
Qed.

Lemma post_receives_loop tag recvbuff sources k p :
  k + length sources ≤ length recvbuff →
  mapM (λ '(source_ind, source),
          buf ← list_getitem recvbuff source_ind; Irecv buf source_ind source tag)
       (zip (seq k (length sources)) sources) p
  = (Returns ((λ x, {| req_index := x.1; req_source := x.2; req_tag := tag |})
                <$> zip (seq k (length sources)) sources),
     log ((λ x, EvIrecv x.1 tag (size x.2)) <$> zip sources (drop k recvbuff)) p).
Proof.
  revert k p. induction sources as [|s ss IH]; intros k p Hlen.
  - simpl. by rewrite log_nil.
  - simpl in *.
    destruct (lookup_lt_is_Some_2 recvbuff k) as [b Hb]; [lia|].
    rewrite (drop_S _ _ _ Hb). simpl.
    rewrite bind_run.
    rewrite (bind_returns _ _ _ _ _ (list_getitem_Some _ _ _ _ Hb)).
    unfold Irecv at 1.
    rewrite bind_run. simpl.
    rewrite bind_run, IH by lia. simpl.
    unfold log; simpl. by rewrite <- app_assoc.
Qed.

Lemma send_list_loop l tag destination k p :
  k + length destination ≤ length l →
  for_each (zip (seq k (length destination)) destination)
    (λ '(dest_ind, dest),
       a ← list_getitem l dest_ind;
       sendreq ← Isend (flatten a) dest tag;
       wait_send sendreq) p
  = (Returns tt, log (zip destination (drop k l) ≫= send_events tag) p).
Proof.
  revert k p. induction destination as [|d ds IH]; intros k p Hlen.
  - simpl. by rewrite log_nil.
  - simpl in *.
    destruct (lookup_lt_is_Some_2 l k) as [a Ha]; [lia|].
    rewrite (drop_S _ _ _ Ha). simpl.
    rewrite bind_run.
    rewrite (bind_returns _ _ _ _ _ (list_getitem_Some _ _ _ _ Ha)).
    unfold Isend, wait_send. rewrite !bind_run; simpl.
    rewrite IH by lia. unfold log; simpl. by rewrite <- !app_assoc.
Qed.

Lemma send_array_loop (a : ndarray) tag destination k p :
  for_each (zip (seq k (length destination)) destination)
    (λ '(dest_ind, dest), sendreq ← Isend (flatten a) dest tag; wait_send sendreq) p
  = (Returns tt, log (((λ dest, (dest, a)) <$> destination) ≫= send_events tag) p).
Proof.
  revert k p. induction destination as [|d ds IH]; intros k p.
  - simpl. by rewrite log_nil.
  - simpl. rewrite bind_run. unfold Isend, wait_send. rewrite !bind_run; simpl.
    rewrite IH. unfold log; simpl. by rewrite <- !app_assoc.
Qed.

Lemma complete_sends_run P destination data tag p :
  valid_payloads P destination data →
  complete_sends destination data tag p
  = (Returns tt, log (payloads destination data ≫= send_events tag) p).
Proof.
  intros [Hin Hdata]. unfold complete_sends, enumerate.
  destruct data as [l|a|]; [| |done].
  - rewrite send_list_loop by done. by rewrite drop_0.
  - apply send_array_loop.
Qed.


Lemma posted_events tag column sources :
  (λ x : nat * ndarray, EvIrecv x.1 tag (size x.2))
    <$> zip sources (receive_buffers column sources)
  = posted tag column sources.
Proof.
  unfold receive_buffers, posted.
  induction sources as [|s ss IH]; [done|].
  csimpl. rewrite IH.
  unfold size, np_zeros. by rewrite length_replicate.
Qed.

Lemma allocate_run sources p :
  allocate sources p = (Returns (receive_buffers (source_count (self p)) sources), p).
Proof. reflexivity. Qed.

(** Up to the point where it waits for its receives, a call with valid
    arguments runs straight through. *)
Lemma send_recv_run P net destination data tag p column :
  length (destination_count (self p)) = P →
  valid_payloads P destination data →
  net_alltoall net = Some column →
  send_recv net destination data tag p
  = (recvbuff ← complete_receives net (requests tag (np_where_nonzero column))
                  (receive_buffers column (np_where_nonzero column));
     mret (np_where_nonzero column, recvbuff))
      (log ([EvAlltoall (counts_of P (payloads destination data))]
              ++ posted tag column (np_where_nonzero column)
              ++ (payloads destination data ≫= send_events tag))
           (set_self {| comm := comm (self p);
                        destination_count := counts_of P (payloads destination data);
                        source_count := column |} p)).
Proof.
  intros HP Hvalid Hnet. unfold send_recv.
  rewrite (bind_returns _ _ _ _ _ (fill_destination_count_run _ _ _ _ HP Hvalid)).
  rewrite bind_run, fill_source_count_run, Hnet.
  rewrite bind_run, allocate_run. simpl.
  rewrite bind_run. unfold post_receives, enumerate.
  rewrite post_receives_loop by (unfold receive_buffers; rewrite length_fmap; lia).
  rewrite drop_0, posted_events.
  rewrite bind_run, (complete_sends_run P) by done.
  unfold log, set_self; simpl. by rewrite <- !app_assoc.
Qed.

Lemma send_recv_blocked P net destination data tag p :
  length (destination_count (self p)) = P →
  valid_payloads P destination data →
  net_alltoall net = None →
  send_recv net destination data tag p
  = (Blocks,
     log [EvAlltoall (counts_of P (payloads destination data))]
         (set_self {| comm := comm (self p);
                      destination_count := counts_of P (payloads destination data);
                      source_count := replicate (length (source_count (self p))) 0 |} p)).
Proof.
  intros HP Hvalid Hnet. unfold send_recv.
  rewrite (bind_returns _ _ _ _ _ (fill_destination_count_run _ _ _ _ HP Hvalid)).
  rewrite bind_run, fill_source_count_run, Hnet. reflexivity.
Qed.


(** ** Completing the receives *)

Lemma received_length (payload buf : list elt) :
  length payload ≤ length buf →
  length (payload ++ drop (length payload) buf) = length buf.
Proof. intros H. rewrite length_app, length_drop. lia. Qed.

Lemma wait_recv_inv recvbuff req p o p' :
  wait_recv recvbuff req p = (o, p') →
  self p' = self p ∧
  trace p' = trace p ++ [EvWaitRecv (req_source req)] ∧
  (∀ b, o = Returns b → length <$> b = length <$> recvbuff).
Proof.
  unfold wait_recv, list_getitem. run_M.
  destruct (take_message (req_source req) (req_tag req) (mailbox p)) as [[m q']|]; simpl.
  - destruct (recvbuff !! req_index req) as [buf|] eqn:Hbuf; simpl.
    + case_decide as Hle; intros [= <- <-]; simpl; split_and!; try done.
      intros b [= <-]. rewrite list_fmap_insert.
      rewrite received_length by done.
      apply list_insert_id.
      change (Some (length buf)) with (length <$> Some buf).
      rewrite <- Hbuf. apply list_lookup_fmap.
    + intros [= <- <-]; simpl. split_and!; done.
  - intros [= <- <-]; simpl. split_and!; done.
Qed.

Lemma wait_loop_inv reqs recvbuff p o p' :
  for_each_acc reqs wait_recv recvbuff p = (o, p') →
  self p' = self p ∧
  (∃ n, trace p' = trace p ++ (EvWaitRecv <$> take n (req_source <$> reqs))) ∧
  (∀ b, o = Returns b →
        length <$> b = length <$> recvbuff ∧
        trace p' = trace p ++ (EvWaitRecv <$> (req_source <$> reqs))).
Proof.
  revert recvbuff p. induction reqs as [|r rs IH]; intros recvbuff p; simpl.
  - intros [= <- <-]. split_and!; [done|exists 0; by rewrite app_nil_r|].
    intros b [= <-]. by rewrite app_nil_r.
  - rewrite bind_run.
    destruct (wait_recv recvbuff r p) as [o1 p1] eqn:Hw.
    destruct (wait_recv_inv _ _ _ _ _ Hw) as (Hs1 & Ht1 & Hl1).
    destruct o1 as [b1|e|].
    + intros Hrest. destruct (IH _ _ Hrest) as (Hs & [n Ht] & Hl).
      split_and!.
      * congruence.
      * exists (S n). rewrite Ht, Ht1. simpl. by rewrite <- app_assoc.
      * intros b ->. destruct (Hl b eq_refl) as [Hlen Htr]. split.
        -- rewrite Hlen. by apply Hl1.
        -- rewrite Htr, Ht1. simpl. by rewrite <- app_assoc.
    + intros [= <- <-]. split_and!; [done|exists 1; by rewrite Ht1|done].
    + intros [= <- <-]. split_and!; [done|exists 1; by rewrite Ht1|done].
Qed.

Lemma complete_receives_inv net reqs recvbuff p o p' :
  complete_receives net reqs recvbuff p = (o, p') →
  self p' = self p ∧
  (∃ n, trace p' = trace p ++ (EvWaitRecv <$> take n (req_source <$> reqs))) ∧
  (∀ b, o = Returns b →
        length <$> b = length <$> recvbuff ∧
        trace p' = trace p ++ (EvWaitRecv <$> (req_source <$> reqs))).
Proof.
  unfold complete_receives, arrive. rewrite !bind_run; simpl.
  intros H. apply wait_loop_inv in H. simpl in H. exact H.
Qed.

Lemma complete_receives_run net reqs recvbuff p :
  complete_receives net reqs recvbuff p
  = for_each_acc reqs wait_recv recvbuff (set_mailbox (mailbox p ++ net_arrivals net) p).
Proof. reflexivity. Qed.

Lemma requests_sources tag sources : req_source <$> requests tag sources = sources.
Proof.
  unfold requests, enumerate. rewrite <- list_fmap_compose.
  change (snd <$> zip (seq 0 (length sources)) sources = sources).
  apply snd_zip. by rewrite length_seq.
Qed.


Lemma payloads_destinations P destination data :
  valid_payloads P destination data → (payloads destination data).*1 = destination.
Proof.
  intros [_ Hdata]. destruct data as [l|a|]; simpl; [| |done].
  - by apply fst_zip.
  - rewrite <- list_fmap_compose. apply list_fmap_id.
Qed.

(** What a call with valid arguments does once the all-to-all has
    completed, whatever becomes of its receives. *)
Lemma send_recv_inv P net destination data tag p column o p' :
  length (destination_count (self p)) = P →
  valid_payloads P destination data →
  net_alltoall net = Some column →
  send_recv net destination data tag p = (o, p') →
  self p' = {| comm := comm (self p);
               destination_count := counts_of P (payloads destination data);
               source_count := column |} ∧
  (∃ n, trace p' = trace p ++ [EvAlltoall (counts_of P (payloads destination data))]
                     ++ posted tag column (np_where_nonzero column)
                     ++ (payloads destination data ≫= send_events tag)
                     ++ take n (awaited (np_where_nonzero column))) ∧
  (∀ r, o = Returns r →
        r.1 = np_where_nonzero column ∧
        length <$> r.2 = (λ source, column !!! source) <$> np_where_nonzero column ∧
        trace p' = trace p ++ [EvAlltoall (counts_of P (payloads destination data))]
                     ++ posted tag column (np_where_nonzero column)
                     ++ (payloads destination data ≫= send_events tag)
                     ++ awaited (np_where_nonzero column)).
Proof.
  intros HP Hvalid Hnet. rewrite (send_recv_run P _ _ _ _ _ column) by done.
  rewrite bind_run.
  destruct (complete_receives _ _ _ _) as [o1 p1] eqn:Hc.
  destruct (complete_receives_inv _ _ _ _ _ _ Hc) as (Hs & [n Ht] & Hr).
  rewrite requests_sources in Ht, Hr. simpl in Hs, Ht, Hr.
  assert (Hpre : ∀ tl, (trace p ++ [EvAlltoall (counts_of P (payloads destination data))]
        ++ posted tag column (np_where_nonzero column)
        ++ (payloads destination data ≫= send_events tag)) ++ tl
      = trace p ++ [EvAlltoall (counts_of P (payloads destination data))]
        ++ posted tag column (np_where_nonzero column)
        ++ (payloads destination data ≫= send_events tag) ++ tl).
  { intros tl. by rewrite <- !app_assoc. }
  destruct o1 as [b|e|]; simpl; intros [= <- <-].
  - destruct (Hr b eq_refl) as [Hlen Htr]. split_and!.
    + done.
    + exists (length (np_where_nonzero column)).
      rewrite Htr, Hpre. unfold awaited.
      by rewrite take_ge by (by rewrite length_fmap).
    + intros r [= <-]. simpl. split_and!; [done| |by rewrite Htr, Hpre].
      rewrite Hlen. unfold receive_buffers. rewrite <- list_fmap_compose.
      apply list_fmap_ext. intros i s _. simpl. apply length_replicate.
  - split_and!; [done| |done]. exists n. rewrite Ht, Hpre. unfold awaited.
    by rewrite fmap_take.
  - split_and!; [done| |done]. exists n. rewrite Ht, Hpre. unfold awaited.
    by rewrite fmap_take.
Qed.

(** C9.  Order of the communication calls of one "distribute" call with
    valid arguments whose all-to-all completes: after the all-to-all, one
    non-blocking receive is posted per active source, in rank order, before
    any send; then, for each entry of the destination list in the order
    given, one send immediately followed by the wait on it; then the waits
    on the posted receives, in the order they were posted.  A call that
    returns has made all those waits; a call that does not return has made
    an initial part of them and nothing else. *)
Theorem send_recv_order P net destination data tag p column o p' :
  length (destination_count (self p)) = P →
  valid_payloads P destination data →
  net_alltoall net = Some column →
  send_recv net destination data tag p = (o, p') →
  (payloads destination data).*1 = destination ∧
  (∃ n, trace p' = trace p ++ [EvAlltoall (counts_of P (payloads destination data))]
                     ++ posted tag column (np_where_nonzero column)
                     ++ (payloads destination data ≫= send_events tag)
                     ++ take n (awaited (np_where_nonzero column))) ∧
  (∀ r, o = Returns r →
        r.1 = np_where_nonzero column ∧
        trace p' = trace p ++ [EvAlltoall (counts_of P (payloads destination data))]
                     ++ posted tag column (np_where_nonzero column)
                     ++ (payloads destination data ≫= send_events tag)
                     ++ awaited (np_where_nonzero column)).
Proof.
  intros HP Hvalid Hnet Hrun.
  destruct (send_recv_inv _ _ _ _ _ _ _ _ _ HP Hvalid Hnet Hrun) as (_ & Hpre & Hret).
  split_and!; [by eapply payloads_destinations|done|].
  intros r Hr. destruct (Hret r Hr) as (? & _ & ?). done.
Qed.


(** ** The count table *)

Lemma write_counts_notin pl v r :
  r ∉ pl.*1 → foldl write_count v pl !! r = v !! r.
Proof.
  revert v. induction pl as [|[d a] pl IH]; intros v Hr; [done|].
  simpl in *. apply not_elem_of_cons in Hr as [Hne Hr].
  rewrite IH by done. unfold write_count; simpl. by apply list_lookup_insert_ne.
Qed.

Lemma write_counts_last pl1 pl2 v r (a : ndarray) :
  r ∉ pl2.*1 → r < length v →
  foldl write_count v (pl1 ++ (r, a) :: pl2) !! r = Some (size a).
Proof.
  intros Hr Hlt. rewrite foldl_app. simpl. rewrite write_counts_notin by done.
  unfold write_count at 1; simpl. apply list_lookup_insert_eq.
  by rewrite length_write_counts.
Qed.

Lemma length_counts_of P pl : length (counts_of P pl) = P.
Proof. unfold counts_of. by rewrite length_write_counts, length_replicate. Qed.

(** C8.  With a payload list and destinations in range, the count fill
    succeeds; afterwards [destination_count] has 0 at every rank that is not
    listed and, at a listed rank, the element count of the payload paired
    with the last occurrence of that rank in the destination list: a later
    duplicate overwrites the entry of an earlier one, nothing is added. *)
Theorem destination_count_after_fill P destination l p :
  length (destination_count (self p)) = P →
  valid_payloads P destination (DataList l) →
  ∃ p', fill_destination_count destination (DataList l) p = (Returns tt, p') ∧
    length (destination_count (self p')) = P ∧
    (∀ r, r < P → r ∉ destination → destination_count (self p') !! r = Some 0) ∧
    (∀ i r a, destination !! i = Some r → l !! i = Some a →
              (∀ j, i < j → destination !! j ≠ Some r) →
              destination_count (self p') !! r = Some (size a)).
Proof.
  intros HP Hvalid. eexists. split; [by apply (fill_destination_count_run P)|].
  simpl. destruct Hvalid as [Hin Hlen]. simpl in Hlen. split_and!.
  - apply length_counts_of.
  - intros r Hr Hnotin. unfold counts_of. rewrite write_counts_notin.
    + by apply lookup_replicate_2.
    + by rewrite fst_zip.
  - intros i r a Hi Ha Hlast. unfold counts_of.
    assert (Hz : zip destination l !! i = Some (r, a)).
    { rewrite lookup_zip_with, Hi. simpl. by rewrite Ha. }
    rewrite <- (take_drop_middle _ _ _ Hz). apply write_counts_last.
    + intros Hel. apply list_elem_of_fmap in Hel as ([d a'] & -> & Hel).
      apply list_elem_of_lookup in Hel as [k Hk]. rewrite lookup_drop in Hk.
      apply lookup_zip_with_Some in Hk as (d' & a'' & [= -> ->] & Hd & _).
      apply (Hlast (S i + k)); [lia|done].
    + rewrite length_replicate. rewrite Forall_forall in Hin. apply Hin.
      by eapply list_elem_of_lookup_2.
Qed.


(** ** The group: the all-to-all and the messages in flight *)

Lemma sent_to_app me s evs1 evs2 :
  sent_to me s (evs1 ++ evs2) = sent_to me s evs1 ++ sent_to me s evs2.
Proof. unfold sent_to. apply omap_app. Qed.

Lemma sent_to_posted me s tag column sources :
  sent_to me s (posted tag column sources) = ([] : list message).
Proof. unfold sent_to, posted. by induction sources. Qed.

Lemma sent_to_awaited me s n sources :
  sent_to me s (take n (awaited sources)) = ([] : list message).
Proof.
  unfold sent_to, awaited. revert n.
  induction sources as [|x l IH]; intros [|n]; by csimpl.
Qed.

Lemma sent_to_sends me s tag pl :
  sent_to me s (pl ≫= send_events tag) = outgoing tag s me pl.
Proof.
  unfold outgoing. induction pl as [|[d a] pl IH]; [done|].
  rewrite filter_cons. csimpl. fold (sent_to me s (pl ≫= send_events tag)).
  rewrite IH. simpl. by case_decide.
Qed.

Lemma lookup_calls {X} (w : list proc) (xs : list X) i p x :
  w !! i = Some p → xs !! i = Some x → zip w xs !! i = Some (p, x).
Proof. intros Hp Hx. rewrite lookup_zip_with, Hp. simpl. by rewrite Hx. Qed.

Lemma lookup_calls_inv {X} (w : list proc) (xs : list X) i c :
  zip w xs !! i = Some c → w !! i = Some c.1 ∧ xs !! i = Some c.2.
Proof.
  intros H. apply lookup_zip_with_Some in H as (p & x & -> & Hp & Hx). done.
Qed.

Lemma alltoall_columns_valid w args :
  wf_world w → length args = length w → Forall (valid_call (length w)) args →
  alltoall_columns (zip w args)
  = Some (λ me, (λ b : list nat, b !!! me) <$> count_table (length w) args).
Proof.
  intros Hwf Hlen Hvalid. unfold alltoall_columns.
  assert (Hm : mapM (λ call : proc * sr_args,
      alltoall_sendbuf (events_of (send_recv silent (destination call.2) (data call.2)
                                             (tag call.2)) call.1)) (zip w args)
    = Some (count_table (length w) args)).
  { apply mapM_Some_2. apply Forall2_same_length_lookup_2.
    - unfold count_table. rewrite length_zip_with, length_fmap. lia.
    - intros i c b Hc Hb. apply lookup_calls_inv in Hc as [Hp Ha].
      unfold count_table in Hb. rewrite list_lookup_fmap, Ha in Hb.
      injection Hb as <-.
      destruct (Hwf _ _ Hp) as (_ & Hdc & _).
      rewrite Forall_forall in Hvalid.
      assert (Hv : valid_call (length w) c.2) by (by eapply Hvalid, list_elem_of_lookup_2).
      erewrite events_of_log; [|by apply (send_recv_blocked (length w))|by simpl].
      done. }
  rewrite Hm. done.
Qed.

Lemma sends_of_valid w column me s p a :
  wf_world w → w !! s = Some p → valid_call (length w) a →
  sent_to me s (sends_of (Some column) s (p, a))
  = outgoing (tag a) s me (payloads (destination a) (data a)).
Proof.
  intros Hwf Hp Hv. destruct (Hwf _ _ Hp) as (_ & Hdc & _).
  unfold sends_of. simpl.
  destruct (send_recv (after_alltoall (Some column) s) (destination a) (data a) (tag a) p)
    as [o p'] eqn:Hrun.
  assert (Hnet : net_alltoall (after_alltoall (Some column) s) = Some (column s)) by done.
  destruct (send_recv_inv (length w) _ _ _ _ _ _ _ _ Hdc Hv Hnet Hrun)
    as (_ & [n Ht] & _).
  erewrite events_of_log; [|exact Hrun|exact Ht].
  rewrite !sent_to_app, sent_to_posted, sent_to_awaited, sent_to_sends.
  simpl. by rewrite app_nil_r.
Qed.


Lemma distribute_all_lookup w args me p a :
  w !! me = Some p → args !! me = Some a →
  distribute_all w args !! me
  = Some (send_recv (distribute_net (zip w args) me) (destination a) (data a) (tag a) p).
Proof.
  intros Hp Ha. unfold distribute_all. rewrite list_lookup_imap.
  by rewrite (lookup_calls _ _ _ _ _ Hp Ha).
Qed.

Lemma distribute_net_alltoall w args me :
  wf_world w → length args = length w → Forall (valid_call (length w)) args →
  net_alltoall (distribute_net (zip w args) me) = Some (column_of (length w) args me).
Proof.
  intros Hwf Hlen Hvalid. unfold distribute_net; simpl.
  by rewrite alltoall_columns_valid.
Qed.

Lemma distribute_net_arrivals w args me :
  wf_world w → length args = length w → Forall (valid_call (length w)) args →
  net_arrivals (distribute_net (zip w args) me)
  = concat (imap (λ s a, outgoing (tag a) s me (payloads (destination a) (data a))) args).
Proof.
  intros Hwf Hlen Hvalid. unfold distribute_net; simpl.
  rewrite alltoall_columns_valid by done. unfold arrivals. f_equal.
  apply list_eq. intros s. rewrite !list_lookup_imap.
  destruct (args !! s) as [a|] eqn:Ha.
  - destruct (lookup_lt_is_Some_2 w s) as [p Hp].
    { rewrite <- Hlen. by eapply lookup_lt_Some. }
    rewrite (lookup_calls _ _ _ _ _ Hp Ha). simpl. f_equal.
    apply (sends_of_valid w); [done|done|].
    rewrite Forall_forall in Hvalid. by eapply Hvalid, list_elem_of_lookup_2.
  - rewrite lookup_zip_with. rewrite Ha.
    by destruct (w !! s).
Qed.

(** What a "distribute" round with valid arguments leaves at rank [me],
    whatever becomes of the receives. *)
Lemma distribute_all_inv w args me p a o p' :
  wf_world w → length args = length w → Forall (valid_call (length w)) args →
  w !! me = Some p → args !! me = Some a →
  distribute_all w args !! me = Some (o, p') →
  self p' = {| comm := comm (self p);
               destination_count :=
                 counts_of (length w) (payloads (destination a) (data a));
               source_count := column_of (length w) args me |} ∧
  (∀ r, o = Returns r →
        r.1 = np_where_nonzero (column_of (length w) args me) ∧
        length <$> r.2 = (λ source, column_of (length w) args me !!! source)
                           <$> np_where_nonzero (column_of (length w) args me)).
Proof.
  intros Hwf Hlen Hvalid Hp Ha. rewrite (distribute_all_lookup _ _ _ _ _ Hp Ha).
  intros [= Hrun].
  destruct (Hwf _ _ Hp) as (_ & Hdc & _).
  assert (Hv : valid_call (length w) a).
  { rewrite Forall_forall in Hvalid. by eapply Hvalid, list_elem_of_lookup_2. }
  destruct (send_recv_inv (length w) _ _ _ _ _ _ _ _ Hdc Hv
              (distribute_net_alltoall w args me Hwf Hlen Hvalid) Hrun) as (Hs & _ & Hr).
  split; [done|]. intros r Hret. destruct (Hr r Hret) as (? & ? & _). done.
Qed.


Lemma length_distribute_all w args :
  length args = length w → length (distribute_all w args) = length w.
Proof.
  intros Hlen. unfold distribute_all. rewrite length_imap, length_zip_with. lia.
Qed.

Lemma distribute_all_lookup_inv w args me o p' :
  length args = length w →
  distribute_all w args !! me = Some (o, p') →
  ∃ p a, w !! me = Some p ∧ args !! me = Some a.
Proof.
  intros Hlen H. apply lookup_lt_Some in H. rewrite length_distribute_all in H by done.
  destruct (lookup_lt_is_Some_2 w me) as [p Hp]; [done|].
  destruct (lookup_lt_is_Some_2 args me) as [a Ha]; [lia|].
  eauto.
Qed.

Lemma length_column_of P args me : length (column_of P args me) = length args.
Proof. unfold column_of, count_table. by rewrite !length_fmap. Qed.

Lemma distribute_all_wf w args :
  wf_world w → length args = length w → Forall (valid_call (length w)) args →
  wf_world (snd <$> distribute_all w args).
Proof.
  intros Hwf Hlen Hvalid me p' Hp'.
  rewrite length_fmap, length_distribute_all by done.
  rewrite list_lookup_fmap in Hp'.
  destruct (distribute_all w args !! me) as [[o p'']|] eqn:Hrun; [|done].
  injection Hp' as ->.
  destruct (distribute_all_lookup_inv _ _ _ _ _ Hlen Hrun) as (p & a & Hp & Ha).
  destruct (distribute_all_inv _ _ _ _ _ _ _ Hwf Hlen Hvalid Hp Ha Hrun) as [Hs _].
  destruct (Hwf _ _ Hp) as (Hc & _ & _).
  unfold wf_proc. rewrite Hs. simpl. split_and!.
  - done.
  - apply length_counts_of.
  - by rewrite length_column_of.
Qed.

Lemma same_payloads_table P args1 args2 :
  Forall2 same_payloads args1 args2 → count_table P args1 = count_table P args2.
Proof.
  unfold count_table. induction 1 as [|a1 a2 l1 l2 [Hd Hda] _ IH]; [done|].
  csimpl. by rewrite Hd, Hda, IH.
Qed.

Lemma same_payloads_valid P args1 args2 :
  Forall2 same_payloads args1 args2 →
  Forall (valid_call P) args1 → Forall (valid_call P) args2.
Proof.
  induction 1 as [|a1 a2 l1 l2 [Hd Hda] _ IH]; [done|].
  intros Hv. inversion Hv as [|? ? Hv1 Hvs]; subst. constructor; [|by apply IH].
  unfold valid_call in *. by rewrite <- Hd, <- Hda.
Qed.


(** ** Matching the receives with the messages in flight *)

Lemma take_message_single s t q m :
  pending s q = [m] → msg_tag m = t →
  ∃ q', take_message s t q = Some (m, q') ∧
        pending s q' = [] ∧
        (∀ s', s' ≠ s → pending s' q' = pending s' q).
Proof.
  unfold pending. intros Hq Ht. induction q as [|x q IH]; [done|].
  rewrite filter_cons in Hq. simpl. case_decide as Hx.
  - injection Hq as -> Hq. rewrite decide_True by done.
    exists q. split_and!; [done|done|].
    intros s' Hs'. rewrite filter_cons. rewrite decide_False; [done|congruence].
  - destruct (IH Hq) as (q' & Htake & Hnone & Hother).
    rewrite decide_False by (intros [? _]; done).
    rewrite Htake. simpl. exists (x :: q'). split_and!; [done| |].
    + rewrite filter_cons. by rewrite decide_False.
    + intros s' Hs'. rewrite !filter_cons. rewrite (Hother s' Hs'). done.
Qed.

(** Every posted receive finds exactly its message: the loop returns and
    leaves nothing behind from the sources it received from. *)
Lemma wait_loop_exact reqs recvbuff p :
  NoDup (req_source <$> reqs) →
  (∀ r, r ∈ reqs →
        ∃ m n, pending (req_source r) (mailbox p) = [m] ∧ msg_tag m = req_tag r ∧
               (length <$> recvbuff) !! req_index r = Some n ∧
               length (msg_payload m) ≤ n) →
  ∃ b p', for_each_acc reqs wait_recv recvbuff p = (Returns b, p') ∧
          (∀ s, s ∈ req_source <$> reqs → pending s (mailbox p') = []) ∧
          (∀ s, s ∉ req_source <$> reqs → pending s (mailbox p') = pending s (mailbox p)).
Proof.
  revert recvbuff p. induction reqs as [|r rs IH]; intros recvbuff p Hnd Hall.
  - simpl. exists recvbuff, p. split_and!; [done| |done].
    intros s Hs. by apply elem_of_nil in Hs.
  - rewrite fmap_cons in Hnd. apply NoDup_cons in Hnd as [Hr Hnd].
    destruct (Hall r) as (m & n & Hm & Htag & Hn & Hle); [by left|].
    destruct (take_message_single _ _ _ _ Hm Htag) as (q' & Htake & Hnone & Hother).
    rewrite list_lookup_fmap in Hn.
    destruct (recvbuff !! req_index r) as [buf|] eqn:Hbuf; [|done].
    injection Hn as <-.
    assert (Hw : wait_recv recvbuff r p
      = (Returns (<[req_index r := msg_payload m ++ drop (length (msg_payload m)) buf]>
                    recvbuff),
         set_mailbox q' (log [EvWaitRecv (req_source r)] p))).
    { unfold wait_recv, list_getitem. run_M. rewrite Htake; simpl. rewrite Hbuf; simpl.
      by rewrite decide_True. }
    simpl. rewrite (bind_returns _ _ _ _ _ Hw).
    destruct (wait_recv_inv _ _ _ _ _ Hw) as (_ & _ & Hlen).
    specialize (Hlen _ eq_refl).
    destruct (IH (<[req_index r := msg_payload m ++ drop (length (msg_payload m)) buf]>
                    recvbuff)
                 (set_mailbox q' (log [EvWaitRecv (req_source r)] p)) Hnd)
      as (b & p' & Hrun & Hdone & Hrest).
    { intros r' Hr'. destruct (Hall r') as (m' & n' & Hm' & Htag' & Hn' & Hle'); [by right|].
      exists m', n'. simpl. rewrite Hlen. split_and!; try done.
      rewrite Hother; [done|]. intros Heq. apply Hr. rewrite <- Heq.
      by apply list_elem_of_fmap_2. }
    exists b, p'. split_and!; [done| |].
    + intros s Hs. apply elem_of_cons in Hs as [->|Hs]; [|by apply Hdone].
      destruct (decide (req_source r ∈ req_source <$> rs)) as [Hin|Hnotin]; [done|].
      by rewrite (Hrest _ Hnotin).
    + intros s Hs. apply not_elem_of_cons in Hs as [Hne Hs].
      rewrite (Hrest _ Hs). simpl. by apply Hother.
Qed.


Lemma pending_all s q : (∀ m, m ∈ q → msg_source m = s) → pending s q = q.
Proof.
  unfold pending. induction q as [|x q IH]; intros H; [done|].
  rewrite filter_cons, decide_True by (apply H; by left).
  f_equal. apply IH. intros m Hm. apply H. by right.
Qed.

Lemma pending_none s q : (∀ m, m ∈ q → msg_source m ≠ s) → pending s q = [].
Proof.
  unfold pending. induction q as [|x q IH]; intros H; [done|].
  rewrite filter_cons, decide_False by (apply H; by left).
  apply IH. intros m Hm. apply H. by right.
Qed.

Lemma pending_app s q1 q2 : pending s (q1 ++ q2) = pending s q1 ++ pending s q2.
Proof. apply filter_app. Qed.

Lemma pending_concat_imap_below {X} (F : nat → X → list message) l k s :
  (∀ i x m, m ∈ F i x → msg_source m = k + i) → s < k →
  pending s (concat (imap F l)) = [].
Proof.
  revert F k. induction l as [|x l IH]; intros F k HF Hs; [done|].
  simpl. rewrite pending_app, (IH _ (S k)); [|intros i y m Hm|lia].
  - rewrite app_nil_r. apply pending_none. intros m Hm. apply HF in Hm. lia.
  - apply HF in Hm. lia.
Qed.

Lemma pending_concat_imap {X} (F : nat → X → list message) l k s :
  (∀ i x m, m ∈ F i x → msg_source m = k + i) →
  pending (k + s) (concat (imap F l)) = match l !! s with Some x => F s x | None => [] end.
Proof.
  revert F k s. induction l as [|x l IH]; intros F k s HF; [done|].
  simpl. rewrite pending_app. destruct s as [|s]; simpl.
  - rewrite (pending_concat_imap_below _ _ (S k)); [|intros i y m Hm|lia].
    + rewrite app_nil_r. apply pending_all. intros m Hm. by apply HF in Hm.
    + apply HF in Hm. lia.
  - rewrite pending_none; [|intros m Hm; apply HF in Hm; lia].
    simpl. replace (k + S s) with (S k + s) by lia.
    apply (IH (F ∘ S) (S k) s). intros i y m Hm. apply HF in Hm. lia.
Qed.

Lemma outgoing_source tag s me pl m : m ∈ outgoing tag s me pl → msg_source m = s.
Proof. unfold outgoing. intros H. apply list_elem_of_fmap in H as (x & -> & _). done. Qed.

(** ** [np.where]: the active sources *)

Lemma elem_of_nonzero_from i v s :
  s ∈ nonzero_from i v ↔ ∃ j c, s = i + j ∧ v !! j = Some c ∧ c ≠ 0.
Proof.
  revert i. induction v as [|c v IH]; intros i; simpl.
  - split; [by intros ?%elem_of_nil|]. by intros (j & c & _ & ? & _).
  - case_decide as Hc.
    + rewrite IH. split.
      * intros (j & c' & -> & Hj & Hc'). exists (S j), c'. split_and!; [lia|done|done].
      * intros ([|j] & c' & -> & Hj & Hc'); simpl in Hj; [congruence|].
        exists j, c'. split_and!; [lia|done|done].
    + rewrite elem_of_cons, IH. split.
      * intros [->|(j & c' & -> & Hj & Hc')].
        -- exists 0, c. split_and!; [lia|done|done].
        -- exists (S j), c'. split_and!; [lia|done|done].
      * intros ([|j] & c' & -> & Hj & Hc'); simpl in Hj.
        -- left. lia.
        -- right. exists j, c'. split_and!; [lia|done|done].
Qed.

Lemma elem_of_np_where_nonzero v s : s ∈ np_where_nonzero v ↔ v !!! s ≠ 0.
Proof.
  unfold np_where_nonzero. rewrite elem_of_nonzero_from. split.
  - intros (j & c & -> & Hj & Hc). simpl. by rewrite (list_lookup_total_correct _ _ _ Hj).
  - intros Hs. rewrite list_lookup_total_alt in Hs.
    destruct (v !! s) as [c|] eqn:Hv; simpl in Hs; [|done].
    exists s, c. done.
Qed.

Lemma nonzero_from_ascending i v a b k l :
  nonzero_from i v !! k = Some a → nonzero_from i v !! l = Some b → k < l →
  i ≤ a ∧ a < b.
Proof.
  revert i k l. induction v as [|c v IH]; intros i k l; simpl; [done|].
  assert (Hge : ∀ i' x, x ∈ nonzero_from i' v → i' ≤ x).
  { intros i' x Hx. apply elem_of_nonzero_from in Hx as (j & ? & -> & _). lia. }
  case_decide as Hc.
  - intros Hk Hl Hlt. destruct (IH _ _ _ Hk Hl Hlt). lia.
  - destruct k as [|k]; destruct l as [|l]; simpl; intros Hk Hl Hlt; try lia.
    + injection Hk as <-. apply list_elem_of_lookup_2, Hge in Hl. lia.
    + destruct (IH _ _ _ Hk Hl); lia.
Qed.

Lemma np_where_nonzero_ascending v a b k l :
  np_where_nonzero v !! k = Some a → np_where_nonzero v !! l = Some b → k < l → a < b.
Proof. intros Hk Hl Hlt. by destruct (nonzero_from_ascending _ _ _ _ _ _ Hk Hl Hlt). Qed.

Lemma np_where_nonzero_NoDup v : NoDup (np_where_nonzero v).
Proof.
  apply NoDup_alt. intros k l x Hk Hl.
  destruct (decide (k < l)) as [Hlt|Hge].
  - pose proof (np_where_nonzero_ascending _ _ _ _ _ Hk Hl Hlt). lia.
  - destruct (decide (l < k)) as [Hlt|Hge'].
    + pose proof (np_where_nonzero_ascending _ _ _ _ _ Hl Hk Hlt). lia.
    + lia.
Qed.


(** ** Distinct destinations: one message per pair of ranks *)

Lemma filter_to_notin me (pl : list (nat * ndarray)) :
  me ∉ pl.*1 → filter (λ x, x.1 = me) pl = [].
Proof.
  induction pl as [|[d a] pl IH]; [done|]. csimpl. intros [Hne Hnotin]%not_elem_of_cons.
  rewrite filter_cons, decide_False by (simpl; congruence). by apply IH.
Qed.

Lemma counts_of_NoDup P (pl : list (nat * ndarray)) me :
  NoDup pl.*1 → Forall (λ dest, dest < P) pl.*1 →
  (filter (λ x, x.1 = me) pl = [] ∧ counts_of P pl !!! me = 0) ∨
  (∃ a, filter (λ x, x.1 = me) pl = [(me, a)] ∧ counts_of P pl !!! me = size a).
Proof.
  intros Hnd Hin. destruct (decide (me ∈ pl.*1)) as [Hel|Hnotin].
  - right. apply list_elem_of_fmap in Hel as ([d a] & -> & Hel). simpl in *.
    apply list_elem_of_split in Hel as (pl1 & pl2 & ->).
    rewrite fmap_app, fmap_cons in Hnd, Hin. simpl in *.
    apply NoDup_app in Hnd as (_ & Hpl1 & Hnd). apply NoDup_cons in Hnd as [Hpl2 _].
    apply Forall_app in Hin as [_ Hin]. apply Forall_cons in Hin as [Hd _].
    exists a. split.
    + rewrite filter_app, filter_cons, decide_True by done.
      rewrite !filter_to_notin; [done|done|].
      intros Hd1. apply (Hpl1 _ Hd1). by left.
    + apply list_lookup_total_correct. unfold counts_of.
      apply write_counts_last; [done|by rewrite length_replicate].
  - left. split; [by apply filter_to_notin|].
    rewrite list_lookup_total_alt. unfold counts_of.
    rewrite write_counts_notin by done.
    destruct (replicate P 0 !! me) as [c|] eqn:Hc; [|done].
    apply lookup_replicate in Hc as [-> _]. done.
Qed.

Lemma column_of_lookup P args me s a :
  args !! s = Some a →
  column_of P args me !!! s = counts_of P (payloads (destination a) (data a)) !!! me.
Proof.
  intros Ha. apply list_lookup_total_correct.
  unfold column_of, count_table. by rewrite !list_lookup_fmap, Ha.
Qed.

Lemma column_of_nonzero P args me s :
  column_of P args me !!! s ≠ 0 → ∃ a, args !! s = Some a.
Proof.
  intros H. destruct (args !! s) as [a|] eqn:Ha; [eauto|].
  exfalso. apply H. rewrite list_lookup_total_alt.
  unfold column_of, count_table. by rewrite !list_lookup_fmap, Ha.
Qed.

Lemma sum_outgoing tag s me (pl : list (nat * ndarray)) :
  sum_list ((λ m, length (msg_payload m)) <$> outgoing tag s me pl)
  = sum_list ((λ x, size x.2) <$> filter (λ x, x.1 = me) pl).
Proof. unfold outgoing. by rewrite <- list_fmap_compose. Qed.

(** With distinct destinations the count rank [s] announces to [me] is the
    number of elements it sends to [me]. *)
Lemma elements_sent_distinct w args s me :
  wf_world w → length args = length w → Forall (valid_call (length w)) args →
  Forall (λ a, NoDup (destination a)) args →
  elements_sent w args s me = column_of (length w) args me !!! s.
Proof.
  intros Hwf Hlen Hvalid Hnd. unfold elements_sent.
  rewrite alltoall_columns_valid by done.
  destruct (args !! s) as [a|] eqn:Ha.
  - destruct (lookup_lt_is_Some_2 w s) as [p Hp].
    { rewrite <- Hlen. by eapply lookup_lt_Some. }
    rewrite (lookup_calls _ _ _ _ _ Hp Ha).
    rewrite Forall_forall in Hvalid, Hnd.
    assert (Hv : valid_call (length w) a) by (by eapply Hvalid, list_elem_of_lookup_2).
    assert (Ha' : NoDup (destination a)) by (by eapply Hnd, list_elem_of_lookup_2).
    rewrite (sends_of_valid w) by done.
    rewrite sum_outgoing, (column_of_lookup _ _ _ _ _ Ha).
    pose proof (payloads_destinations _ _ _ Hv) as Hfst.
    destruct (counts_of_NoDup (length w) (payloads (destination a) (data a)) me)
      as [[-> ->]|(b & -> & ->)]; try done.
    + by rewrite Hfst.
    + rewrite Hfst. apply Hv.
  - rewrite lookup_zip_with, Ha. destruct (w !! s); simpl.
    + rewrite list_lookup_total_alt. unfold column_of, count_table.
      by rewrite !list_lookup_fmap, Ha.
    + rewrite list_lookup_total_alt. unfold column_of, count_table.
      by rewrite !list_lookup_fmap, Ha.
Qed.


Lemma elem_of_requests tag sources r :
  r ∈ requests tag sources →
  ∃ i s, sources !! i = Some s ∧
         r = {| req_index := i; req_source := s; req_tag := tag |}.
Proof.
  unfold requests, enumerate. intros H.
  apply list_elem_of_fmap in H as ([i s] & -> & H).
  apply list_elem_of_lookup in H as [j Hj].
  apply lookup_zip_with_Some in Hj as (i' & s' & [= -> ->] & Hi & Hs).
  apply lookup_seq in Hi as [-> _]. exists j, s'. done.
Qed.

Lemma lookup_receive_buffers column sources i s :
  sources !! i = Some s →
  (length <$> receive_buffers column sources) !! i = Some (column !!! s).
Proof.
  intros Hs. unfold receive_buffers. rewrite !list_lookup_fmap, Hs. simpl.
  unfold np_zeros. by rewrite length_replicate.
Qed.

(** A round with valid arguments, distinct destinations and one tag for the
    whole group, started without leftovers from the active sources: every
    rank returns, and again no message from an active source is left. *)
Lemma distribute_all_returns w args me p a :
  wf_world w → length args = length w → Forall (valid_call (length w)) args →
  Forall (λ a, NoDup (destination a)) args →
  one_tag args →
  quiet w args →
  w !! me = Some p → args !! me = Some a →
  ∃ b p',
    distribute_all w args !! me
    = Some (Returns (np_where_nonzero (column_of (length w) args me), b), p') ∧
    (∀ s, column_of (length w) args me !!! s ≠ 0 → pending s (mailbox p') = []).
Proof.
  intros Hwf Hlen Hvalid Hnd Htag Hquiet Hp Ha.
  rewrite (distribute_all_lookup _ _ _ _ _ Hp Ha).
  destruct (Hwf _ _ Hp) as (_ & Hdc & _).
  rewrite Forall_forall in Hvalid, Hnd.
  assert (Hvalid' : Forall (valid_call (length w)) args) by (by apply Forall_forall).
  assert (Hv : valid_call (length w) a) by (by eapply Hvalid, list_elem_of_lookup_2).
  rewrite (send_recv_run (length w) _ _ _ _ _ (column_of (length w) args me));
    [|done|done|by apply distribute_net_alltoall].
  rewrite bind_run, complete_receives_run, distribute_net_arrivals by done.
  set (column := column_of (length w) args me).
  set (sources := np_where_nonzero column).
  match goal with |- context [for_each_acc ?reqs wait_recv ?bufs ?q] =>
    destruct (wait_loop_exact reqs bufs q) as (b & p' & Hrun & Hdone & _)
  end.
  - rewrite requests_sources. apply np_where_nonzero_NoDup.
  - intros r Hr. apply elem_of_requests in Hr as (i & s & Hs & ->). simpl.
    assert (Hact : column !!! s ≠ 0).
    { apply elem_of_np_where_nonzero. by eapply list_elem_of_lookup_2. }
    destruct (column_of_nonzero _ _ _ _ Hact) as [a_s Has].
    assert (Hvs : valid_call (length w) a_s) by (by eapply Hvalid, list_elem_of_lookup_2).
    assert (Hnds : NoDup (destination a_s)) by (by eapply Hnd, list_elem_of_lookup_2).
    pose proof (payloads_destinations _ _ _ Hvs) as Hfst.
    unfold column in Hact. rewrite (column_of_lookup _ _ _ _ _ Has) in Hact.
    destruct (counts_of_NoDup (length w) (payloads (destination a_s) (data a_s)) me)
      as [[_ Hz]|(x & Hx & Hsize)]; [by rewrite Hfst|rewrite Hfst; apply Hvs|done|].
    exists {| msg_source := s; msg_tag := tag a_s; msg_payload := flatten x |},
           (column !!! s).
    split_and!.
    + rewrite pending_app, (Hquiet me p s Hp) by (by unfold column in *;
        rewrite (column_of_lookup _ _ _ _ _ Has)).
      change s with (0 + s) at 1.
      rewrite pending_concat_imap by (intros ? ? ? ?%outgoing_source; done).
      rewrite Has. unfold outgoing. by rewrite Hx.
    + simpl. apply Htag; by eapply list_elem_of_lookup_2.
    + by apply lookup_receive_buffers.
    + simpl. unfold column. rewrite (column_of_lookup _ _ _ _ _ Has), Hsize. done.
  - rewrite Hrun. simpl. exists b, p'. split; [done|].
    intros s Hs. apply Hdone. rewrite requests_sources.
    by apply elem_of_np_where_nonzero.
Qed.


(** ** The "distribute" round *)

(** C1 (amended).  In a round where every rank passes destinations in range
    that are pairwise distinct, a payload for each, and the common tag, and
    where no message from an active source is left over, the call of every
    rank [me] returns a list of sources and a list of buffers of the same
    length; the sources are in strictly ascending rank order, they are
    exactly the ranks that send at least one element to [me], and the
    buffer at the position of source [s] has as many elements as [s] sends
    to [me]. *)
Theorem distribute_sources_and_sizes w args me :
  wf_world w → length args = length w → Forall (valid_call (length w)) args →
  Forall (λ a, NoDup (destination a)) args →
  one_tag args →
  quiet w args →
  me < length w →
  ∃ sources recvbuff p',
    distribute_all w args !! me = Some (Returns (sources, recvbuff), p') ∧
    length recvbuff = length sources ∧
    (∀ i j a b, sources !! i = Some a → sources !! j = Some b → i < j → a < b) ∧
    (∀ s, s ∈ sources ↔ elements_sent w args s me ≠ 0) ∧
    (∀ i s buf, sources !! i = Some s → recvbuff !! i = Some buf →
                length buf = elements_sent w args s me).
Proof.
  intros Hwf Hlen Hvalid Hnd Htag Hquiet Hme.
  destruct (lookup_lt_is_Some_2 w me) as [p Hp]; [done|].
  destruct (lookup_lt_is_Some_2 args me) as [a Ha]; [lia|].
  destruct (distribute_all_returns _ _ _ _ _ Hwf Hlen Hvalid Hnd Htag Hquiet Hp Ha)
    as (b & p' & Hrun & _).
  destruct (distribute_all_inv _ _ _ _ _ _ _ Hwf Hlen Hvalid Hp Ha Hrun) as [_ Hr].
  destruct (Hr _ eq_refl) as [_ Hsizes]. simpl in Hsizes.
  eexists _, b, p'. split; [exact Hrun|]. split_and!.
  - apply (f_equal length) in Hsizes. by rewrite !length_fmap in Hsizes.
  - intros i j x y Hi Hj Hlt. by eapply np_where_nonzero_ascending.
  - intros s. rewrite elem_of_np_where_nonzero.
    by rewrite elements_sent_distinct.
  - intros i s buf Hs Hbuf. rewrite elements_sent_distinct by done.
    apply (f_equal (λ l, l !! i)) in Hsizes.
    rewrite !list_lookup_fmap, Hs, Hbuf in Hsizes. by injection Hsizes.
Qed.

Lemma same_payloads_length args1 args2 :
  Forall2 same_payloads args1 args2 → length args2 = length args1.
Proof. intros H. symmetry. by eapply Forall2_length. Qed.

Lemma same_payloads_NoDup args1 args2 :
  Forall2 same_payloads args1 args2 →
  Forall (λ a, NoDup (destination a)) args1 → Forall (λ a, NoDup (destination a)) args2.
Proof.
  induction 1 as [|a1 a2 l1 l2 [Hd Hda] _ IH]; [done|].
  intros Hv. inversion Hv as [|? ? Hv1 Hvs]; subst. constructor; [|by apply IH].
  by rewrite <- Hd.
Qed.

(** C7.  Two "distribute" rounds in a row on the same Routers, the second
    with the destinations and payloads of the first (the tags are free): at
    every rank the Router object is the same after the second call as after
    the first, whatever the scratch vectors held before the first; when both
    calls return they return the same sources and buffers of the same
    sizes; and with distinct destinations, one tag per round and no
    leftovers from active sources before the first round, both calls
    return.

    Nothing carries over because both vectors are written afresh in every
    call.  After the first call, whatever the vectors held before it,
    [destination_count] is the table of the call (zero but at the listed
    destinations) and [source_count] is the column of the all-to-all of the
    round; the sources returned are the ranks with a nonzero entry in that
    column and the buffers have the sizes of these entries.  And in a call
    whose all-to-all does not complete, [source_count] is all zeros when
    the call comes to wait, not what it held before. *)
Theorem distribute_twice w args1 args2 me o1 p1 o2 p2 :
  wf_world w → length args1 = length w → Forall (valid_call (length w)) args1 →
  Forall2 same_payloads args1 args2 →
  distribute_all w args1 !! me = Some (o1, p1) →
  distribute_all (snd <$> distribute_all w args1) args2 !! me = Some (o2, p2) →
  self p2 = self p1 ∧
  (∀ r1 r2, o1 = Returns r1 → o2 = Returns r2 →
            r1.1 = r2.1 ∧ length <$> r1.2 = length <$> r2.2) ∧
  (Forall (λ a, NoDup (destination a)) args1 → one_tag args1 → one_tag args2 →
   quiet w args1 →
   ∃ r1 r2, o1 = Returns r1 ∧ o2 = Returns r2) ∧
  (∃ a, args1 !! me = Some a ∧
        self p1 = {| comm := {| Get_size := length w; Get_rank := me |};
                     destination_count :=
                       counts_of (length w) (payloads (destination a) (data a));
                     source_count := column_of (length w) args1 me |}) ∧
  (∀ r1, o1 = Returns r1 →
         r1.1 = np_where_nonzero (column_of (length w) args1 me) ∧
         length <$> r1.2 = (λ s, column_of (length w) args1 me !!! s) <$> r1.1) ∧
  (∀ net p destination data tag,
     valid_payloads (length (destination_count (self p))) destination data →
     net_alltoall net = None →
     (send_recv net destination data tag p).1 = Blocks ∧
     source_count (self (send_recv net destination data tag p).2)
     = replicate (length (source_count (self p))) 0).
Proof.
  intros Hwf Hlen Hvalid Hsame Hrun1 Hrun2.
  set (w1 := snd <$> distribute_all w args1) in *.
  assert (Hlen1 : length w1 = length w).
  { unfold w1. by rewrite length_fmap, length_distribute_all. }
  assert (Hwf1 : wf_world w1) by (by apply distribute_all_wf).
  assert (Hlen2 : length args2 = length w1).
  { rewrite (same_payloads_length _ _ Hsame). lia. }
  assert (Hvalid2 : Forall (valid_call (length w1)) args2).
  { rewrite Hlen1. by eapply same_payloads_valid. }
  assert (Hcol : ∀ i, column_of (length w1) args2 i = column_of (length w) args1 i).
  { intros i. unfold column_of.
    by rewrite Hlen1, (same_payloads_table _ _ _ Hsame). }
  destruct (distribute_all_lookup_inv _ _ _ _ _ Hlen Hrun1) as (p & a1 & Hp & Ha1).
  destruct (distribute_all_lookup_inv _ _ _ _ _ Hlen2 Hrun2) as (p1' & a2 & Hp1 & Ha2).
  assert (p1' = p1) as ->.
  { unfold w1 in Hp1. rewrite list_lookup_fmap, Hrun1 in Hp1. by injection Hp1. }
  destruct (Forall2_lookup_lr _ _ _ _ _ _ Hsame Ha1 Ha2) as [Hd Hda].
  destruct (distribute_all_inv _ _ _ _ _ _ _ Hwf Hlen Hvalid Hp Ha1 Hrun1) as [Hs1 Hr1].
  destruct (distribute_all_inv _ _ _ _ _ _ _ Hwf1 Hlen2 Hvalid2 Hp1 Ha2 Hrun2) as [Hs2 Hr2].
  rewrite Hcol in Hs2, Hr2. rewrite Hlen1 in Hs2.
  split_and!.
  - rewrite Hs2, Hs1. simpl. by rewrite Hd, Hda.
  - intros r1 r2 Ho1 Ho2. destruct (Hr1 _ Ho1) as [-> ->], (Hr2 _ Ho2) as [-> ->]. done.
  - intros Hnd Htag1 Htag2 Hquiet.
    destruct (distribute_all_returns _ _ _ _ _ Hwf Hlen Hvalid Hnd Htag1 Hquiet Hp Ha1)
      as (b1 & q1 & Hret1 & _).
    destruct (distribute_all_returns w1 args2 me p1 a2) as (b2 & q2 & Hret2 & _);
      try done.
    + by eapply same_payloads_NoDup.
    + intros i q s Hq Hact. rewrite Hcol in Hact.
      unfold w1 in Hq. rewrite list_lookup_fmap in Hq.
      destruct (distribute_all w args1 !! i) as [[oi qi]|] eqn:Hruni; [|done].
      injection Hq as ->.
      destruct (distribute_all_lookup_inv _ _ _ _ _ Hlen Hruni) as (pi & ai & Hpi & Hai).
      destruct (distribute_all_returns _ _ _ _ _ Hwf Hlen Hvalid Hnd Htag1 Hquiet Hpi Hai)
        as (bi & qi' & Hreti & Hclean).
      rewrite Hruni in Hreti. injection Hreti as -> ->. by apply Hclean.
    + rewrite Hrun1 in Hret1. rewrite Hrun2 in Hret2.
      injection Hret1 as -> _. injection Hret2 as -> _. eauto.
  - exists a1. split; [done|]. rewrite Hs1.
    destruct (Hwf _ _ Hp) as (-> & _ & _). done.
  - intros r1 Ho1. destruct (Hr1 _ Ho1) as [Hsrc Hsz]. split; [done|].
    by rewrite Hsz, Hsrc.
  - intros net q destination data tag Hv Hnet.
    by rewrite (send_recv_blocked _ _ _ _ _ _ eq_refl Hv Hnet).
Qed.


(** ** One array for every destination *)

Lemma payloads_copies destination (x : ndarray) :
  payloads destination (DataList (replicate (length destination) x))
  = payloads destination (DataArray x).
Proof. simpl. induction destination as [|d ds IH]; [done|]. csimpl. by rewrite IH. Qed.

Lemma send_recv_same_payloads P net destination data data' tag p :
  length (destination_count (self p)) = P →
  valid_payloads P destination data → valid_payloads P destination data' →
  payloads destination data = payloads destination data' →
  send_recv net destination data tag p = send_recv net destination data' tag p.
Proof.
  intros HP Hv Hv' Hpl. destruct (net_alltoall net) as [column|] eqn:Hnet.
  - rewrite !(send_recv_run P _ _ _ _ _ column) by done. by rewrite Hpl.
  - rewrite !(send_recv_blocked P) by done. by rewrite Hpl.
Qed.

Lemma broadcast_or_copies_run w rank p a a' net :
  wf_world w → w !! rank = Some p → broadcast_or_copies (length w) a a' →
  run_send_recv net (p, a) = run_send_recv net (p, a').
Proof.
  intros Hwf Hp (Hd & Ht & Hdata). unfold run_send_recv. simpl.
  rewrite <- Hd, <- Ht. destruct Hdata as [<-|(Hin & x & -> & ->)]; [done|].
  destruct (Hwf _ _ Hp) as (_ & Hdc & _).
  apply (send_recv_same_payloads (length w)); try done.
  - split; [done|]. simpl. by rewrite length_replicate.
  - by rewrite payloads_copies.
Qed.

Lemma mapM_ext_Forall2 {A B} (f : A → option B) l l' :
  Forall2 (λ x y, f x = f y) l l' → mapM f l = mapM f l'.
Proof.
  unfold mapM. induction 1 as [|x y l l' Hxy _ IH]; [done|]. simpl. by rewrite Hxy, IH.
Qed.

Lemma imap_ext_Forall2 {A B} (f g : nat → A → B) l l' :
  Forall2 (λ x y, ∀ i, f i x = g i y) l l' → imap f l = imap g l'.
Proof.
  intros H. apply list_eq. intros i. rewrite !list_lookup_imap.
  destruct (l !! i) as [x|] eqn:Hx.
  - destruct (Forall2_lookup_l _ _ _ _ _ H Hx) as (y & -> & Hxy). simpl. by rewrite Hxy.
  - apply Forall2_length in H. apply lookup_ge_None in Hx.
    rewrite (lookup_ge_None_2 l') by lia. done.
Qed.

Lemma broadcast_or_copies_calls w args args' :
  wf_world w → length args = length w →
  Forall2 (broadcast_or_copies (length w)) args args' →
  Forall2 (λ c c' : proc * sr_args, c.1 = c'.1 ∧ ∀ net, run_send_recv net c = run_send_recv net c')
          (zip w args) (zip w args').
Proof.
  intros Hwf Hlen H. apply Forall2_same_length_lookup_2.
  - rewrite !length_zip_with. apply Forall2_length in H. lia.
  - intros i c c' Hc Hc'.
    apply lookup_calls_inv in Hc as [Hp Ha], Hc' as [Hp' Ha'].
    destruct c as [p a], c' as [p' a']. simpl in *.
    assert (p' = p) as -> by congruence. split; [done|]. intros net.
    eapply broadcast_or_copies_run; [done|done|].
    by eapply Forall2_lookup_lr.
Qed.

Lemma distribute_all_ext (calls calls' : list (proc * sr_args)) :
  Forall2 (λ c c', c.1 = c'.1 ∧ ∀ net, run_send_recv net c = run_send_recv net c')
          calls calls' →
  imap (λ me call, run_send_recv (distribute_net calls me) call) calls
  = imap (λ me call, run_send_recv (distribute_net calls' me) call) calls'.
Proof.
  intros H.
  assert (Hev : ∀ net, Forall2 (λ c c' : proc * sr_args,
      events_of (send_recv net (destination c.2) (data c.2) (tag c.2)) c.1
      = events_of (send_recv net (destination c'.2) (data c'.2) (tag c'.2)) c'.1)
      calls calls').
  { intros net. eapply Forall2_impl; [exact H|]. intros c c' [Hp Hrun].
    unfold events_of. specialize (Hrun net). unfold run_send_recv in Hrun.
    by rewrite Hrun, Hp. }
  assert (Hcols : alltoall_columns calls = alltoall_columns calls').
  { unfold alltoall_columns. f_equal. apply mapM_ext_Forall2.
    eapply Forall2_impl; [exact (Hev silent)|]. intros c c' Hc. simpl in Hc. by rewrite Hc. }
  assert (Hnet : ∀ me, distribute_net calls me = distribute_net calls' me).
  { intros me. unfold distribute_net. rewrite <- Hcols. f_equal.
    unfold arrivals. f_equal. apply imap_ext_Forall2.
    eapply Forall2_impl; [exact H|]. intros c c' [Hp Hrun] s.
    unfold sends_of, events_of. specialize (Hrun (after_alltoall (alltoall_columns calls) s)).
    unfold run_send_recv in Hrun. by rewrite Hrun, Hp. }
  apply imap_ext_Forall2. eapply Forall2_impl; [exact H|].
  intros c c' [Hp Hrun] me. by rewrite Hnet, Hrun.
Qed.




(** ** The "gather" round *)

Lemma length_np_empty n : length (np_empty n) = n.
Proof. unfold np_empty. by rewrite length_fmap, length_seq. Qed.

Lemma length_write_at displ (part buf : ndarray) :
  displ + length part ≤ length buf → length (write_at displ part buf) = length buf.
Proof.
  intros H. unfold write_at. rewrite !length_app, length_take, length_drop. lia.
Qed.

(** The receive buffer is written in place: its length is that of the
    allocation. *)
Lemma gatherv_place_length parts recvcounts displ buf p b p' :
  gatherv_place parts recvcounts displ buf p = (Returns b, p') → length b = length buf.
Proof.
  revert recvcounts displ buf.
  induction parts as [|part parts IH]; intros [|c cs] displ buf; simpl;
    try (by intros [= <- _]).
  case_decide as Hfit; [|done]. intros Hrun. rewrite (IH _ _ _ Hrun).
  apply length_write_at. lia.
Qed.

Lemma gatherv_place_concat parts displ buf p :
  length buf = displ + sum_list (length <$> parts) →
  gatherv_place parts (length <$> parts) displ buf p
  = (Returns (take displ buf ++ concat parts), p).
Proof.
  revert displ buf. induction parts as [|part parts IH]; intros displ buf Hlen.
  - simpl in *. rewrite app_nil_r, take_ge by lia. done.
  - csimpl in *. rewrite decide_True by lia.
    rewrite IH.
    + unfold write_at. rewrite app_assoc.
      rewrite take_app_length' by (rewrite length_app, length_take; lia).
      by rewrite <- app_assoc.
    + unfold write_at. rewrite !length_app, length_take, length_drop. lia.
Qed.

Lemma gather_in_root_blocked net (d : array) root p :
  net_allgather net = None →
  gather_in_root net (Some d) root p = (Blocks, log [EvAllgather (size (elements d))] p).
Proof. intros H. unfold gather_in_root, allgather. run_M. by rewrite H. Qed.

(** An array that is not contiguous: the call joins the exchange of the
    sizes and raises when it hands the array to [Gatherv]. *)
Lemma gather_in_root_strided net (d : array) root p sizes :
  net_allgather net = Some sizes → buffer d = None →
  gather_in_root net (Some d) root p
  = (Raises BufferError, log [EvAllgather (size (elements d))] p).
Proof.
  intros H Hb. unfold gather_in_root, allgather, Gatherv. run_M. rewrite H. simpl.
  by rewrite Hb.
Qed.

Lemma gather_in_root_run net (d : array) memory root p sizes :
  net_allgather net = Some sizes → buffer d = Some memory →
  gather_in_root net (Some d) root p =
  if decide (Get_rank (comm (self p)) = root) then
    match net_gatherv net with
    | Some parts =>
        (buf ← gatherv_place parts sizes 0 (np_empty (sum_list sizes));
         mret (Some buf, sizes))
          (log [EvAllgather (size (elements d)); EvGatherv memory sizes root] p)
    | None =>
        (Blocks, log [EvAllgather (size (elements d)); EvGatherv memory sizes root] p)
    end
  else (Returns (None, sizes),
        log [EvAllgather (size (elements d)); EvGatherv memory sizes root] p).
Proof.
  intros H Hb. unfold gather_in_root, allgather, Gatherv. run_M. rewrite H. simpl.
  rewrite Hb. run_M.
  case_decide; simpl.
  - destruct (net_gatherv net) as [parts|]; simpl.
    + unfold log; simpl. rewrite <- app_assoc. simpl.
      by destruct (gatherv_place _ _ _ _ _) as [[?|?|] ?].
    + unfold log; simpl. by rewrite <- app_assoc.
  - unfold log; simpl. by rewrite <- app_assoc.
Qed.

Lemma gather_in_root_events net (d : array) memory root p sizes :
  net_allgather net = Some sizes → buffer d = Some memory →
  events_of (gather_in_root net (Some d) root) p
  = [EvAllgather (size (elements d)); EvGatherv memory sizes root].
Proof.
  intros H Hb. destruct (gather_in_root net (Some d) root p) as [o p'] eqn:Hrun.
  eapply events_of_log; [exact Hrun|].
  rewrite (gather_in_root_run _ _ _ _ _ _ H Hb) in Hrun.
  case_decide.
  - destruct (net_gatherv net) as [parts|].
    + rewrite bind_run in Hrun.
      pose proof (gatherv_place_frame parts sizes 0 (np_empty (sum_list sizes))
        (log [EvAllgather (size (elements d)); EvGatherv memory sizes root] p)) as Hf.
      destruct (gatherv_place _ _ _ _ _) as [[b|e|] q]; simpl in *; subst q;
        by injection Hrun as <- <-.
    + by injection Hrun as <- <-.
  - by injection Hrun as <- <-.
Qed.

(** Every rank that passes an array joins the exchange of the sizes, whatever
    the layout of the array. *)
Lemma gather_net_sizes w (ds : list array) root :
  length ds = length w →
  net_allgather (gather_net (zip w (Some <$> ds)) root)
  = Some ((λ d, size (elements d)) <$> ds).
Proof.
  intros Hlen. unfold gather_net. simpl.
  apply mapM_Some_2, Forall2_same_length_lookup_2.
  - rewrite length_zip_with, !length_fmap. lia.
  - intros i c n Hc Hn. apply lookup_calls_inv in Hc as [Hp Hd].
    rewrite list_lookup_fmap in Hd. rewrite list_lookup_fmap in Hn.
    destruct (ds !! i) as [d|]; [|done]. simpl in *.
    injection Hd as Hd. injection Hn as <-. rewrite <- Hd.
    erewrite events_of_log; [|by apply gather_in_root_blocked|by simpl]. done.
Qed.

Lemma gather_net_valid w (ds : list array) root :
  length ds = length w → Forall contiguous ds →
  net_allgather (gather_net (zip w (Some <$> ds)) root)
  = Some ((λ d, size (elements d)) <$> ds) ∧
  net_gatherv (gather_net (zip w (Some <$> ds)) root) = Some (memory_of <$> ds).
Proof.
  intros Hlen Hc. split; [by apply gather_net_sizes|].
  pose proof (gather_net_sizes w ds root Hlen) as Hsizes.
  unfold gather_net in *. simpl in *. rewrite Hsizes.
  apply mapM_Some_2, Forall2_same_length_lookup_2.
  - rewrite length_zip_with, !length_fmap. lia.
  - intros i c d Hcall Hd'. apply lookup_calls_inv in Hcall as [Hp Hd].
    rewrite list_lookup_fmap in Hd. rewrite list_lookup_fmap in Hd'.
    destruct (ds !! i) as [a|] eqn:Ha; [|done]. simpl in *.
    injection Hd as Hd. injection Hd' as <-. rewrite <- Hd.
    rewrite Forall_forall in Hc.
    destruct (Hc a) as (memory & Hb & _); [by eapply list_elem_of_lookup_2|].
    rewrite (gather_in_root_events _ _ memory _ _ ((λ d, size (elements d)) <$> ds));
      [|done|done].
    unfold memory_of. by rewrite Hb.
Qed.

Lemma length_concat_sizes (ds : list ndarray) : length (concat ds) = sum_list (size <$> ds).
Proof. induction ds as [|d ds IH]; [done|]. csimpl. rewrite length_app, IH. done. Qed.

Lemma contiguous_sizes (ds : list array) :
  Forall contiguous ds →
  (λ d, size (elements d)) <$> ds = length <$> (memory_of <$> ds).
Proof.
  intros Hc. rewrite <- list_fmap_compose. apply Forall_fmap_ext_1.
  eapply Forall_impl; [exact Hc|]. intros a (memory & Hb & Hl). simpl.
  unfold memory_of. by rewrite Hb.
Qed.

Lemma gather_round_lookup w (ds : list array) root rank p d :
  wf_world w → length ds = length w → Forall contiguous ds →
  w !! rank = Some p → ds !! rank = Some d →
  gather_round w (Some <$> ds) root !! rank
  = Some (Returns (if decide (rank = root) then Some (concat (memory_of <$> ds)) else None,
                   (λ d, size (elements d)) <$> ds),
          log [EvAllgather (size (elements d));
               EvGatherv (memory_of d) ((λ d, size (elements d)) <$> ds) root] p).
Proof.
  intros Hwf Hlen Hc Hp Hd. unfold gather_round. rewrite list_lookup_fmap.
  rewrite (lookup_calls w (Some <$> ds) rank p (Some d)); [|done|by rewrite list_lookup_fmap, Hd].
  simpl. f_equal.
  destruct (gather_net_valid w ds root Hlen Hc) as [Hsizes Hparts].
  pose proof Hc as Hc'. rewrite Forall_forall in Hc'.
  destruct (Hc' d) as (memory & Hb & _); [by eapply list_elem_of_lookup_2|].
  rewrite (gather_in_root_run _ _ memory _ _ _ Hsizes Hb), Hparts.
  unfold memory_of at 3. rewrite Hb. simpl.
  destruct (Hwf _ _ Hp) as (-> & _ & _). simpl.
  case_decide; [|done].
  rewrite bind_run.
  rewrite (contiguous_sizes ds Hc) at 1 2.
  rewrite gatherv_place_concat; [by rewrite <- (contiguous_sizes ds Hc)|].
  by rewrite length_np_empty.
Qed.

Lemma gather_all_round w (ds : list ndarray) root :
  gather_all w (Some <$> ds) root = gather_round w (Some <$> (flat <$> ds)) root.
Proof. unfold gather_all. by rewrite <- !list_fmap_compose. Qed.

Lemma flat_contiguous (ds : list ndarray) : Forall contiguous (flat <$> ds).
Proof. apply Forall_fmap, Forall_forall. intros a _. by exists a. Qed.

Lemma memory_of_flat (ds : list ndarray) : memory_of <$> (flat <$> ds) = ds.
Proof. rewrite <- list_fmap_compose. apply list_fmap_id. Qed.

Lemma gather_all_lookup w (ds : list ndarray) root rank p d :
  wf_world w → length ds = length w → w !! rank = Some p → ds !! rank = Some d →
  gather_all w (Some <$> ds) root !! rank
  = Some (Returns (if decide (rank = root) then Some (concat ds) else None, size <$> ds),
          log [EvAllgather (size d); EvGatherv d (size <$> ds) root] p).
Proof.
  intros Hwf Hlen Hp Hd. rewrite gather_all_round.
  rewrite (gather_round_lookup w (flat <$> ds) root rank p (flat d));
    [|done|by rewrite length_fmap|apply flat_contiguous|done|by rewrite list_lookup_fmap, Hd].
  rewrite memory_of_flat. by rewrite <- list_fmap_compose.
Qed.

(** The root never gets the part of a rank whose array cannot be exported. *)
Lemma gather_net_incomplete w (ds : list array) root r a :
  length ds = length w → ds !! r = Some a → buffer a = None →
  net_gatherv (gather_net (zip w (Some <$> ds)) root) = None.
Proof.
  intros Hlen Ha Hb.
  pose proof (gather_net_sizes w ds root Hlen) as Hsizes.
  unfold gather_net in *. simpl in *. rewrite Hsizes.
  destruct (lookup_lt_is_Some_2 w r) as [p Hp].
  { rewrite <- Hlen. by eapply lookup_lt_Some. }
  apply mapM_None_2, Exists_exists. exists (p, Some a). split.
  - eapply list_elem_of_lookup_2. apply lookup_calls; [done|].
    by rewrite list_lookup_fmap, Ha.
  - simpl.
    by rewrite (events_of_log _ _ _ _ [EvAllgather (size (elements a))]
                  (gather_in_root_strided
                     (after_allgather (Some ((λ d, size (elements d)) <$> ds)))
                     a root p ((λ d, size (elements d)) <$> ds) eq_refl Hb)).
Qed.

(** C5 (as the code has it).  [gather_in_root] passes its array to
    [Gatherv] as it is, without the [.flatten()] that the two other methods
    apply.  In a "gather" round where every rank passes an array:
    - when all the arrays are contiguous, every rank returns a pair
      (buffer, counts): the counts have one entry per rank, entry r being
      the element count of the array rank r passed; the buffer is [None] at
      every rank but the root, and at the root it is the buffer allocated
      in the call, of the length of the sum of the counts;
    - a rank whose array is not contiguous joins the exchange of the sizes
      and then raises BufferError instead of returning a pair;
    - the root then waits for ever for the part of that rank. *)
Theorem gather_returns_buffer_and_counts w (ds : list array) root rank p d :
  wf_world w → length ds = length w → root < length w →
  w !! rank = Some p → ds !! rank = Some d →
  (Forall contiguous ds →
   ∃ recvbuf counts p',
     gather_round w (Some <$> ds) root !! rank = Some (Returns (recvbuf, counts), p') ∧
     (rank ≠ root → recvbuf = None) ∧
     (rank = root → ∃ buf, recvbuf = Some buf ∧ length buf = sum_list counts) ∧
     length counts = length w ∧
     (∀ r d, ds !! r = Some d → counts !! r = Some (size (elements d)))) ∧
  (buffer d = None →
   gather_round w (Some <$> ds) root !! rank
   = Some (Raises BufferError, log [EvAllgather (size (elements d))] p)) ∧
  (rank = root → contiguous d → (∃ r a, ds !! r = Some a ∧ buffer a = None) →
   ∃ p', gather_round w (Some <$> ds) root !! rank = Some (Blocks, p')).
Proof.
  intros Hwf Hlen Hroot Hp Hd.
  assert (Hcall : gather_round w (Some <$> ds) root !! rank
    = Some (gather_in_root (gather_net (zip w (Some <$> ds)) root) (Some d) root p)).
  { unfold gather_round. rewrite list_lookup_fmap.
    by rewrite (lookup_calls w (Some <$> ds) rank p (Some d))
      by (done || by rewrite list_lookup_fmap, Hd). }
  pose proof (gather_net_sizes w ds root Hlen) as Hsizes.
  destruct (Hwf _ _ Hp) as (Hcomm & _ & _).
  split_and!.
  - intros Hall.
    rewrite (gather_round_lookup _ _ _ _ _ _ Hwf Hlen Hall Hp Hd).
    eexists _, _, _. split; [done|]. split_and!.
    + intros Hne. by rewrite decide_False.
    + intros Heq. rewrite decide_True by done. eexists. split; [done|].
      rewrite (contiguous_sizes ds Hall). apply length_concat_sizes.
    + by rewrite length_fmap.
    + intros r a Ha. by rewrite list_lookup_fmap, Ha.
  - intros Hb. rewrite Hcall. f_equal. by apply (gather_in_root_strided _ _ _ _ _ Hsizes).
  - intros Heq (memory & Hb & Hm) (r & a & Ha & Hba).
    rewrite Hcall, (gather_in_root_run _ _ memory _ _ _ Hsizes Hb).
    rewrite (gather_net_incomplete _ _ _ _ _ Hlen Ha Hba).
    rewrite Hcomm. simpl. rewrite decide_True by done. eauto.
Qed.


(** ** The "scatter" round *)

Lemma Scatterv_run net sendbuf sendcounts recvbuf root p :
  Scatterv net sendbuf sendcounts recvbuf root p =
  if decide (size recvbuf = 0)
  then (Returns recvbuf, log [EvScatterv sendbuf sendcounts (size recvbuf) root] p)
  else
    match net_scatterv net with
    | Some part =>
        if decide (length part ≤ size recvbuf)
        then (Returns (part ++ drop (length part) recvbuf),
              log [EvScatterv sendbuf sendcounts (size recvbuf) root] p)
        else (Raises MPI_ERR_TRUNCATE,
              log [EvScatterv sendbuf sendcounts (size recvbuf) root] p)
    | None => (Blocks, log [EvScatterv sendbuf sendcounts (size recvbuf) root] p)
    end.
Proof.
  unfold Scatterv. run_M. case_decide; [done|].
  destruct (net_scatterv net); [|done]. by case_decide.
Qed.

(** Whatever comes of it, the call is made. *)
Lemma Scatterv_events net sendbuf sendcounts recvbuf root p :
  events_of (Scatterv net sendbuf sendcounts recvbuf root) p
  = [EvScatterv sendbuf sendcounts (size recvbuf) root].
Proof.
  destruct (Scatterv net sendbuf sendcounts recvbuf root p) as [o p'] eqn:Hrun.
  eapply events_of_log; [exact Hrun|].
  rewrite Scatterv_run in Hrun. repeat case_match; by injection Hrun as _ <-.
Qed.

(** A slice of at most the size of the receive buffer is what the call
    returns, followed by the rest of the buffer. *)
Lemma Scatterv_fits net sendbuf sendcounts (recvbuf part : ndarray) root p :
  net_scatterv net = Some part → length part ≤ size recvbuf →
  Scatterv net sendbuf sendcounts recvbuf root p
  = (Returns (part ++ drop (length part) recvbuf),
     log [EvScatterv sendbuf sendcounts (size recvbuf) root] p).
Proof.
  intros Hnet Hfit. rewrite Scatterv_run, Hnet. case_decide as Hz.
  - unfold size in *. assert (length part = 0) as Hp by lia.
    apply nil_length_inv in Hp. apply nil_length_inv in Hz. by subst.
  - by rewrite decide_True.
Qed.

Lemma scatter_from_root_counts net data (counts : list nat) root p n :
  counts !! Get_rank (comm (self p)) = Some n →
  (Get_rank (comm (self p)) = root → is_Some data) →
  scatter_from_root net data (Some counts) root p
  = Scatterv net (if decide (Get_rank (comm (self p)) = root) then data else None)
             counts (np_ones_times_minus_hundred n) root p.
Proof.
  intros Hn Hdata. unfold scatter_from_root. run_M.
  case_decide as Hroot.
  - destruct (Hdata Hroot) as [d ->]. simpl. by rewrite Hn.
  - simpl. by rewrite Hn.
Qed.

Lemma sum_list_take_lookup (counts : list nat) i c :
  counts !! i = Some c → sum_list (take i counts) + c ≤ sum_list counts.
Proof.
  intros Hc.
  assert (Hs : sum_list counts = sum_list (take i counts ++ c :: drop (S i) counts))
    by (by rewrite take_drop_middle).
  rewrite Hs, sum_list_with_app. simpl. lia.
Qed.

Lemma length_scatterv_part (buffer : ndarray) counts me :
  sum_list counts ≤ length buffer →
  length (scatterv_part buffer counts me) = counts !!! me.
Proof.
  intros Hsum. unfold scatterv_part. rewrite length_take, length_drop.
  rewrite list_lookup_total_alt.
  destruct (counts !! me) as [c|] eqn:Hc; simpl; [|done].
  pose proof (sum_list_take_lookup _ _ _ Hc). lia.
Qed.

Lemma scatterv_part_app (buffer : ndarray) counts c r :
  r < length counts →
  scatterv_part buffer (counts ++ [c]) r = scatterv_part buffer counts r.
Proof.
  intros Hr. unfold scatterv_part.
  rewrite lookup_total_app_l by done. by rewrite take_app_le by lia.
Qed.

Lemma concat_scatterv_parts (buffer : ndarray) counts :
  concat (scatterv_part buffer counts <$> seq 0 (length counts))
  = take (sum_list counts) buffer.
Proof.
  induction counts as [|c counts IH] using rev_ind; [by rewrite take_0|].
  rewrite length_app. simpl. rewrite seq_app, fmap_app, concat_app. simpl.
  rewrite app_nil_r.
  rewrite (list_fmap_ext _ (scatterv_part buffer counts)), IH.
  - unfold scatterv_part. rewrite take_app_length.
    rewrite lookup_total_app_r by done. rewrite Nat.sub_diag. simpl.
    rewrite take_take_drop. rewrite sum_list_with_app; simpl; by rewrite Nat.add_0_r.
  - intros i r Hr. apply scatterv_part_app.
    apply lookup_seq in Hr as [-> ?]. lia.
Qed.


Lemma scatter_net_valid w args root p_root (buffer : ndarray) counts n me :
  wf_world w → w !! root = Some p_root →
  args !! root = Some (Some buffer, Some counts) → counts !! root = Some n →
  net_scatterv (scatter_net (zip w args) root me) = Some (scatterv_part buffer counts me).
Proof.
  intros Hwf Hp Ha Hn. unfold scatter_net. simpl.
  rewrite (lookup_calls _ _ _ _ _ Hp Ha). simpl.
  destruct (Hwf _ _ Hp) as (Hc & _ & _).
  assert (Hrank : Get_rank (comm (self p_root)) = root) by (by rewrite Hc).
  assert (Hev : events_of (scatter_from_root silent (Some buffer) (Some counts) root) p_root
                = [EvScatterv (Some buffer) counts n root]).
  { pose proof (Scatterv_events silent (Some buffer) counts
                  (np_ones_times_minus_hundred n) root p_root) as He.
    unfold events_of in *.
    rewrite (scatter_from_root_counts _ _ _ _ _ n); [|by rewrite Hrank|by eauto].
    rewrite Hrank, decide_True by done. rewrite He.
    unfold size, np_ones_times_minus_hundred. by rewrite length_replicate. }
  by rewrite Hev.
Qed.

Lemma scatter_all_lookup w args root (buffer : ndarray) counts r p data n :
  wf_world w → root < length w → length args = length w →
  sum_list counts ≤ length buffer →
  args !! root = Some (Some buffer, Some counts) → is_Some (counts !! root) →
  w !! r = Some p → args !! r = Some (data, Some counts) → counts !! r = Some n →
  scatter_all w args root !! r
  = Some (Returns (scatterv_part buffer counts r),
          log [EvScatterv (if decide (r = root) then Some buffer else None) counts n root] p).
Proof.
  intros Hwf Hroot Hlen Hsum Haroot [nroot Hnroot] Hp Ha Hn.
  destruct (lookup_lt_is_Some_2 w root) as [p_root Hproot]; [done|].
  unfold scatter_all. rewrite list_lookup_imap, (lookup_calls _ _ _ _ _ Hp Ha). simpl.
  f_equal.
  destruct (Hwf _ _ Hp) as (Hc & _ & _).
  assert (Hrank : Get_rank (comm (self p)) = r) by (by rewrite Hc).
  rewrite (scatter_from_root_counts _ _ _ _ _ n); [|by rewrite Hrank|].
  - pose proof (length_scatterv_part buffer counts r Hsum) as Hpart.
    rewrite (list_lookup_total_correct _ _ _ Hn) in Hpart.
    assert (Hbuf : size (np_ones_times_minus_hundred n) = n) by apply length_replicate.
    rewrite (Scatterv_fits _ _ _ _ (scatterv_part buffer counts r));
      [|by eapply scatter_net_valid|by rewrite Hbuf, Hpart].
    rewrite Hbuf, Hpart.
    rewrite drop_ge by (apply Nat.eq_le_incl, Hbuf).
    rewrite app_nil_r, Hrank. do 3 f_equal.
    case_decide as Hr; [|done]. rewrite Hr, Haroot in Ha. by injection Ha as <-.
  - rewrite Hrank. intros Hr. rewrite Hr, Haroot in Ha. injection Ha as <-. eauto.
Qed.


Lemma length_scatter_all w args root :
  length args = length w → length (scatter_all w args root) = length w.
Proof. intros H. unfold scatter_all. rewrite length_imap, length_zip_with. lia. Qed.

(** C4.  Scatter, then gather.  The root holds a buffer of N elements and
    every rank passes the same count vector, one count per rank, summing to
    N.  Every rank returns from the scatter with its slice, and gathering
    the returned slices at the same root gives back, at the root, the
    original buffer element for element, together with the count vector. *)
Theorem scatter_then_gather w args (buffer : ndarray) counts root :
  wf_world w → root < length w → length args = length w → length counts = length w →
  sum_list counts = length buffer →
  args !! root = Some (Some buffer, Some counts) →
  (∀ r a, args !! r = Some a → a.2 = Some counts) →
  (∀ r, r < length w →
        ∃ p', scatter_all w args root !! r
              = Some (Returns (scatterv_part buffer counts r), p')) ∧
  ∃ p', gather_all (snd <$> scatter_all w args root)
                   (returned <$> scatter_all w args root) root !! root
        = Some (Returns (Some buffer, counts), p').
Proof.
  intros Hwf Hroot Hlen Hcounts Hsum Haroot Hall.
  set (outs := scatter_all w args root).
  assert (Hout : ∀ r, r < length w →
    ∃ p n, w !! r = Some p ∧
           outs !! r = Some (Returns (scatterv_part buffer counts r),
             log [EvScatterv (if decide (r = root) then Some buffer else None)
                             counts n root] p)).
  { intros r Hr.
    destruct (lookup_lt_is_Some_2 w r) as [p Hp]; [done|].
    destruct (lookup_lt_is_Some_2 args r) as [[da sc] Ha]; [lia|].
    destruct (lookup_lt_is_Some_2 counts r) as [n Hn]; [lia|].
    pose proof (Hall _ _ Ha) as Hsc. simpl in Hsc. subst sc.
    exists p, n. split; [done|].
    eapply scatter_all_lookup; try done; [lia|].
    apply lookup_lt_is_Some_2. lia. }
  split.
  { intros r Hr. destruct (Hout r Hr) as (p & n & _ & ->). eauto. }
  assert (Hlouts : length outs = length w) by (by apply length_scatter_all).
  assert (Hret : returned <$> outs
                 = Some <$> (scatterv_part buffer counts <$> seq 0 (length w))).
  { apply list_eq. intros i. rewrite !list_lookup_fmap.
    destruct (decide (i < length w)) as [Hi|Hi].
    - destruct (Hout i Hi) as (p & n & _ & ->). simpl.
      by rewrite lookup_seq_lt.
    - rewrite (lookup_ge_None_2 outs) by lia.
      rewrite lookup_seq_ge by lia. done. }
  assert (Hwf' : wf_world (snd <$> outs)).
  { intros r p' Hp'. rewrite length_fmap, Hlouts.
    assert (Hr : r < length w).
    { apply lookup_lt_Some in Hp'. by rewrite length_fmap, Hlouts in Hp'. }
    destruct (Hout r Hr) as (p & n & Hp & Ho).
    rewrite list_lookup_fmap, Ho in Hp'. injection Hp' as <-.
    exact (Hwf _ _ Hp). }
  destruct (Hout root Hroot) as (p & n & Hp & Ho).
  rewrite Hret. eexists.
  rewrite (gather_all_lookup (snd <$> outs)
             (scatterv_part buffer counts <$> seq 0 (length w)) root root
             (log [EvScatterv (if decide (root = root) then Some buffer else None)
                              counts n root] p)
             (scatterv_part buffer counts root) Hwf').
  - rewrite decide_True by done. do 3 f_equal. f_equal; [f_equal|].
    + rewrite <- Hcounts, concat_scatterv_parts. by rewrite take_ge by lia.
    + apply list_eq. intros i. rewrite !list_lookup_fmap.
      destruct (decide (i < length w)) as [Hi|Hi].
      * rewrite lookup_seq_lt by done. simpl.
        unfold size. rewrite length_scatterv_part by lia.
        destruct (lookup_lt_is_Some_2 counts i) as [c Hc]; [lia|].
        by rewrite Hc, (list_lookup_total_correct _ _ _ Hc).
      * rewrite lookup_seq_ge by lia. simpl.
        by rewrite lookup_ge_None_2 by lia.
  - by rewrite !length_fmap, length_seq, Hlouts.
  - by rewrite list_lookup_fmap, Ho.
  - by rewrite list_lookup_fmap, lookup_seq_lt.
Qed.


(** C10.  [gather_in_root] and [scatter_from_root], called directly or
    through [route_data] under the keywords "gather" and "scatter", leave
    the Router object (and with it [destination_count] and [source_count])
    as it was, whatever the arguments and whatever the substrate delivers;
    a "distribute" call does write to the scratch vectors. *)
Theorem gather_scatter_leave_scratch_vectors net view data sendcounts root kw p :
  self (gather_in_root net view root p).2 = self p ∧
  self (scatter_from_root net data sendcounts root p).2 = self p ∧
  self (route_data net "gather" kw p).2 = self p ∧
  self (route_data net "scatter" kw p).2 = self p ∧
  destination_count
    (self (send_recv net [0] (DataArray [zero]) 0%Z (start_proc 1 0)).2)
    ≠ destination_count (self (start_proc 1 0)).
Proof.
  split_and!.
  - apply gather_in_root_self.
  - apply scatter_from_root_self.
  - unfold route_data. rewrite router_factory_gather. apply call_gather_self.
  - unfold route_data. rewrite router_factory_scatter. apply call_scatter_self.
  - assert (Hv : valid_payloads 1 [0] (DataArray [zero])).
    { split; [|done]. repeat constructor. }
    assert (Hdc : length (destination_count (self (start_proc 1 0))) = 1) by done.
    destruct (net_alltoall net) as [column|] eqn:Hnet.
    + destruct (send_recv net [0] (DataArray [zero]) 0%Z (start_proc 1 0))
        as [o p'] eqn:Hrun.
      destruct (send_recv_inv 1 _ _ _ _ _ _ _ _ Hdc Hv Hnet Hrun) as (Hs & _).
      simpl. by rewrite Hs.
    + by rewrite (send_recv_blocked 1).
Qed.


(** ** A freshly started group *)

Lemma start_wf P : wf_world (start P).
Proof.
  intros rank p Hp. unfold start in *. rewrite length_fmap, length_seq.
  rewrite list_lookup_fmap in Hp.
  destruct (seq 0 P !! rank) as [r|] eqn:Hr; [|done].
  apply lookup_seq in Hr as [-> _]. injection Hp as <-.
  unfold wf_proc, start_proc, Router_init. simpl.
  by rewrite !length_replicate.
Qed.

Lemma start_quiet P args : quiet (start P) args.
Proof.
  intros me p s Hp _. unfold start in Hp. rewrite list_lookup_fmap in Hp.
  destruct (seq 0 P !! me); [|done]. by injection Hp as <-.
Qed.

Lemma one_tag_const t args : Forall (λ a, tag a = t) args → one_tag args.
Proof.
  rewrite Forall_forall. intros H a1 a2 H1 H2. by rewrite (H a1), (H a2).
Qed.


(** ** Scatter without a count vector, at the root *)

Lemma scatter_from_root_default net (d : ndarray) root p :
  Get_rank (comm (self p)) = root →
  scatter_from_root net (Some d) None root p
  = scatter_from_root net (Some d)
      (Some (replicate (Get_size (comm (self p))) (size d `div` Get_size (comm (self p)))))
      root p.
Proof. intros Hr. unfold scatter_from_root. run_M. by rewrite !decide_True. Qed.

Lemma scatterv_part_equal (d : ndarray) P c r :
  r < P → scatterv_part d (replicate P c) r = take c (drop (r * c) d).
Proof.
  intros Hr. unfold scatterv_part.
  rewrite lookup_total_replicate_2 by done.
  rewrite take_replicate, Nat.min_l by lia. by rewrite sum_list_replicate.
Qed.

(** At the root the equal division is in place: in a round where the root
    passes its buffer and no count vector, the root returns the slice of
    floor(N / P) elements that starts at its own offset, whatever the other
    ranks pass. *)
Lemma scatter_without_counts_at_root w args root p (d : ndarray) :
  wf_world w → w !! root = Some p → args !! root = Some (Some d, None) →
  ∃ p', scatter_all w args root !! root
        = Some (Returns (take (size d `div` length w)
                              (drop (root * (size d `div` length w)) d)), p') ∧
        length (take (size d `div` length w) (drop (root * (size d `div` length w)) d))
        = size d `div` length w.
Proof.
  intros Hwf Hp Ha.
  destruct (Hwf _ _ Hp) as (Hc & _ & _).
  assert (Hrank : Get_rank (comm (self p)) = root) by (by rewrite Hc).
  assert (Hsize : Get_size (comm (self p)) = length w) by (by rewrite Hc).
  assert (Hroot : root < length w) by (by eapply lookup_lt_Some).
  set (c := size d `div` length w).
  assert (Hfit : root * c + c ≤ length d).
  { assert (length w * c ≤ length d) by apply Nat.Div0.mul_div_le. nia. }
  assert (Hlen : length (take c (drop (root * c) d)) = c).
  { rewrite length_take, length_drop. lia. }
  assert (Hrun : ∀ net, scatter_from_root net (Some d) None root p
      = Scatterv net (Some d) (replicate (length w) c)
                 (np_ones_times_minus_hundred c) root p).
  { intros net. rewrite scatter_from_root_default by done. rewrite Hsize.
    rewrite (scatter_from_root_counts _ _ _ _ _ c).
    - by rewrite Hrank, decide_True.
    - rewrite Hrank. by apply lookup_replicate_2.
    - eauto. }
  assert (Hnet : net_scatterv (scatter_net (zip w args) root root)
                 = Some (take c (drop (root * c) d))).
  { unfold scatter_net. simpl. rewrite (lookup_calls _ _ _ _ _ Hp Ha). simpl.
    pose proof (Scatterv_events silent (Some d) (replicate (length w) c)
                  (np_ones_times_minus_hundred c) root p) as He.
    unfold events_of in *. rewrite Hrun, He. simpl.
    by rewrite scatterv_part_equal. }
  eexists. split; [|exact Hlen].
  unfold scatter_all. rewrite list_lookup_imap, (lookup_calls _ _ _ _ _ Hp Ha). simpl.
  assert (Hbuf : size (np_ones_times_minus_hundred c) = c)
    by apply length_replicate.
  rewrite Hrun, (Scatterv_fits _ _ _ _ (take c (drop (root * c) d)));
    [|done|by rewrite Hbuf, Hlen].
  rewrite Hlen.
  rewrite (drop_ge (np_ones_times_minus_hundred c)) by (apply Nat.eq_le_incl, Hbuf).
  by rewrite app_nil_r.
Qed.


(** * Further properties of the Router *)

(** ** What a receive loop delivers *)

Lemma received_exact (payload buf : list elt) :
  length payload = length buf → payload ++ drop (length payload) buf = payload.
Proof. intros H. rewrite drop_ge by lia. apply app_nil_r. Qed.

(** Every posted receive finds exactly its message, of the size of its
    buffer: the loop returns, each buffer holds the payload of its message,
    and nothing from the sources received from stays in the queue. *)
Lemma wait_loop_delivers reqs recvbuff p :
  NoDup (req_source <$> reqs) → NoDup (req_index <$> reqs) →
  (∀ r, r ∈ reqs →
        ∃ m buf, pending (req_source r) (mailbox p) = [m] ∧ msg_tag m = req_tag r ∧
                 recvbuff !! req_index r = Some buf ∧
                 length (msg_payload m) = length buf) →
  ∃ b p', for_each_acc reqs wait_recv recvbuff p = (Returns b, p') ∧
          (∀ r, r ∈ reqs →
                ∃ m, pending (req_source r) (mailbox p) = [m] ∧
                     b !! req_index r = Some (msg_payload m)) ∧
          (∀ i, i ∉ req_index <$> reqs → b !! i = recvbuff !! i) ∧
          (∀ s, s ∈ req_source <$> reqs → pending s (mailbox p') = []) ∧
          (∀ s, s ∉ req_source <$> reqs → pending s (mailbox p') = pending s (mailbox p)).
Proof.
  revert recvbuff p. induction reqs as [|r rs IH]; intros recvbuff p Hnd Hni Hall.
  - simpl. exists recvbuff, p. split_and!; try done.
    + intros r Hr. by apply elem_of_nil in Hr.
    + intros s Hs. by apply elem_of_nil in Hs.
  - rewrite fmap_cons in Hnd, Hni.
    apply NoDup_cons in Hnd as [Hr Hnd]. apply NoDup_cons in Hni as [Hi Hni].
    destruct (Hall r) as (m & buf & Hm & Htag & Hbuf & Hlen); [by left|].
    destruct (take_message_single _ _ _ _ Hm Htag) as (q' & Htake & Hnone & Hother).
    assert (Hw : wait_recv recvbuff r p
      = (Returns (<[req_index r := msg_payload m]> recvbuff),
         set_mailbox q' (log [EvWaitRecv (req_source r)] p))).
    { unfold wait_recv, list_getitem. run_M. rewrite Htake; simpl. rewrite Hbuf; simpl.
      rewrite decide_True by (unfold size; lia). by rewrite received_exact. }
    simpl. rewrite (bind_returns _ _ _ _ _ Hw).
    destruct (IH (<[req_index r := msg_payload m]> recvbuff)
                 (set_mailbox q' (log [EvWaitRecv (req_source r)] p)) Hnd Hni)
      as (b & p' & Hrun & Hgot & Hkept & Hdone & Hrest).
    { intros r' Hr'.
      destruct (Hall r') as (m' & buf' & Hm' & Htag' & Hbuf' & Hlen'); [by right|].
      exists m', buf'. simpl. split_and!; try done.
      - rewrite Hother; [done|]. intros Heq. apply Hr. rewrite <- Heq.
        by apply list_elem_of_fmap_2.
      - rewrite list_lookup_insert_ne; [done|]. intros Heq. apply Hi. rewrite Heq.
        by apply list_elem_of_fmap_2. }
    exists b, p'. split_and!; [done| | | |].
    + intros r' Hr'. apply elem_of_cons in Hr' as [->|Hr'].
      * exists m. split; [done|]. rewrite (Hkept _ Hi).
        apply list_lookup_insert_eq. by eapply lookup_lt_Some.
      * destruct (Hgot r' Hr') as (m' & Hm' & Hb'). exists m'. split; [|done].
        simpl in Hm'. rewrite Hother in Hm'; [done|].
        intros Heq. apply Hr. rewrite <- Heq. by apply list_elem_of_fmap_2.
    + intros i Hnot. apply not_elem_of_cons in Hnot as [Hne Hnot].
      rewrite (Hkept _ Hnot). by apply list_lookup_insert_ne.
    + intros s Hs. apply elem_of_cons in Hs as [->|Hs]; [|by apply Hdone].
      destruct (decide (req_source r ∈ req_source <$> rs)) as [Hin|Hnotin]; [done|].
      by rewrite (Hrest _ Hnotin).
    + intros s Hs. apply not_elem_of_cons in Hs as [Hne Hs].
      rewrite (Hrest _ Hs). simpl. by apply Hother.
Qed.

Lemma requests_indices tag sources :
  req_index <$> requests tag sources = seq 0 (length sources).
Proof.
  unfold requests, enumerate. rewrite <- list_fmap_compose.
  change (fst <$> zip (seq 0 (length sources)) sources = seq 0 (length sources)).
  apply fst_zip. by rewrite length_seq.
Qed.


(** ** What a "distribute" round delivers *)

(** The messages from rank [s] among those that reach [me] in a round. *)
Lemma pending_arrivals w args me s :
  wf_world w → length args = length w → Forall (valid_call (length w)) args →
  pending s (net_arrivals (distribute_net (zip w args) me))
  = match args !! s with
    | Some a_s => outgoing (tag a_s) s me (payloads (destination a_s) (data a_s))
    | None => []
    end.
Proof.
  intros Hwf Hlen Hvalid. rewrite distribute_net_arrivals by done.
  change s with (0 + s) at 1.
  by rewrite pending_concat_imap by (intros ? ? ? ?%outgoing_source; done).
Qed.

(** With distinct destinations, the message an active source has for [me]. *)
Lemma active_source_message w args me p s :
  wf_world w → length args = length w → Forall (valid_call (length w)) args →
  Forall (λ a, NoDup (destination a)) args →
  quiet w args → w !! me = Some p →
  column_of (length w) args me !!! s ≠ 0 →
  ∃ a_s x,
    args !! s = Some a_s ∧
    filter (λ y, y.1 = me) (payloads (destination a_s) (data a_s)) = [(me, x)] ∧
    size x = column_of (length w) args me !!! s ∧
    pending s (mailbox p ++ net_arrivals (distribute_net (zip w args) me))
    = [ {| msg_source := s; msg_tag := tag a_s; msg_payload := flatten x |} ].
Proof.
  intros Hwf Hlen Hvalid Hnd Hquiet Hp Hact.
  destruct (column_of_nonzero _ _ _ _ Hact) as [a_s Has].
  pose proof Hvalid as Hvalid'. rewrite Forall_forall in Hvalid', Hnd.
  assert (Hvs : valid_call (length w) a_s) by (by eapply Hvalid', list_elem_of_lookup_2).
  assert (Hnds : NoDup (destination a_s)) by (by eapply Hnd, list_elem_of_lookup_2).
  pose proof (payloads_destinations _ _ _ Hvs) as Hfst.
  pose proof Hact as Hact'. rewrite (column_of_lookup _ _ _ _ _ Has) in Hact'.
  destruct (counts_of_NoDup (length w) (payloads (destination a_s) (data a_s)) me)
    as [[_ Hz]|(x & Hx & Hsize)]; [by rewrite Hfst|rewrite Hfst; apply Hvs|done|].
  exists a_s, x. split_and!; [done|done| |].
  - by rewrite (column_of_lookup _ _ _ _ _ Has).
  - rewrite pending_app, (Hquiet me p s Hp Hact), pending_arrivals by done.
    rewrite Has. unfold outgoing. by rewrite Hx.
Qed.

Lemma lookup_receive_buffer column sources i s :
  sources !! i = Some s →
  receive_buffers column sources !! i = Some (np_zeros (column !!! s)).
Proof. intros Hs. unfold receive_buffers. by rewrite list_lookup_fmap, Hs. Qed.

Lemma distribute_all_delivers w args me p a :
  wf_world w → length args = length w → Forall (valid_call (length w)) args →
  Forall (λ a, NoDup (destination a)) args →
  one_tag args → quiet w args →
  w !! me = Some p → args !! me = Some a →
  ∃ b p',
    distribute_all w args !! me
    = Some (Returns (np_where_nonzero (column_of (length w) args me), b), p') ∧
    (∀ i s, np_where_nonzero (column_of (length w) args me) !! i = Some s →
            ∃ a_s x, args !! s = Some a_s ∧
                     filter (λ y, y.1 = me) (payloads (destination a_s) (data a_s))
                     = [(me, x)] ∧
                     b !! i = Some (flatten x)) ∧
    (∀ s, column_of (length w) args me !!! s ≠ 0 → pending s (mailbox p') = []) ∧
    (∀ s, column_of (length w) args me !!! s = 0 →
          pending s (mailbox p')
          = pending s (mailbox p ++ net_arrivals (distribute_net (zip w args) me))).
Proof.
  intros Hwf Hlen Hvalid Hnd Htag Hquiet Hp Ha.
  rewrite (distribute_all_lookup _ _ _ _ _ Hp Ha).
  destruct (Hwf _ _ Hp) as (_ & Hdc & _).
  assert (Hv : valid_call (length w) a).
  { rewrite Forall_forall in Hvalid. by eapply Hvalid, list_elem_of_lookup_2. }
  rewrite (send_recv_run (length w) _ _ _ _ _ (column_of (length w) args me));
    [|done|done|by apply distribute_net_alltoall].
  rewrite bind_run, complete_receives_run.
  set (column := column_of (length w) args me).
  set (sources := np_where_nonzero column).
  match goal with |- context [for_each_acc ?reqs wait_recv ?bufs ?q] =>
    destruct (wait_loop_delivers reqs bufs q) as (b & p' & Hrun & Hgot & _ & Hdone & Hrest)
  end.
  - rewrite requests_sources. apply np_where_nonzero_NoDup.
  - rewrite requests_indices. apply NoDup_seq.
  - intros r Hr. apply elem_of_requests in Hr as (i & s & Hs & ->). simpl.
    assert (Hact : column !!! s ≠ 0).
    { apply elem_of_np_where_nonzero. by eapply list_elem_of_lookup_2. }
    destruct (active_source_message _ _ _ _ _ Hwf Hlen Hvalid Hnd Hquiet Hp Hact)
      as (a_s & x & Has & Hx & Hsize & Hpend).
    eexists _, _. split_and!; [exact Hpend| |by apply lookup_receive_buffer|].
    + simpl. apply Htag; by eapply list_elem_of_lookup_2.
    + simpl. unfold np_zeros. rewrite length_replicate. exact Hsize.
  - rewrite Hrun. simpl. exists b, p'. split_and!; [done| | |].
    + intros i s Hs.
      assert (Hact : column !!! s ≠ 0).
      { apply elem_of_np_where_nonzero. by eapply list_elem_of_lookup_2. }
      destruct (active_source_message _ _ _ _ _ Hwf Hlen Hvalid Hnd Hquiet Hp Hact)
        as (a_s & x & Has & Hx & Hsize & Hpend).
      destruct (Hgot {| req_index := i; req_source := s; req_tag := tag a |})
        as (m & Hm & Hb).
      { unfold requests, enumerate. apply list_elem_of_fmap.
        exists (i, s). split; [done|]. apply list_elem_of_lookup. exists i.
        rewrite lookup_zip_with, lookup_seq_lt by (by eapply lookup_lt_Some).
        simpl. by rewrite Hs. }
      simpl in Hm, Hb.
      assert (Heq : [m] = [ {| msg_source := s; msg_tag := tag a_s;
                               msg_payload := flatten x |} ])
        by (rewrite <- Hm; exact Hpend).
      injection Heq as ->. by exists a_s, x.
    + intros s Hs. apply Hdone. rewrite requests_sources.
      by apply elem_of_np_where_nonzero.
    + intros s Hs. rewrite Hrest; [done|]. rewrite requests_sources.
      intros Hin. by apply elem_of_np_where_nonzero in Hin.
Qed.


(** With distinct destinations, what rank [s] announces for [me] is the
    size of the one payload it addresses to [me]. *)
Lemma column_of_payload w args me s a (x : ndarray) :
  Forall (valid_call (length w)) args → Forall (λ a, NoDup (destination a)) args →
  args !! s = Some a → (me, x) ∈ payloads (destination a) (data a) →
  filter (λ y, y.1 = me) (payloads (destination a) (data a)) = [(me, x)] ∧
  column_of (length w) args me !!! s = size x.
Proof.
  intros Hvalid Hnd Ha Hx. rewrite Forall_forall in Hvalid, Hnd.
  assert (Hv : valid_call (length w) a) by (by eapply Hvalid, list_elem_of_lookup_2).
  assert (Hn : NoDup (destination a)) by (by eapply Hnd, list_elem_of_lookup_2).
  pose proof (payloads_destinations _ _ _ Hv) as Hfst.
  rewrite (column_of_lookup _ _ _ _ _ Ha).
  assert (Hin : (me, x) ∈ filter (λ y, y.1 = me) (payloads (destination a) (data a)))
    by (by apply list_elem_of_filter).
  destruct (counts_of_NoDup (length w) (payloads (destination a) (data a)) me)
    as [[Hnone _]|(x' & Hone & Hsize)]; [by rewrite Hfst|rewrite Hfst; apply Hv| |].
  - rewrite Hnone in Hin. by apply elem_of_nil in Hin.
  - rewrite Hone in Hin. apply list_elem_of_singleton in Hin. injection Hin as ->.
    by rewrite Hone, Hsize.
Qed.

(** What a rank with elements for [me] sent is what [me] returns for it. *)
Lemma distribute_all_receives w args me s a (x : ndarray) :
  wf_world w → length args = length w → Forall (valid_call (length w)) args →
  Forall (λ a, NoDup (destination a)) args →
  one_tag args → quiet w args → me < length w →
  args !! s = Some a → (me, x) ∈ payloads (destination a) (data a) → size x ≠ 0 →
  ∃ sources b p' i,
    distribute_all w args !! me = Some (Returns (sources, b), p') ∧
    sources !! i = Some s ∧ b !! i = Some (flatten x).
Proof.
  intros Hwf Hlen Hvalid Hnd Htag Hquiet Hme Has Hx Hsize.
  destruct (lookup_lt_is_Some_2 w me) as [p Hp]; [done|].
  destruct (lookup_lt_is_Some_2 args me) as [a_me Ha]; [lia|].
  destruct (distribute_all_delivers _ _ _ _ _ Hwf Hlen Hvalid Hnd Htag Hquiet Hp Ha)
    as (b & p' & Hrun & Hgot & _).
  destruct (column_of_payload w _ _ _ _ _ Hvalid Hnd Has Hx) as [Hone Hcol].
  assert (Hs : s ∈ np_where_nonzero (column_of (length w) args me)).
  { apply elem_of_np_where_nonzero. by rewrite Hcol. }
  apply list_elem_of_lookup in Hs as [i Hi].
  destruct (Hgot i s Hi) as (a' & x' & Ha' & Hx' & Hb).
  rewrite Has in Ha'. injection Ha' as <-. rewrite Hone in Hx'. injection Hx' as <-.
  by eexists _, b, p', i.
Qed.

Lemma bind_send_events tag (x : ndarray) destination :
  ((λ dest, (dest, x)) <$> destination) ≫= send_events tag
  = destination ≫= (λ dest, [EvIsend dest tag (flatten x); EvWaitSend dest]).
Proof. induction destination as [|d ds IH]; [done|]. csimpl. by rewrite IH. Qed.

(** C6.  Broadcast mode.  (1) With a single array and destinations in
    range, the count fill sets the entry of every listed destination to the
    element count of the array.  (2) In a round of the whole group, replacing
    at any ranks the single array by the list that repeats it once per
    destination changes nothing: every rank returns the same sources and the
    same buffers, element for element, and is left in the same state.
    (3) The call sends the flattened array once to every listed
    destination, in the order of the list, each send followed by its wait.
    (4) In a round of valid calls with distinct destinations, one tag and
    nothing left over, every listed destination returns, and the buffer
    it returns for the sender holds the flattened array, element for
    element (when the array has elements), in the round with the array as
    in the round with the list of copies. *)
Theorem broadcast_is_list_of_copies w args args' :
  wf_world w → length args = length w →
  Forall2 (broadcast_or_copies (length w)) args args' →
  (∀ rank p a x,
     w !! rank = Some p → args !! rank = Some a → data a = DataArray x →
     Forall (λ dest, dest < length w) (destination a) →
     ∃ p', fill_destination_count (destination a) (DataArray x) p = (Returns tt, p') ∧
           ∀ dest, dest ∈ destination a →
                   destination_count (self p') !! dest = Some (size x)) ∧
  distribute_all w args = distribute_all w args' ∧
  (∀ rank p a x net column o p',
     w !! rank = Some p → args !! rank = Some a → data a = DataArray x →
     Forall (λ dest, dest < length w) (destination a) →
     net_alltoall net = Some column →
     send_recv net (destination a) (DataArray x) (tag a) p = (o, p') →
     ∃ n, trace p'
          = trace p
            ++ [EvAlltoall (counts_of (length w) ((λ dest, (dest, x)) <$> destination a))]
            ++ posted (tag a) column (np_where_nonzero column)
            ++ (destination a ≫=
                  (λ dest, [EvIsend dest (tag a) (flatten x); EvWaitSend dest]))
            ++ take n (awaited (np_where_nonzero column))) ∧
  (Forall (valid_call (length w)) args →
   Forall (λ a, NoDup (destination a)) args → one_tag args → quiet w args →
   ∀ rank a x dest,
     args !! rank = Some a → data a = DataArray x → dest ∈ destination a →
     size x ≠ 0 →
     ∃ sources recvbuff p' i,
       distribute_all w args !! dest = Some (Returns (sources, recvbuff), p') ∧
       distribute_all w args' !! dest = Some (Returns (sources, recvbuff), p') ∧
       sources !! i = Some rank ∧
       recvbuff !! i = Some (flatten x)).
Proof.
  intros Hwf Hlen H.
  assert (Hsame : distribute_all w args = distribute_all w args').
  { unfold distribute_all. apply distribute_all_ext. by apply broadcast_or_copies_calls. }
  split_and!.
  - intros rank p a x Hp Ha Hx Hin. destruct (Hwf _ _ Hp) as (_ & Hdc & _).
    eexists. split.
    + apply (fill_destination_count_run (length w)); [done|]. by split.
    + intros dest Hdest. simpl. unfold counts_of.
      apply list_elem_of_split_r in Hdest as (l1 & l2 & Hsplit & Hl2).
      rewrite Hsplit in Hin |- *.
      rewrite fmap_app, fmap_cons. apply write_counts_last.
      * rewrite <- list_fmap_compose. by rewrite list_fmap_id.
      * rewrite length_replicate. apply Forall_app in Hin as [_ Hin].
        by apply Forall_cons in Hin as [? _].
  - exact Hsame.
  - intros rank p a x net column o p' Hp Ha Hx Hin Hnet Hrun.
    destruct (Hwf _ _ Hp) as (_ & Hdc & _).
    assert (Hv : valid_payloads (length w) (destination a) (DataArray x)) by (by split).
    destruct (send_recv_inv (length w) _ _ _ _ _ _ _ _ Hdc Hv Hnet Hrun)
      as (_ & [n Ht] & _).
    exists n. rewrite Ht. simpl. by rewrite bind_send_events.
  - intros Hvalid Hnd Htag Hquiet rank a x dest Ha Hx Hdest Hsize.
    assert (Hva : valid_call (length w) a).
    { rewrite Forall_forall in Hvalid. by eapply Hvalid, list_elem_of_lookup_2. }
    assert (Hlt : dest < length w).
    { destruct Hva as [Hr _]. rewrite Forall_forall in Hr. by apply Hr. }
    destruct (distribute_all_receives w args dest rank a x)
      as (sources & b & p' & i & Hrun & Hs & Hb); try done.
    { rewrite Hx. simpl. apply list_elem_of_fmap. by exists dest. }
    exists sources, b, p', i. by rewrite <- Hsame.
Qed.

(** X1.  In a round where every rank passes pairwise distinct destinations
    in range, a payload for each, and the common tag, and where no message
    from an active source is left over, every rank returns what it was
    sent: every rank that passed a payload with elements for this rank is
    among the sources returned, with a buffer that holds that payload
    flattened, element for element; and every buffer returned is such a
    payload. *)
Theorem distribute_delivers_payloads w args me :
  wf_world w → length args = length w → Forall (valid_call (length w)) args →
  Forall (λ a, NoDup (destination a)) args →
  one_tag args →
  quiet w args →
  me < length w →
  ∃ sources recvbuff p',
    distribute_all w args !! me = Some (Returns (sources, recvbuff), p') ∧
    (∀ s a x, args !! s = Some a → (me, x) ∈ payloads (destination a) (data a) →
              size x ≠ 0 →
              ∃ i, sources !! i = Some s ∧ recvbuff !! i = Some (flatten x)) ∧
    (∀ i s, sources !! i = Some s →
            ∃ a x, args !! s = Some a ∧
                   (me, x) ∈ payloads (destination a) (data a) ∧
                   size x ≠ 0 ∧
                   recvbuff !! i = Some (flatten x)).
Proof.
  intros Hwf Hlen Hvalid Hnd Htag Hquiet Hme.
  destruct (lookup_lt_is_Some_2 w me) as [p Hp]; [done|].
  destruct (lookup_lt_is_Some_2 args me) as [a Ha]; [lia|].
  destruct (distribute_all_delivers _ _ _ _ _ Hwf Hlen Hvalid Hnd Htag Hquiet Hp Ha)
    as (b & p' & Hrun & Hgot & _).
  eexists _, b, p'. split; [exact Hrun|]. split.
  - intros s a_s x Has Hx Hsize.
    destruct (column_of_payload w _ _ _ _ _ Hvalid Hnd Has Hx) as [Hone Hcol].
    assert (Hs : s ∈ np_where_nonzero (column_of (length w) args me)).
    { apply elem_of_np_where_nonzero. by rewrite Hcol. }
    apply list_elem_of_lookup in Hs as [i Hi].
    destruct (Hgot i s Hi) as (a' & x' & Ha' & Hx' & Hb).
    rewrite Has in Ha'. injection Ha' as <-. rewrite Hone in Hx'. injection Hx' as <-.
    by exists i.
  - intros i s Hs. destruct (Hgot i s Hs) as (a_s & x & Has & Hx & Hb).
    assert (Hin : (me, x) ∈ payloads (destination a_s) (data a_s)).
    { assert (Hin : (me, x) ∈ [(me, x)]) by apply list_elem_of_singleton, eq_refl.
      rewrite <- Hx in Hin. by apply list_elem_of_filter in Hin as [_ Hin]. }
    exists a_s, x. split_and!; [done|done| |done].
    destruct (column_of_payload w _ _ _ _ _ Hvalid Hnd Has Hin) as [_ Hcol].
    rewrite <- Hcol. apply elem_of_np_where_nonzero. by eapply list_elem_of_lookup_2.
Qed.

(** X2.  After such a round nothing from a source the rank received from is
    left in its queue, and every message that is in the queue was there
    before the call or has no elements. *)
Theorem distribute_leaves_empty_messages w args me p :
  wf_world w → length args = length w → Forall (valid_call (length w)) args →
  Forall (λ a, NoDup (destination a)) args →
  one_tag args →
  quiet w args →
  w !! me = Some p →
  ∃ r p',
    distribute_all w args !! me = Some (Returns r, p') ∧
    (∀ s, s ∈ r.1 → pending s (mailbox p') = []) ∧
    (∀ m, m ∈ mailbox p' → m ∈ mailbox p ∨ msg_payload m = []).
Proof.
  intros Hwf Hlen Hvalid Hnd Htag Hquiet Hp.
  destruct (lookup_lt_is_Some_2 args me) as [a Ha].
  { rewrite Hlen. by eapply lookup_lt_Some. }
  destruct (distribute_all_delivers _ _ _ _ _ Hwf Hlen Hvalid Hnd Htag Hquiet Hp Ha)
    as (b & p' & Hrun & _ & Hdone & Hrest).
  eexists _, p'. split; [exact Hrun|]. simpl. split.
  - intros s Hs. by apply Hdone, elem_of_np_where_nonzero.
  - intros m Hm.
    assert (Hin : m ∈ pending (msg_source m) (mailbox p'))
      by (by apply list_elem_of_filter).
    destruct (decide (column_of (length w) args me !!! msg_source m = 0)) as [Hz|Hnz];
      [|by rewrite (Hdone _ Hnz) in Hin; apply elem_of_nil in Hin].
    rewrite (Hrest _ Hz), pending_app, pending_arrivals in Hin by done.
    apply elem_of_app in Hin as [Hin|Hin].
    { left. by apply list_elem_of_filter in Hin as [_ Hin]. }
    right. destruct (args !! msg_source m) as [a_s|] eqn:Has;
      [|by apply elem_of_nil in Hin].
    unfold outgoing in Hin. apply list_elem_of_fmap in Hin as ([d x] & -> & Hx).
    apply list_elem_of_filter in Hx as [Hd Hx]. simpl in Hd. subst d. simpl in *.
    destruct (column_of_payload w _ _ _ _ _ Hvalid Hnd Has Hx) as [_ Hsize].
    rewrite Hz in Hsize. unfold flatten. symmetry in Hsize.
    by apply nil_length_inv in Hsize.
Qed.

(** X3.  A payload without elements is sent like any other, but the rank it
    is addressed to posts no receive for it: its sender is not among the
    sources returned, and the empty message stays in the queue. *)
Theorem distribute_empty_payload_stays w args me p s a (x : ndarray) :
  wf_world w → length args = length w → Forall (valid_call (length w)) args →
  Forall (λ a, NoDup (destination a)) args →
  one_tag args →
  quiet w args →
  w !! me = Some p → args !! s = Some a →
  (me, x) ∈ payloads (destination a) (data a) → size x = 0 →
  ∃ r p',
    distribute_all w args !! me = Some (Returns r, p') ∧
    (s ∉ r.1) ∧
    {| msg_source := s; msg_tag := tag a; msg_payload := [] |} ∈ mailbox p'.
Proof.
  intros Hwf Hlen Hvalid Hnd Htag Hquiet Hp Has Hx Hsize.
  destruct (lookup_lt_is_Some_2 args me) as [a_me Ha].
  { rewrite Hlen. by eapply lookup_lt_Some. }
  destruct (distribute_all_delivers _ _ _ _ _ Hwf Hlen Hvalid Hnd Htag Hquiet Hp Ha)
    as (b & p' & Hrun & _ & _ & Hrest).
  destruct (column_of_payload w _ _ _ _ _ Hvalid Hnd Has Hx) as [Hone Hcol].
  rewrite Hsize in Hcol.
  eexists _, p'. split; [exact Hrun|]. simpl. split.
  - intros Hin. apply elem_of_np_where_nonzero in Hin. by apply Hin.
  - assert (Hin : {| msg_source := s; msg_tag := tag a; msg_payload := [] |}
                  ∈ pending s (mailbox p')).
    { rewrite (Hrest _ Hcol), pending_app, pending_arrivals, Has by done.
      apply elem_of_app. right. unfold outgoing. rewrite Hone. simpl.
      apply nil_length_inv in Hsize. rewrite Hsize. apply list_elem_of_singleton.
      reflexivity. }
    by apply list_elem_of_filter in Hin as [_ Hin].
Qed.

Lemma write_counts_zero pl v me :
  v !!! me = 0 → (∀ x : ndarray, (me, x) ∈ pl → size x = 0) →
  foldl write_count v pl !!! me = 0.
Proof.
  revert v. induction pl as [|[d x] pl IH]; intros v Hv Hall; [done|].
  simpl. apply IH.
  - unfold write_count. simpl. destruct (decide (d = me)) as [->|Hne].
    + destruct (decide (me < length v)) as [Hlt|Hge].
      * rewrite list_lookup_total_insert_eq by done. apply Hall. by left.
      * by rewrite list_insert_ge by lia.
    + by rewrite list_lookup_total_insert_ne.
  - intros y Hy. apply Hall. by right.
Qed.

(** X4.  A rank that takes no part in a round of valid calls, listing no
    destination itself and being addressed only payloads without elements
    (or none), makes the all-to-all call and nothing else, and returns an
    empty list of sources and an empty list of buffers, whatever the other
    ranks send to one another and whatever waits in its queue. *)
Theorem distribute_nothing_addressed w args me p a :
  wf_world w → length args = length w → Forall (valid_call (length w)) args →
  w !! me = Some p → args !! me = Some a → destination a = [] →
  (∀ a x, a ∈ args → (me, x) ∈ payloads (destination a) (data a) → size x = 0) →
  ∃ p', distribute_all w args !! me = Some (Returns ([], []), p') ∧
        trace p' = trace p ++ [EvAlltoall (replicate (length w) 0)] ∧
        mailbox p' = mailbox p ++ net_arrivals (distribute_net (zip w args) me).
Proof.
  intros Hwf Hlen Hvalid Hp Ha Hdest Hnone.
  rewrite (distribute_all_lookup _ _ _ _ _ Hp Ha).
  destruct (Hwf _ _ Hp) as (_ & Hdc & _).
  assert (Hv : valid_call (length w) a).
  { rewrite Forall_forall in Hvalid. by eapply Hvalid, list_elem_of_lookup_2. }
  rewrite (send_recv_run (length w) _ _ _ _ _ (column_of (length w) args me));
    [|done|done|by apply distribute_net_alltoall].
  assert (Hsources : np_where_nonzero (column_of (length w) args me) = []).
  { apply elem_of_nil_inv. intros s Hs. apply elem_of_np_where_nonzero in Hs.
    destruct (column_of_nonzero _ _ _ _ Hs) as [a_s Has].
    apply Hs. rewrite (column_of_lookup _ _ _ _ _ Has). unfold counts_of.
    apply write_counts_zero.
    - destruct (decide (me < length w)) as [Hlt|Hge].
      + by rewrite lookup_total_replicate_2.
      + rewrite list_lookup_total_alt, lookup_ge_None_2; [done|].
        rewrite length_replicate. lia.
    - intros x Hx. eapply Hnone; [|exact Hx]. by eapply list_elem_of_lookup_2. }
  assert (Hpl : payloads (destination a) (data a) = []).
  { rewrite Hdest. by destruct (data a). }
  rewrite Hsources, Hpl. eexists. split_and!; reflexivity.
Qed.

(** X5.  The all-to-all transposes the count table: after a round of valid
    calls, whether or not the calls return, entry [s] of the source count of
    rank [me] is entry [me] of the destination count of rank [s]; both
    vectors still have one entry per rank. *)
Theorem distribute_counts_transposed w args me s o p' o_s p_s :
  wf_world w → length args = length w → Forall (valid_call (length w)) args →
  distribute_all w args !! me = Some (o, p') →
  distribute_all w args !! s = Some (o_s, p_s) →
  source_count (self p') !! s = destination_count (self p_s) !! me ∧
  length (source_count (self p')) = length w ∧
  length (destination_count (self p_s)) = length w.
Proof.
  intros Hwf Hlen Hvalid Hme Hs.
  destruct (distribute_all_lookup_inv _ _ _ _ _ Hlen Hme) as (p & a & Hp & Ha).
  destruct (distribute_all_lookup_inv _ _ _ _ _ Hlen Hs) as (q_s & a_s & Hps & Has).
  destruct (distribute_all_inv _ _ _ _ _ _ _ Hwf Hlen Hvalid Hp Ha Hme) as [-> _].
  destruct (distribute_all_inv _ _ _ _ _ _ _ Hwf Hlen Hvalid Hps Has Hs) as [-> _].
  simpl. rewrite length_column_of, length_counts_of. split_and!; [|done..].
  assert (Hlt : me < length (counts_of (length w) (payloads (destination a_s) (data a_s)))).
  { rewrite length_counts_of. by eapply lookup_lt_Some. }
  rewrite (list_lookup_lookup_total_lt _ _ Hlt).
  unfold column_of, count_table. rewrite !list_lookup_fmap, Has. done.
Qed.



(** ** Calls that cannot be served *)

(** The loop that fills the destination count stops at the first position
    without a payload or with a destination out of range; nothing was
    communicated by then. *)
Lemma fill_list_loop_fails (l : list ndarray) destination k p :
  ¬ (Forall (λ dest, dest < length (destination_count (self p))) destination ∧
     Forall (λ i, i < length l) (seq k (length destination))) →
  ∃ p', for_each (zip (seq k (length destination)) destination)
          (λ '(dest_ind, dest),
             a ← list_getitem l dest_ind; destination_count_setitem dest (size a)) p
        = (Raises IndexError, p') ∧
        trace p' = trace p ∧ mailbox p' = mailbox p ∧
        source_count (self p') = source_count (self p).
Proof.
  revert k p. induction destination as [|d ds IH]; intros k p Hbad.
  { exfalso. apply Hbad. split; constructor. }
  simpl. rewrite bind_run. destruct (l !! k) as [a|] eqn:Ha.
  - rewrite bind_run, (list_getitem_Some _ _ _ _ Ha).
    destruct (decide (d < length (destination_count (self p)))) as [Hd|Hd].
    + rewrite destination_count_setitem_run by done.
      match goal with |- context [for_each _ _ ?q] =>
        destruct (IH (S k) q) as (p' & Hrun & Ht & Hm & Hs)
      end.
      * simpl. rewrite length_insert. intros [Hds Hks]. apply Hbad. split.
        -- by constructor.
        -- constructor; [by eapply lookup_lt_Some|done].
      * exists p'. by rewrite Hrun.
    + exists p. unfold destination_count_setitem. run_M.
      by rewrite decide_False.
  - exists p. unfold list_getitem. rewrite Ha. done.
Qed.

Lemma Forall_seq_below k n m : k + n ≤ m → Forall (λ i, i < m) (seq k n).
Proof. intros H. apply Forall_seq. intros j Hj. lia. Qed.

Lemma fill_destination_count_fails P destination data p :
  length (destination_count (self p)) = P →
  ¬ valid_payloads P destination data →
  ∃ e p', fill_destination_count destination data p = (Raises e, p') ∧
          trace p' = trace p ∧ mailbox p' = mailbox p ∧
          source_count (self p') = source_count (self p) ∧
          e = match data with DataNone => AttributeError "size" | _ => IndexError end.
Proof.
  intros Hdc Hbad. unfold fill_destination_count.
  rewrite bind_run, zero_destination_count_run.
  destruct data as [l|a|].
  - match goal with |- context [for_each _ _ ?q] =>
      destruct (fill_list_loop_fails l destination 0 q) as (p' & Hrun & Ht & Hm & Hs)
    end.
    + simpl. rewrite length_replicate, Hdc. intros [Hd Hl]. apply Hbad. split; [done|].
      simpl. destruct (decide (length destination ≤ length l)) as [|Hgt]; [done|].
      rewrite Forall_seq in Hl. specialize (Hl (length l)). lia.
    + exists IndexError, p'. unfold enumerate. by rewrite Hrun.
  - exists IndexError. eexists. unfold destination_count_setitems. run_M.
    rewrite length_replicate, Hdc. rewrite decide_False; [done|].
    intros Hd. apply Hbad. by split.
  - by exists (AttributeError "size"), 
      (set_self (with_destination_count
                   (replicate (length (destination_count (self p))) 0) (self p)) p).
Qed.

Lemma send_recv_fails P net destination data tag p :
  length (destination_count (self p)) = P →
  ¬ valid_payloads P destination data →
  ∃ e p', send_recv net destination data tag p = (Raises e, p') ∧
          trace p' = trace p ∧ mailbox p' = mailbox p ∧
          source_count (self p') = source_count (self p) ∧
          e = match data with DataNone => AttributeError "size" | _ => IndexError end.
Proof.
  intros Hdc Hbad.
  destruct (fill_destination_count_fails _ _ _ _ Hdc Hbad) as (e & p' & Hrun & H).
  exists e, p'. unfold send_recv. by rewrite bind_run, Hrun.
Qed.

(** The all-to-all of a round does not complete when one rank never joins. *)
Lemma distribute_net_incomplete w args bad p a me :
  wf_world w → w !! bad = Some p → args !! bad = Some a →
  ¬ valid_call (length w) a →
  net_alltoall (distribute_net (zip w args) me) = None.
Proof.
  intros Hwf Hp Ha Hbad. unfold distribute_net, alltoall_columns. simpl.
  rewrite (mapM_None_2 _ (zip w args)); [done|].
  apply Exists_exists. exists (p, a). split.
  { eapply list_elem_of_lookup_2. by apply lookup_calls. }
  simpl. destruct (Hwf _ _ Hp) as (_ & Hdc & _).
  destruct (send_recv_fails _ silent _ _ (tag a) _ Hdc Hbad) as (e & p' & Hrun & Ht & _).
  rewrite (events_of_log _ _ _ _ [] Hrun); [done|by rewrite app_nil_r].
Qed.

(** X6.  A call whose destination list names a rank P or above (an index
    past the end of the count vector), or is longer than the list of
    payloads, or that passes no data, raises before it communicates
    (IndexError, or AttributeError when there is no data): its log and its
    source count are as before.  The all-to-all of the
    round then never completes: every rank whose own call is in order makes
    that one call and waits. *)
Theorem distribute_invalid_call_hangs w args bad p_bad a_bad :
  wf_world w → length args = length w →
  w !! bad = Some p_bad → args !! bad = Some a_bad →
  ¬ valid_call (length w) a_bad →
  (∃ p', distribute_all w args !! bad
         = Some (Raises (match data a_bad with
                         | DataNone => AttributeError "size"
                         | _ => IndexError
                         end), p') ∧
         trace p' = trace p_bad ∧
         source_count (self p') = source_count (self p_bad)) ∧
  (∀ r p a, w !! r = Some p → args !! r = Some a → valid_call (length w) a →
            ∃ p', distribute_all w args !! r = Some (Blocks, p') ∧
                  trace p' = trace p ++ [EvAlltoall (counts_of (length w)
                                           (payloads (destination a) (data a)))]).
Proof.
  intros Hwf Hlen Hp Ha Hbad. split.
  - rewrite (distribute_all_lookup _ _ _ _ _ Hp Ha).
    destruct (Hwf _ _ Hp) as (_ & Hdc & _).
    destruct (send_recv_fails _ (distribute_net (zip w args) bad) _ _ (tag a_bad) _ Hdc Hbad)
      as (e & p' & Hrun & Ht & _ & Hs & ->).
    exists p'. by rewrite Hrun.
  - intros r p a Hpr Har Hv.
    rewrite (distribute_all_lookup _ _ _ _ _ Hpr Har).
    destruct (Hwf _ _ Hpr) as (_ & Hdc & _).
    rewrite (send_recv_blocked (length w)); [|done|done|].
    + eexists. split; [done|]. done.
    + exact (distribute_net_incomplete _ _ _ _ _ r Hwf Hp Ha Hbad).
Qed.

(** A receive whose source has queued nothing with its tag is never matched. *)
Lemma take_message_none s t q :
  (∀ m, m ∈ pending s q → msg_tag m ≠ t) → take_message s t q = None.
Proof.
  induction q as [|m q IH]; intros Hall; [done|].
  simpl. rewrite decide_False.
  - rewrite IH; [done|]. intros m' Hm'. apply Hall.
    unfold pending in *. apply list_elem_of_filter in Hm' as [? ?].
    apply list_elem_of_filter. split; [done|by right].
  - intros [Hs Ht]. eapply Hall; [|exact Ht].
    apply list_elem_of_filter. split; [done|by left].
Qed.

Lemma wait_loop_mismatch reqs recvbuff p :
  NoDup (req_source <$> reqs) → NoDup (req_index <$> reqs) →
  (∀ r, r ∈ reqs →
        ∃ m buf, pending (req_source r) (mailbox p) = [m] ∧
                 recvbuff !! req_index r = Some buf ∧
                 length (msg_payload m) = length buf) →
  (∃ r m, r ∈ reqs ∧ pending (req_source r) (mailbox p) = [m] ∧ msg_tag m ≠ req_tag r) →
  ∃ p', for_each_acc reqs wait_recv recvbuff p = (Blocks, p').
Proof.
  revert recvbuff p. induction reqs as [|r rs IH]; intros recvbuff p Hnd Hni Hall Hbad.
  { destruct Hbad as (r & m & Hr & _). by apply elem_of_nil in Hr. }
  rewrite fmap_cons in Hnd, Hni.
  apply NoDup_cons in Hnd as [Hr Hnd]. apply NoDup_cons in Hni as [Hi Hni].
  destruct (Hall r) as (m & buf & Hm & Hbuf & Hlen); [by left|].
  simpl. rewrite bind_run.
  destruct (decide (msg_tag m = req_tag r)) as [Htag|Htag].
  - destruct (take_message_single _ _ _ _ Hm Htag) as (q' & Htake & Hnone & Hother).
    assert (Hw : wait_recv recvbuff r p
      = (Returns (<[req_index r := msg_payload m]> recvbuff),
         set_mailbox q' (log [EvWaitRecv (req_source r)] p))).
    { unfold wait_recv, list_getitem. run_M. rewrite Htake; simpl. rewrite Hbuf; simpl.
      rewrite decide_True by (unfold size; lia). by rewrite received_exact. }
    rewrite Hw. apply IH; [done|done| |].
    + intros r' Hr'.
      destruct (Hall r') as (m' & buf' & Hm' & Hbuf' & Hlen'); [by right|].
      exists m', buf'. simpl. split_and!; [|by rewrite list_lookup_insert_ne; [|
        intros Heq; apply Hi; rewrite Heq; by apply list_elem_of_fmap_2]|done].
      rewrite Hother; [done|]. intros Heq. apply Hr. rewrite <- Heq.
      by apply list_elem_of_fmap_2.
    + destruct Hbad as (r0 & m0 & Hr0 & Hm0 & Ht0).
      apply elem_of_cons in Hr0 as [->|Hr0].
      { rewrite Hm in Hm0. injection Hm0 as <-. done. }
      exists r0, m0. split_and!; [done| |done]. simpl. rewrite Hother; [done|].
      intros Heq. apply Hr. rewrite <- Heq. by apply list_elem_of_fmap_2.
  - exists (log [EvWaitRecv (req_source r)] p).
    unfold wait_recv. run_M. rewrite take_message_none; [done|].
    intros m' Hm'. rewrite Hm in Hm'. apply list_elem_of_singleton in Hm'. by subst m'.
Qed.

(** X7.  The tag is part of the matching.  In a round of valid calls with
    distinct destinations and no message left over, a rank that is sent at
    least one element by a rank that passes another tag than its own never
    returns. *)
Theorem distribute_tag_mismatch_blocks w args me p a s a_s (x : ndarray) :
  wf_world w → length args = length w → Forall (valid_call (length w)) args →
  Forall (λ a, NoDup (destination a)) args →
  quiet w args →
  w !! me = Some p → args !! me = Some a → args !! s = Some a_s →
  (me, x) ∈ payloads (destination a_s) (data a_s) → size x ≠ 0 →
  tag a_s ≠ tag a →
  ∃ p', distribute_all w args !! me = Some (Blocks, p').
Proof.
  intros Hwf Hlen Hvalid Hnd Hquiet Hp Ha Has Hx Hsize Htag.
  rewrite (distribute_all_lookup _ _ _ _ _ Hp Ha).
  destruct (Hwf _ _ Hp) as (_ & Hdc & _).
  assert (Hv : valid_call (length w) a).
  { rewrite Forall_forall in Hvalid. by eapply Hvalid, list_elem_of_lookup_2. }
  rewrite (send_recv_run (length w) _ _ _ _ _ (column_of (length w) args me));
    [|done|done|by apply distribute_net_alltoall].
  rewrite bind_run, complete_receives_run.
  set (column := column_of (length w) args me).
  match goal with |- context [for_each_acc ?reqs wait_recv ?bufs ?q] =>
    destruct (wait_loop_mismatch reqs bufs q) as (p' & Hrun)
  end.
  - rewrite requests_sources. apply np_where_nonzero_NoDup.
  - rewrite requests_indices. apply NoDup_seq.
  - intros r Hr. apply elem_of_requests in Hr as (i & s' & Hs' & ->). simpl.
    assert (Hact : column !!! s' ≠ 0).
    { apply elem_of_np_where_nonzero. by eapply list_elem_of_lookup_2. }
    destruct (active_source_message _ _ _ _ _ Hwf Hlen Hvalid Hnd Hquiet Hp Hact)
      as (a' & x' & Ha' & Hx' & Hsize' & Hpend).
    eexists _, _. split_and!; [exact Hpend|by apply lookup_receive_buffer|].
    simpl. unfold np_zeros. rewrite length_replicate. exact Hsize'.
  - destruct (column_of_payload w _ _ _ _ _ Hvalid Hnd Has Hx) as [Hone Hcol].
    assert (Hact : column !!! s ≠ 0) by (unfold column; by rewrite Hcol).
    destruct (active_source_message _ _ _ _ _ Hwf Hlen Hvalid Hnd Hquiet Hp Hact)
      as (a' & x' & Ha' & Hx' & Hsize' & Hpend).
    rewrite Has in Ha'. injection Ha' as <-.
    assert (Hs : s ∈ np_where_nonzero column) by (by apply elem_of_np_where_nonzero).
    apply list_elem_of_lookup in Hs as [i Hi].
    exists {| req_index := i; req_source := s; req_tag := tag a |}. eexists.
    split_and!; [|exact Hpend|done].
    unfold requests, enumerate. apply list_elem_of_fmap.
    exists (i, s). split; [done|]. apply list_elem_of_lookup. exists i.
    rewrite lookup_zip_with, lookup_seq_lt by (by eapply lookup_lt_Some).
    simpl. by rewrite Hi.
  - rewrite Hrun. by exists p'.
Qed.



(** ** Contents of a "gather" and of a "scatter" *)

(** In the concatenation of the parts, part [r] is the slice that starts at
    the sum of the sizes of the parts before it. *)
Lemma scatterv_part_concat (ds : list ndarray) r d :
  ds !! r = Some d → scatterv_part (concat ds) (size <$> ds) r = d.
Proof.
  intros Hd. unfold scatterv_part.
  rewrite (list_lookup_total_correct (size <$> ds) r (size d))
    by (by rewrite list_lookup_fmap, Hd).
  rewrite <- fmap_take, <- length_concat_sizes.
  rewrite <- (take_drop_middle ds r d Hd) at 2.
  rewrite concat_app, drop_app_length. simpl. by rewrite take_app_length.
Qed.

Lemma length_gather_round w datas root :
  length datas = length w → length (gather_round w datas root) = length w.
Proof. intros H. unfold gather_round. rewrite length_fmap, length_zip_with. lia. Qed.

(** X8.  [gather_in_root] sends the array as it lies in memory.  In a round
    where every rank passes a contiguous array, the buffer the root returns
    is the concatenation, in rank order, of the arrays in memory order:
    nothing of the uninitialised content of [np.empty] is left, and the
    slice of the size of the array of rank [r] at the offset given by the
    counts of the ranks below it holds that array in memory order.  For a
    round of C-ordered arrays this is the concatenation of the flattened
    arrays; for an array in another order (Fortran order) it is not the
    flattened array. *)
Theorem gather_collects_in_rank_order w (ds : list array) root :
  wf_world w → length ds = length w → root < length w → Forall contiguous ds →
  ∃ buf counts p',
    gather_round w (Some <$> ds) root !! root = Some (Returns (Some buf, counts), p') ∧
    buf = concat (memory_of <$> ds) ∧
    (∀ r d, ds !! r = Some d →
            take (size (elements d)) (drop (sum_list (take r counts)) buf) = memory_of d) ∧
    (Forall (λ d, buffer d = Some (elements d)) ds →
     buf = concat ((λ d, flatten (elements d)) <$> ds)).
Proof.
  intros Hwf Hlen Hroot Hc.
  destruct (lookup_lt_is_Some_2 w root) as [p Hp]; [done|].
  destruct (lookup_lt_is_Some_2 ds root) as [d Hd]; [lia|].
  eexists (concat (memory_of <$> ds)), ((λ d, size (elements d)) <$> ds), _.
  rewrite (gather_round_lookup _ _ _ _ _ _ Hwf Hlen Hc Hp Hd), decide_True by done.
  split_and!; [done|done| |].
  - intros r a Ha.
    pose proof (scatterv_part_concat (memory_of <$> ds) r (memory_of a)) as Hpart.
    rewrite list_lookup_fmap, Ha in Hpart. specialize (Hpart eq_refl).
    unfold scatterv_part in Hpart.
    change (size <$> (memory_of <$> ds)) with (length <$> (memory_of <$> ds)) in Hpart.
    rewrite <- (contiguous_sizes ds Hc) in Hpart.
    by rewrite (list_lookup_total_correct _ r (size (elements a))) in Hpart
      by (by rewrite list_lookup_fmap, Ha).
  - intros Hrow. f_equal. apply Forall_fmap_ext_1.
    eapply Forall_impl; [exact Hrow|]. intros a Ha. unfold memory_of. by rewrite Ha.
Qed.

(** X9.  Gather, then scatter (the example of the docstrings).  Every rank
    passes a contiguous array to a "gather" at [root] and then hands what it
    got back, buffer and counts, to a "scatter" from the same root: every
    rank returns the elements of the array it started with, in the order in
    which they lay in memory (for a C-ordered array, the flattened
    array). *)
Theorem gather_then_scatter w (ds : list array) root r d :
  wf_world w → length ds = length w → root < length w → Forall contiguous ds →
  ds !! r = Some d →
  ∃ p', scatter_all (snd <$> gather_round w (Some <$> ds) root)
                    (scatter_back (gather_round w (Some <$> ds) root)) root !! r
        = Some (Returns (memory_of d), p').
Proof.
  intros Hwf Hlen Hroot Hc Hd.
  set (outs := gather_round w (Some <$> ds) root).
  set (counts := (λ d, size (elements d)) <$> ds).
  set (whole := concat (memory_of <$> ds)).
  assert (Hout : ∀ i, i < length w →
    ∃ p x, w !! i = Some p ∧ ds !! i = Some x ∧
           outs !! i = Some (Returns (if decide (i = root) then Some whole else None, counts),
                             log [EvAllgather (size (elements x));
                                  EvGatherv (memory_of x) counts root] p)).
  { intros i Hi.
    destruct (lookup_lt_is_Some_2 w i) as [p Hp]; [done|].
    destruct (lookup_lt_is_Some_2 ds i) as [x Hx]; [lia|].
    exists p, x. split_and!; [done..|]. by apply gather_round_lookup. }
  assert (Hlouts : length outs = length w).
  { apply length_gather_round. by rewrite length_fmap. }
  assert (Hwf' : wf_world (snd <$> outs)).
  { intros i p' Hp'. rewrite length_fmap, Hlouts.
    assert (Hi : i < length w).
    { apply lookup_lt_Some in Hp'. by rewrite length_fmap, Hlouts in Hp'. }
    destruct (Hout i Hi) as (p & x & Hp & _ & Ho).
    rewrite list_lookup_fmap, Ho in Hp'. injection Hp' as <-.
    exact (Hwf _ _ Hp). }
  assert (Hr : r < length w) by (rewrite <- Hlen; by eapply lookup_lt_Some).
  destruct (Hout r Hr) as (p & x & Hp & Hx & Ho).
  destruct (Hout root Hroot) as (p0 & x0 & Hp0 & Hx0 & Ho0).
  rewrite decide_True in Ho0 by done.
  rewrite Hd in Hx. injection Hx as <-.
  assert (Hcounts : counts = size <$> (memory_of <$> ds)) by apply contiguous_sizes, Hc.
  eexists.
  rewrite (scatter_all_lookup (snd <$> outs) (scatter_back outs) root whole
             counts r
             (log [EvAllgather (size (elements d)); EvGatherv (memory_of d) counts root] p)
             (if decide (r = root) then Some whole else None)
             (size (elements d)) Hwf').
  - rewrite Hcounts. unfold whole.
    by rewrite (scatterv_part_concat (memory_of <$> ds) r (memory_of d))
      by (by rewrite list_lookup_fmap, Hd).
  - by rewrite length_fmap, Hlouts.
  - unfold scatter_back. by rewrite !length_fmap.
  - rewrite Hcounts. unfold whole. by rewrite length_concat_sizes.
  - unfold scatter_back. by rewrite list_lookup_fmap, Ho0.
  - unfold counts. rewrite list_lookup_fmap, Hx0. eauto.
  - by rewrite list_lookup_fmap, Ho.
  - unfold scatter_back. by rewrite list_lookup_fmap, Ho.
  - unfold counts. by rewrite list_lookup_fmap, Hd.
Qed.



(** X11.  A root that passes no data raises before it communicates
    (AttributeError on [data.size] when it has to work out the counts, on
    [data.flatten] otherwise); every other rank that passes counts with an
    entry for itself then waits in [Scatterv] for ever, unless that entry
    is zero: a rank that reserves no element returns an empty array. *)
Theorem scatter_root_without_data_hangs w args root p_root sc :
  wf_world w → w !! root = Some p_root → args !! root = Some (None, sc) →
  scatter_all w args root !! root
  = Some (Raises (AttributeError (match sc with None => "size" | Some _ => "flatten" end)),
          p_root) ∧
  ∀ r p data counts n,
    r ≠ root → w !! r = Some p → args !! r = Some (data, Some counts) →
    counts !! r = Some n →
    scatter_all w args root !! r
    = Some (if decide (n = 0) then Returns [] else Blocks,
            log [EvScatterv None counts n root] p).
Proof.
  intros Hwf Hp Ha.
  destruct (Hwf _ _ Hp) as (Hc & _ & _).
  assert (Hrank : Get_rank (comm (self p_root)) = root) by (by rewrite Hc).
  assert (Hraise : ∀ net, scatter_from_root net None sc root p_root
    = (Raises (AttributeError (match sc with None => "size" | Some _ => "flatten" end)),
       p_root)).
  { intros net. unfold scatter_from_root. run_M. rewrite decide_True by done.
    by destruct sc. }
  split.
  - unfold scatter_all. rewrite list_lookup_imap, (lookup_calls _ _ _ _ _ Hp Ha). simpl.
    by rewrite Hraise.
  - intros r p data counts n Hne Hpr Har Hn.
    unfold scatter_all. rewrite list_lookup_imap, (lookup_calls _ _ _ _ _ Hpr Har). simpl.
    destruct (Hwf _ _ Hpr) as (Hcr & _ & _).
    assert (Hrankr : Get_rank (comm (self p)) = r) by (by rewrite Hcr).
    rewrite (scatter_from_root_counts _ _ _ _ _ n); [|by rewrite Hrankr|by rewrite Hrankr].
    rewrite Hrankr, (decide_False (P := r = root)) by done. rewrite Scatterv_run.
    assert (Hnet : net_scatterv (scatter_net (zip w args) root r) = None).
    { unfold scatter_net. simpl. rewrite (lookup_calls _ _ _ _ _ Hp Ha). simpl.
      rewrite (events_of_log _ _ _ _ [] (Hraise silent)); [done|by rewrite app_nil_r]. }
    rewrite Hnet. unfold size, np_ones_times_minus_hundred. rewrite length_replicate.
    destruct (decide (n = 0)) as [->|Hn0]; done.
Qed.

(** X12.  A rank that passes no data to a "gather" raises AttributeError
    before it communicates; every rank that does pass an array then joins
    the allgather of the sizes and waits there for ever. *)
Theorem gather_without_data_hangs w datas root bad p_bad :
  w !! bad = Some p_bad → datas !! bad = Some None →
  gather_all w datas root !! bad = Some (Raises (AttributeError "size"), p_bad) ∧
  ∀ r p (d : ndarray),
    w !! r = Some p → datas !! r = Some (Some d) →
    gather_all w datas root !! r = Some (Blocks, log [EvAllgather (size d)] p).
Proof.
  intros Hp Hd. unfold gather_all.
  set (views := (λ data : option ndarray, flat <$> data) <$> datas).
  assert (Hv : views !! bad = Some None) by (unfold views; by rewrite list_lookup_fmap, Hd).
  assert (Hnet : net_allgather (gather_net (zip w views) root) = None).
  { unfold gather_net. simpl. apply mapM_None_2, Exists_exists.
    exists (p_bad, None). split.
    - eapply list_elem_of_lookup_2. by apply lookup_calls.
    - simpl.
      by rewrite (events_of_log _ _ (Raises (AttributeError "size")) p_bad [])
        by (by rewrite ?app_nil_r). }
  split.
  - unfold gather_round. by rewrite list_lookup_fmap, (lookup_calls _ _ _ _ _ Hp Hv).
  - intros r p d Hpr Hdr.
    assert (Hvr : views !! r = Some (Some (flat d)))
      by (unfold views; by rewrite list_lookup_fmap, Hdr).
    unfold gather_round. rewrite list_lookup_fmap, (lookup_calls _ _ _ _ _ Hpr Hvr). simpl.
    by rewrite gather_in_root_blocked.
Qed.




(** ** A round after a round with an empty payload *)

Lemma take_message_first s t q m rest :
  pending s q = m :: rest → msg_tag m = t →
  ∃ q', take_message s t q = Some (m, q') ∧
        pending s q' = rest ∧
        (∀ s', s' ≠ s → pending s' q' = pending s' q).
Proof.
  unfold pending. intros Hq Ht. induction q as [|x q IH]; [done|].
  rewrite filter_cons in Hq. simpl. case_decide as Hx.
  - injection Hq as -> Hq. rewrite decide_True by done.
    exists q. split_and!; [done|done|].
    intros s' Hs'. rewrite filter_cons. rewrite decide_False; [done|congruence].
  - destruct (IH Hq) as (q' & Htake & Hnone & Hother).
    rewrite decide_False by (intros [? _]; done).
    rewrite Htake. simpl. exists (x :: q'). split_and!; [done| |].
    + rewrite filter_cons. by rewrite decide_False.
    + intros s' Hs'. rewrite !filter_cons. rewrite (Hother s' Hs'). done.
Qed.

Lemma take_message_other s t q m q' s' :
  take_message s t q = Some (m, q') → s' ≠ s → pending s' q' = pending s' q.
Proof.
  intros Ht Hne. revert q' Ht. induction q as [|y q IH]; intros q' Ht; [done|].
  simpl in Ht. case_decide as Hy.
  - injection Ht as _ <-. unfold pending. rewrite filter_cons.
    rewrite decide_False; [done|]. destruct Hy as [Hy _]. congruence.
  - destruct (take_message s t q) as [[m2 q4]|]; [|done]. simpl in Ht.
    injection Ht as <- <-. unfold pending in *. rewrite !filter_cons.
    by rewrite (IH q4 eq_refl).
Qed.

Lemma wait_recv_frame recvbuff req p b p' :
  wait_recv recvbuff req p = (Returns b, p') →
  (∀ i, i ≠ req_index req → b !! i = recvbuff !! i) ∧
  (∀ s, s ≠ req_source req → pending s (mailbox p') = pending s (mailbox p)).
Proof.
  unfold wait_recv, list_getitem. run_M.
  destruct (take_message _ _ (mailbox p)) as [[m q']|] eqn:Ht; [|done]. simpl.
  destruct (recvbuff !! req_index req); [|done]. simpl.
  case_decide; [|done]. intros [= <- <-]. simpl. split.
  - intros i Hi. by apply list_lookup_insert_ne.
  - intros s Hs. by eapply take_message_other.
Qed.

Lemma wait_loop_frame reqs recvbuff p b p' :
  for_each_acc reqs wait_recv recvbuff p = (Returns b, p') →
  (∀ i, i ∉ req_index <$> reqs → b !! i = recvbuff !! i) ∧
  (∀ s, s ∉ req_source <$> reqs → pending s (mailbox p') = pending s (mailbox p)).
Proof.
  revert recvbuff p. induction reqs as [|r rs IH]; intros recvbuff p Hloop.
  - simpl in Hloop. by injection Hloop as <- <-.
  - simpl in Hloop. rewrite bind_run in Hloop.
    destruct (wait_recv recvbuff r p) as [[b1| |] p1] eqn:Hone; try done.
    destruct (wait_recv_frame _ _ _ _ _ Hone) as [Hb1 Hp1].
    destruct (IH _ _ Hloop) as [Hb Hp]. split.
    + intros i Hi. rewrite fmap_cons in Hi. apply not_elem_of_cons in Hi as [Hne Hi].
      rewrite (Hb _ Hi). by apply Hb1.
    + intros s Hs. rewrite fmap_cons in Hs. apply not_elem_of_cons in Hs as [Hne Hs].
      rewrite (Hp _ Hs). by apply Hp1.
Qed.

(** Every posted receive is matched with the oldest message of its source,
    when that carries its tag and fits its buffer. *)
Lemma wait_loop_first reqs recvbuff p :
  NoDup (req_source <$> reqs) → NoDup (req_index <$> reqs) →
  (∀ r, r ∈ reqs →
        ∃ m rest buf, pending (req_source r) (mailbox p) = m :: rest ∧
                      msg_tag m = req_tag r ∧
                      recvbuff !! req_index r = Some buf ∧
                      length (msg_payload m) ≤ length buf) →
  ∃ b p', for_each_acc reqs wait_recv recvbuff p = (Returns b, p') ∧
          (∀ r, r ∈ reqs →
                ∃ m rest buf, pending (req_source r) (mailbox p) = m :: rest ∧
                              recvbuff !! req_index r = Some buf ∧
                              b !! req_index r
                              = Some (msg_payload m ++ drop (length (msg_payload m)) buf) ∧
                              pending (req_source r) (mailbox p') = rest).
Proof.
  revert recvbuff p. induction reqs as [|r rs IH]; intros recvbuff p Hnd Hni Hall.
  - simpl. exists recvbuff, p. split; [done|].
    intros r Hr. by apply elem_of_nil in Hr.
  - rewrite fmap_cons in Hnd, Hni.
    apply NoDup_cons in Hnd as [Hr Hnd]. apply NoDup_cons in Hni as [Hi Hni].
    destruct (Hall r) as (m & rest & buf & Hm & Htag & Hbuf & Hlen); [by left|].
    destruct (take_message_first _ _ _ _ _ Hm Htag) as (q' & Htake & Hrest & Hother).
    set (buf' := msg_payload m ++ drop (length (msg_payload m)) buf).
    assert (Hw : wait_recv recvbuff r p
      = (Returns (<[req_index r := buf']> recvbuff),
         set_mailbox q' (log [EvWaitRecv (req_source r)] p))).
    { unfold wait_recv, list_getitem. run_M. rewrite Htake; simpl. rewrite Hbuf; simpl.
      by rewrite decide_True by (unfold size; lia). }
    simpl. rewrite (bind_returns _ _ _ _ _ Hw).
    assert (Hsrc : ∀ r', r' ∈ rs → req_source r' ≠ req_source r).
    { intros r' Hr' Heq. apply Hr. rewrite <- Heq. by apply list_elem_of_fmap_2. }
    assert (Hidx : ∀ r', r' ∈ rs → req_index r ≠ req_index r').
    { intros r' Hr' Heq. apply Hi. rewrite Heq. by apply list_elem_of_fmap_2. }
    destruct (IH (<[req_index r := buf']> recvbuff)
                 (set_mailbox q' (log [EvWaitRecv (req_source r)] p)) Hnd Hni)
      as (b & p' & Hrun & Hgot).
    { intros r' Hr'.
      destruct (Hall r') as (m' & rest' & buf0 & Hm' & Htag' & Hbuf' & Hlen'); [by right|].
      exists m', rest', buf0. simpl. split_and!; try done.
      - rewrite Hother; [done|]. by apply Hsrc.
      - rewrite list_lookup_insert_ne; [done|]. by apply Hidx. }
    destruct (wait_loop_frame _ _ _ _ _ Hrun) as [Hkeep Hleft].
    exists b, p'. split; [done|].
    intros r' Hr'. apply elem_of_cons in Hr' as [->|Hr'].
    + exists m, rest, buf. split_and!; [done|done| |].
      * rewrite (Hkeep _ Hi). apply list_lookup_insert_eq. by eapply lookup_lt_Some.
      * by rewrite (Hleft _ Hr).
    + destruct (Hgot r' Hr') as (m' & rest' & buf0 & Hm' & Hbuf' & Hb' & Hrest').
      exists m', rest', buf0. simpl in Hm'. split_and!; [| |done|done].
      * rewrite Hother in Hm'; [done|]. by apply Hsrc.
      * rewrite list_lookup_insert_ne in Hbuf'; [done|]. by apply Hidx.
Qed.


(** The message an active source sends to [me] in the round. *)
Lemma active_source_arrival w args me s :
  wf_world w → length args = length w → Forall (valid_call (length w)) args →
  Forall (λ a, NoDup (destination a)) args →
  column_of (length w) args me !!! s ≠ 0 →
  ∃ a_s x,
    args !! s = Some a_s ∧
    filter (λ y, y.1 = me) (payloads (destination a_s) (data a_s)) = [(me, x)] ∧
    size x = column_of (length w) args me !!! s ∧
    pending s (net_arrivals (distribute_net (zip w args) me))
    = [ {| msg_source := s; msg_tag := tag a_s; msg_payload := flatten x |} ].
Proof.
  intros Hwf Hlen Hvalid Hnd Hact.
  destruct (column_of_nonzero _ _ _ _ Hact) as [a_s Has].
  pose proof Hvalid as Hvalid'. rewrite Forall_forall in Hvalid', Hnd.
  assert (Hvs : valid_call (length w) a_s) by (by eapply Hvalid', list_elem_of_lookup_2).
  assert (Hnds : NoDup (destination a_s)) by (by eapply Hnd, list_elem_of_lookup_2).
  pose proof (payloads_destinations _ _ _ Hvs) as Hfst.
  pose proof Hact as Hact'. rewrite (column_of_lookup _ _ _ _ _ Has) in Hact'.
  destruct (counts_of_NoDup (length w) (payloads (destination a_s) (data a_s)) me)
    as [[_ Hz]|(x & Hx & Hsize)]; [by rewrite Hfst|rewrite Hfst; apply Hvs|done|].
  exists a_s, x. split_and!; [done|done| |].
  - by rewrite (column_of_lookup _ _ _ _ _ Has).
  - rewrite pending_arrivals by done. rewrite Has. unfold outgoing. by rewrite Hx.
Qed.

(** What a round leaves in a queue that was empty: at most one message per
    source, and that one without elements. *)
Lemma distribute_all_leftover w args me p a t :
  wf_world w → length args = length w → Forall (valid_call (length w)) args →
  Forall (λ a, NoDup (destination a)) args →
  (∀ a, a ∈ args → tag a = t) →
  quiet w args → w !! me = Some p → mailbox p = [] → args !! me = Some a →
  ∃ r p',
    distribute_all w args !! me = Some (Returns r, p') ∧
    (∀ s, pending s (mailbox p') = [] ∨
          pending s (mailbox p')
          = [ {| msg_source := s; msg_tag := t; msg_payload := [] |} ]) ∧
    (∀ s a_s (x : ndarray),
       args !! s = Some a_s → (me, x) ∈ payloads (destination a_s) (data a_s) →
       size x = 0 →
       pending s (mailbox p') = [ {| msg_source := s; msg_tag := t; msg_payload := [] |} ]).
Proof.
  intros Hwf Hlen Hvalid Hnd Htag Hquiet Hp Hempty Ha.
  assert (Hone : one_tag args).
  { intros a1 a2 H1 H2. by rewrite (Htag a1), (Htag a2). }
  destruct (distribute_all_delivers _ _ _ _ _ Hwf Hlen Hvalid Hnd Hone Hquiet Hp Ha)
    as (b & p' & Hrun & _ & Hdone & Hrest).
  assert (Hleft : ∀ s a_s (x : ndarray),
    args !! s = Some a_s → (me, x) ∈ payloads (destination a_s) (data a_s) →
    size x = 0 →
    pending s (mailbox p') = [ {| msg_source := s; msg_tag := t; msg_payload := [] |} ]).
  { intros s a_s x Has Hx Hsize.
    destruct (column_of_payload w _ _ _ _ _ Hvalid Hnd Has Hx) as [Hfil Hcol].
    rewrite Hsize in Hcol.
    rewrite (Hrest _ Hcol), Hempty, app_nil_l, pending_arrivals, Has by done.
    unfold outgoing. rewrite Hfil. simpl. apply nil_length_inv in Hsize.
    rewrite Hsize, (Htag a_s); [done|]. by eapply list_elem_of_lookup_2. }
  eexists _, p'. split_and!; [exact Hrun| |exact Hleft].
  intros s.
  destruct (decide (column_of (length w) args me !!! s = 0)) as [Hz|Hnz];
    [|left; by apply Hdone].
  destruct (args !! s) as [a_s|] eqn:Has.
  - rewrite Forall_forall in Hvalid, Hnd.
    assert (Hvs : valid_call (length w) a_s) by (by eapply Hvalid, list_elem_of_lookup_2).
    assert (Hnds : NoDup (destination a_s)) by (by eapply Hnd, list_elem_of_lookup_2).
    pose proof (payloads_destinations _ _ _ Hvs) as Hfst.
    destruct (counts_of_NoDup (length w) (payloads (destination a_s) (data a_s)) me)
      as [[Hnone _]|(x & Hx & Hsize)]; [by rewrite Hfst|rewrite Hfst; apply Hvs| |].
    + left. rewrite (Hrest _ Hz), Hempty, app_nil_l.
      rewrite pending_arrivals, Has; [|done|done|by apply Forall_forall].
      unfold outgoing. by rewrite Hnone.
    + right. apply (Hleft s a_s x Has).
      * assert (Hin : (me, x) ∈ [(me, x)]) by apply list_elem_of_singleton, eq_refl.
        rewrite <- Hx in Hin. by apply list_elem_of_filter in Hin as [_ Hin].
      * rewrite <- (column_of_lookup _ _ _ _ _ Has) in Hsize. by rewrite <- Hsize.
  - left. by rewrite (Hrest _ Hz), Hempty, app_nil_l, pending_arrivals, Has.
Qed.

(** X13.  A payload without elements has an effect on the next round.  The
    group starts with empty queues and makes two rounds of valid calls with
    distinct destinations and one tag.  In the first, rank [s] addresses a
    payload without elements to another rank [me], and this is the only
    payload without elements of that round (so that every other message of
    the two rounds is one that a posted receive matches); in the second, [s]
    addresses a payload with elements to [me].  The receive that [me] posts
    for [s] in the second round is matched with the empty message of the
    first: [me] returns, for [s], the buffer of zeros it allocated, and the
    elements of the second payload are not received. *)
Theorem distribute_after_empty_payload w args1 args2 me s a1 a2 (x1 x2 : ndarray) t :
  wf_world w → (∀ p, p ∈ w → mailbox p = []) →
  length args1 = length w → length args2 = length w →
  Forall (valid_call (length w)) args1 → Forall (valid_call (length w)) args2 →
  Forall (λ a, NoDup (destination a)) args1 →
  Forall (λ a, NoDup (destination a)) args2 →
  (∀ a, a ∈ args1 ++ args2 → tag a = t) →
  me < length w → s ≠ me →
  (∀ r a d x, args1 !! r = Some a → (d, x) ∈ payloads (destination a) (data a) →
              size x = 0 → r = s ∧ d = me) →
  args1 !! s = Some a1 → (me, x1) ∈ payloads (destination a1) (data a1) → size x1 = 0 →
  args2 !! s = Some a2 → (me, x2) ∈ payloads (destination a2) (data a2) → size x2 ≠ 0 →
  ∃ sources recvbuff p2 i,
    distribute_all (snd <$> distribute_all w args1) args2 !! me
    = Some (Returns (sources, recvbuff), p2) ∧
    sources !! i = Some s ∧
    recvbuff !! i = Some (np_zeros (size x2)) ∧
    {| msg_source := s; msg_tag := t; msg_payload := flatten x2 |} ∈ mailbox p2.
Proof.
  intros Hwf Hfresh Hlen1 Hlen2 Hvalid1 Hvalid2 Hnd1 Hnd2 Htag Hme Hsme Honly
         Has1 Hx1 Hsize1 Has2 Hx2 Hsize2.
  destruct (lookup_lt_is_Some_2 w me) as [p Hp]; [done|].
  destruct (lookup_lt_is_Some_2 args1 me) as [am1 Ham1]; [lia|].
  destruct (lookup_lt_is_Some_2 args2 me) as [am2 Ham2]; [lia|].
  assert (Hquiet : quiet w args1).
  { intros r q s' Hq _. rewrite (Hfresh q); [done|]. by eapply list_elem_of_lookup_2. }
  assert (Hempty : mailbox p = []) by (by eapply Hfresh, list_elem_of_lookup_2).
  destruct (distribute_all_leftover w args1 me p am1 t)
    as (r1 & p1 & Hrun1 & Hstale & Hleft); try done.
  { intros a Ha. apply Htag, elem_of_app. by left. }
  specialize (Hleft _ _ _ Has1 Hx1 Hsize1).
  set (w1 := snd <$> distribute_all w args1).
  assert (Hlw1 : length w1 = length w).
  { unfold w1. by rewrite length_fmap, length_distribute_all. }
  assert (Hwf1 : wf_world w1) by (by apply distribute_all_wf).
  assert (Hp1 : w1 !! me = Some p1).
  { unfold w1. by rewrite list_lookup_fmap, Hrun1. }
  rewrite <- Hlw1 in Hlen2, Hvalid2.
  rewrite (distribute_all_lookup _ _ _ _ _ Hp1 Ham2).
  destruct (Hwf1 _ _ Hp1) as (_ & Hdc & _).
  assert (Hv : valid_call (length w1) am2).
  { rewrite Forall_forall in Hvalid2. by eapply Hvalid2, list_elem_of_lookup_2. }
  rewrite (send_recv_run (length w1) _ _ _ _ _ (column_of (length w1) args2 me));
    [|done|done|by apply distribute_net_alltoall].
  rewrite bind_run, complete_receives_run.
  set (column := column_of (length w1) args2 me).
  assert (Htag2 : ∀ a, a ∈ args2 → tag a = t).
  { intros a Ha. apply Htag, elem_of_app. by right. }
  assert (Hqueue : ∀ s', column !!! s' ≠ 0 →
    ∃ a_s x, args2 !! s' = Some a_s ∧
      filter (λ y, y.1 = me) (payloads (destination a_s) (data a_s)) = [(me, x)] ∧
      size x = column !!! s' ∧
      pending s' (mailbox p1 ++ net_arrivals (distribute_net (zip w1 args2) me))
      = pending s' (mailbox p1)
        ++ [ {| msg_source := s'; msg_tag := t; msg_payload := flatten x |} ]).
  { intros s' Hact.
    destruct (active_source_arrival _ _ _ _ Hwf1 Hlen2 Hvalid2 Hnd2 Hact)
      as (a_s & x & Has & Hx & Hsz & Hpend).
    exists a_s, x. split_and!; [done..|].
    rewrite pending_app, Hpend, (Htag2 a_s); [done|]. by eapply list_elem_of_lookup_2. }
  match goal with |- context [for_each_acc ?reqs wait_recv ?bufs ?q] =>
    destruct (wait_loop_first reqs bufs q) as (b & p2 & Hrun & Hgot)
  end.
  - rewrite requests_sources. apply np_where_nonzero_NoDup.
  - rewrite requests_indices. apply NoDup_seq.
  - intros r Hr. apply elem_of_requests in Hr as (i & s' & Hs' & ->). simpl.
    assert (Hact : column !!! s' ≠ 0).
    { apply elem_of_np_where_nonzero. by eapply list_elem_of_lookup_2. }
    destruct (Hqueue s' Hact) as (a_s & x & Has & Hx & Hsz & Hpend).
    change (arrivals (alltoall_columns (zip w1 args2)) (zip w1 args2) me)
      with (net_arrivals (distribute_net (zip w1 args2) me)).
    rewrite Hpend. rewrite (lookup_receive_buffer _ _ _ _ Hs').
    destruct (Hstale s') as [-> | ->]; simpl.
    + eexists _, _, _. split_and!; [done| |done|]; simpl.
      * symmetry. apply Htag2. by eapply list_elem_of_lookup_2.
      * unfold np_zeros, flatten. rewrite length_replicate. unfold size in Hsz. lia.
    + eexists _, _, _. split_and!; [done| |done|]; simpl.
      * symmetry. apply Htag2. by eapply list_elem_of_lookup_2.
      * lia.
  - rewrite Hrun. simpl.
    destruct (column_of_payload w1 _ _ _ _ _ Hvalid2 Hnd2 Has2 Hx2) as [Hfil Hcol].
    assert (Hact : column !!! s ≠ 0) by (unfold column; by rewrite Hcol).
    assert (Hs : s ∈ np_where_nonzero column) by (by apply elem_of_np_where_nonzero).
    apply list_elem_of_lookup in Hs as [i Hi].
    destruct (Hgot {| req_index := i; req_source := s; req_tag := tag am2 |})
      as (m & rest & buf & Hm & Hbuf & Hb & Hrest).
    { unfold requests, enumerate. apply list_elem_of_fmap.
      exists (i, s). split; [done|]. apply list_elem_of_lookup. exists i.
      rewrite lookup_zip_with, lookup_seq_lt by (by eapply lookup_lt_Some).
      simpl. by rewrite Hi. }
    simpl in Hm, Hbuf, Hb, Hrest.
    destruct (Hqueue s Hact) as (a_s & x & Has & Hx & Hsz & Hpend).
    rewrite Has2 in Has. injection Has as <-.
    rewrite Hfil in Hx. injection Hx as <-.
    assert (Heq : m :: rest
      = [ {| msg_source := s; msg_tag := t; msg_payload := [] |};
          {| msg_source := s; msg_tag := t; msg_payload := flatten x2 |} ]).
    { rewrite <- Hm. etrans; [exact Hpend|]. by rewrite Hleft. }
    injection Heq as -> ->.
    rewrite (lookup_receive_buffer _ _ _ _ Hi) in Hbuf. injection Hbuf as <-.
    exists (np_where_nonzero column), b, p2, i. split_and!; [done|done| |].
    + rewrite Hb. simpl. unfold column. by rewrite Hcol.
    + assert (Hin : {| msg_source := s; msg_tag := t; msg_payload := flatten x2 |}
                    ∈ pending s (mailbox p2)).
      { rewrite Hrest. apply list_elem_of_singleton. reflexivity. }
      by apply list_elem_of_filter in Hin as [_ Hin].
Qed.



(** ** The equal division of a "scatter" *)

Lemma scatter_net_default w args root p (d : ndarray) me :
  wf_world w → w !! root = Some p → args !! root = Some (Some d, None) →
  net_scatterv (scatter_net (zip w args) root me)
  = Some (scatterv_part d (replicate (length w) (size d `div` length w)) me).
Proof.
  intros Hwf Hp Ha.
  destruct (Hwf _ _ Hp) as (Hc & _ & _).
  assert (Hrank : Get_rank (comm (self p)) = root) by (by rewrite Hc).
  assert (Hsize : Get_size (comm (self p)) = length w) by (by rewrite Hc).
  assert (Hroot : root < length w) by (by eapply lookup_lt_Some).
  set (c := size d `div` length w).
  unfold scatter_net. simpl. rewrite (lookup_calls _ _ _ _ _ Hp Ha). simpl.
  pose proof (Scatterv_events silent (Some d) (replicate (length w) c)
                (np_ones_times_minus_hundred c) root p) as He.
  unfold events_of in *.
  rewrite scatter_from_root_default by done. rewrite Hsize. fold c.
  rewrite (scatter_from_root_counts _ _ _ _ _ c).
  - rewrite Hrank, decide_True by done. rewrite He.
    unfold size, np_ones_times_minus_hundred. by rewrite length_replicate.
  - rewrite Hrank. by apply lookup_replicate_2.
  - eauto.
Qed.

(** X14.  The default of a "scatter" divides by floor.  The root passes a
    buffer of N elements and no counts; every other rank passes the count
    vector the root works out for itself, floor(N / P) at every entry.
    Every rank [r] returns the floor(N / P) elements that start at position
    r * floor(N / P); together the slices are the first P * floor(N / P)
    elements of the buffer, so the last N mod P elements reach no rank. *)
Theorem scatter_equal_division w args root p_root (d : ndarray) :
  wf_world w → length args = length w →
  w !! root = Some p_root → args !! root = Some (Some d, None) →
  (∀ r a, r ≠ root → args !! r = Some a →
          a.2 = Some (replicate (length w) (size d `div` length w))) →
  ∃ parts,
    Forall2 (λ out part, out.1 = Returns part) (scatter_all w args root) parts ∧
    (∀ r part, parts !! r = Some part →
               part = take (size d `div` length w) (drop (r * (size d `div` length w)) d) ∧
               length part = size d `div` length w) ∧
    concat parts = take (length w * (size d `div` length w)) d.
Proof.
  intros Hwf Hlen Hp Ha Hothers.
  set (c := size d `div` length w).
  assert (Hfit : length w * c ≤ length d) by apply Nat.Div0.mul_div_le.
  exists (scatterv_part d (replicate (length w) c) <$> seq 0 (length w)).
  split_and!.
  - apply Forall2_same_length_lookup_2.
    { by rewrite length_scatter_all, length_fmap, length_seq. }
    intros r out part Hout Hpart.
    rewrite list_lookup_fmap in Hpart.
    destruct (seq 0 (length w) !! r) as [r'|] eqn:Hr; [|done].
    apply lookup_seq in Hr as [-> Hr]. simpl in Hpart. injection Hpart as <-.
    destruct (lookup_lt_is_Some_2 w r) as [p Hpr]; [done|].
    destruct (lookup_lt_is_Some_2 args r) as [[data sc] Har]; [lia|].
    unfold scatter_all in Hout.
    rewrite list_lookup_imap, (lookup_calls _ _ _ _ _ Hpr Har) in Hout. simpl in Hout.
    injection Hout as <-.
    destruct (Hwf _ _ Hpr) as (Hc & _ & _).
    assert (Hrank : Get_rank (comm (self p)) = r) by (by rewrite Hc).
    assert (Hsize : Get_size (comm (self p)) = length w) by (by rewrite Hc).
    assert (Hrun : ∀ net, ∃ sendbuf, scatter_from_root net data sc root p
      = Scatterv net sendbuf (replicate (length w) c)
                 (np_ones_times_minus_hundred c) root p).
    { intros net. destruct (decide (r = root)) as [->|Hne].
      - rewrite Ha in Har. injection Har as <- <-.
        rewrite scatter_from_root_default by done. rewrite Hsize. fold c.
        eexists. apply scatter_from_root_counts.
        + rewrite Hrank. by apply lookup_replicate_2.
        + eauto.
      - pose proof (Hothers _ _ Hne Har) as Hsc. simpl in Hsc. subst sc.
        eexists. apply scatter_from_root_counts.
        + rewrite Hrank. by apply lookup_replicate_2.
        + by rewrite Hrank. }
    destruct (Hrun (scatter_net (zip w args) root r)) as [sendbuf ->].
    assert (Hpart : length (scatterv_part d (replicate (length w) c) r) = c).
    { rewrite length_scatterv_part by (by rewrite sum_list_replicate).
      by apply lookup_total_replicate_2. }
    assert (Hbuf : size (np_ones_times_minus_hundred c) = c) by apply length_replicate.
    rewrite (Scatterv_fits _ _ _ _ (scatterv_part d (replicate (length w) c) r));
      [|exact (scatter_net_default _ _ _ _ _ r Hwf Hp Ha)|by rewrite Hbuf, Hpart].
    rewrite Hpart. simpl.
    by rewrite drop_ge, app_nil_r by (apply Nat.eq_le_incl, Hbuf).
  - intros r part Hpart.
    rewrite list_lookup_fmap in Hpart.
    destruct (seq 0 (length w) !! r) as [r'|] eqn:Hr; [|done].
    apply lookup_seq in Hr as [-> Hr]. simpl in Hpart. injection Hpart as <-.
    rewrite scatterv_part_equal by done. split; [done|].
    rewrite length_take, length_drop. fold c. unfold size in c. nia.
  - pose proof (concat_scatterv_parts d (replicate (length w) c)) as Hcat.
    by rewrite length_replicate, sum_list_replicate in Hcat.
Qed.



(** ** The order of the destinations *)

Lemma filter_to_reordered me (pl pl' : list (nat * ndarray)) x :
  pl ≡ₚ pl' → filter (λ y, y.1 = me) pl = [x] → filter (λ y, y.1 = me) pl' = [x].
Proof.
  intros Hperm Hx. apply Permutation_singleton_r. rewrite <- Hx.
  by apply filter_Permutation.
Qed.

Lemma counts_of_reordered P (pl pl' : list (nat * ndarray)) me :
  NoDup pl.*1 → Forall (λ dest, dest < P) pl.*1 → pl ≡ₚ pl' →
  counts_of P pl !!! me = counts_of P pl' !!! me.
Proof.
  intros Hnd Hr Hperm.
  assert (Hnd' : NoDup pl'.*1) by (by rewrite <- Hperm).
  assert (Hr' : Forall (λ dest, dest < P) pl'.*1) by (by rewrite <- Hperm).
  destruct (counts_of_NoDup P pl me Hnd Hr) as [[Hn ->]|(x & Hx & ->)];
    destruct (counts_of_NoDup P pl' me Hnd' Hr') as [[Hn' ->]|(x' & Hx' & ->)]; try done.
  - apply (filter_to_reordered me _ _ _ (symmetry Hperm)) in Hx'. by rewrite Hn in Hx'.
  - apply (filter_to_reordered me _ _ _ Hperm) in Hx. by rewrite Hn' in Hx.
  - apply (filter_to_reordered me _ _ _ Hperm) in Hx. rewrite Hx' in Hx.
    by injection Hx as ->.
Qed.

Lemma reordered_column w args args' me :
  Forall (valid_call (length w)) args → Forall (λ a, NoDup (destination a)) args →
  Forall2 reordered args args' →
  column_of (length w) args' me = column_of (length w) args me.
Proof.
  intros Hvalid Hnd Hre. apply list_eq. intros s.
  unfold column_of, count_table. rewrite !list_lookup_fmap.
  destruct (args !! s) as [a|] eqn:Ha.
  - destruct (Forall2_lookup_l _ _ _ _ _ Hre Ha) as (a' & Ha' & [_ Hperm]).
    rewrite Ha'. simpl. f_equal. symmetry.
    rewrite Forall_forall in Hvalid, Hnd.
    assert (Hv : valid_call (length w) a) by (by eapply Hvalid, list_elem_of_lookup_2).
    assert (Hn : NoDup (destination a)) by (by eapply Hnd, list_elem_of_lookup_2).
    pose proof (payloads_destinations _ _ _ Hv) as Hfst.
    apply counts_of_reordered; [by rewrite Hfst|rewrite Hfst; apply Hv|done].
  - rewrite (lookup_ge_None_2 args' s); [done|].
    rewrite <- (Forall2_length _ _ _ Hre). by apply lookup_ge_None.
Qed.

(** X15.  The order in which a rank lists its destinations (each with its
    payload) is of no consequence for what the others receive: in a round
    of valid calls with distinct destinations, one tag and nothing left
    over, every rank returns the same sources and the same buffers when the
    (destination, payload) pairs of the calls are permuted. *)
Theorem distribute_order_of_destinations w args args' me :
  wf_world w → length args = length w →
  Forall (valid_call (length w)) args → Forall (valid_call (length w)) args' →
  Forall (λ a, NoDup (destination a)) args →
  one_tag args →
  quiet w args →
  Forall2 reordered args args' →
  me < length w →
  ∃ r p1 p2,
    distribute_all w args !! me = Some (Returns r, p1) ∧
    distribute_all w args' !! me = Some (Returns r, p2).
Proof.
  intros Hwf Hlen Hvalid Hvalid' Hnd Htag Hquiet Hre Hme.
  pose proof (Forall2_length _ _ _ Hre) as Hlen'. rewrite Hlen in Hlen'. symmetry in Hlen'.
  pose proof (reordered_column w _ _ me Hvalid Hnd Hre) as Hcol.
  assert (Hnd' : Forall (λ a, NoDup (destination a)) args').
  { apply Forall_forall. intros a' Ha'. apply list_elem_of_lookup in Ha' as [s Ha'].
    destruct (Forall2_lookup_r _ _ _ _ _ Hre Ha') as (a & Ha & [_ Hperm]).
    rewrite Forall_forall in Hvalid, Hvalid', Hnd.
    rewrite <- (payloads_destinations (length w) (destination a') (data a'))
      by (by eapply Hvalid', list_elem_of_lookup_2).
    rewrite <- Hperm.
    rewrite (payloads_destinations (length w) (destination a) (data a))
      by (by eapply Hvalid, list_elem_of_lookup_2).
    by eapply Hnd, list_elem_of_lookup_2. }
  assert (Htag' : one_tag args').
  { intros a1 a2 H1 H2.
    apply list_elem_of_lookup in H1 as [s1 H1]. apply list_elem_of_lookup in H2 as [s2 H2].
    destruct (Forall2_lookup_r _ _ _ _ _ Hre H1) as (b1 & Hb1 & [<- _]).
    destruct (Forall2_lookup_r _ _ _ _ _ Hre H2) as (b2 & Hb2 & [<- _]).
    apply Htag; by eapply list_elem_of_lookup_2. }
  assert (Hquiet' : quiet w args').
  { intros r p s Hp Hact. apply (Hquiet r p s Hp).
    by rewrite <- (reordered_column w _ _ r Hvalid Hnd Hre). }
  destruct (lookup_lt_is_Some_2 w me) as [p Hp]; [done|].
  destruct (lookup_lt_is_Some_2 args me) as [a Ha]; [lia|].
  destruct (lookup_lt_is_Some_2 args' me) as [a' Ha']; [lia|].
  destruct (distribute_all_delivers _ _ _ _ _ Hwf Hlen Hvalid Hnd Htag Hquiet Hp Ha)
    as (b & p1 & Hrun & Hgot & _).
  destruct (distribute_all_delivers _ _ _ _ _ Hwf Hlen' Hvalid' Hnd' Htag' Hquiet' Hp Ha')
    as (b' & p2 & Hrun' & Hgot' & _).
  rewrite Hcol in Hrun', Hgot'.
  destruct (distribute_all_inv _ _ _ _ _ _ _ Hwf Hlen Hvalid Hp Ha Hrun) as [_ Hr].
  destruct (Hr _ eq_refl) as [_ Hsizes]. simpl in Hsizes.
  destruct (distribute_all_inv _ _ _ _ _ _ _ Hwf Hlen' Hvalid' Hp Ha' Hrun') as [_ Hr'].
  destruct (Hr' _ eq_refl) as [_ Hsizes']. simpl in Hsizes'. rewrite Hcol in Hsizes'.
  apply (f_equal length) in Hsizes, Hsizes'. rewrite !length_fmap in Hsizes, Hsizes'.
  assert (Hb : b' = b).
  { apply list_eq. intros i.
    destruct (np_where_nonzero (column_of (length w) args me) !! i) as [s|] eqn:Hs.
    - destruct (Hgot i s Hs) as (a_s & x & Has & Hx & ->).
      destruct (Hgot' i s Hs) as (a_s' & x' & Has' & Hx' & ->).
      destruct (Forall2_lookup_lr _ _ _ _ _ _ Hre Has Has') as [_ Hperm].
      apply (filter_to_reordered me _ _ _ Hperm) in Hx. rewrite Hx' in Hx.
      by injection Hx as ->.
    - apply lookup_ge_None in Hs.
      rewrite (lookup_ge_None_2 b), (lookup_ge_None_2 b'); [done|lia|lia]. }
  rewrite Hb in Hrun'. eauto.
Qed.

End Properties.

(** * Concrete runs *)

#[local] Existing Instance int64.

Lemma ring_args_valid t : Forall (valid_call 3) (ring_args t).
Proof. unfold ring_args, valid_call, valid_payloads. repeat constructor; simpl; lia. Qed.

Lemma ring_args_distinct t : Forall (λ a : @sr_args Z, NoDup (destination a)) (ring_args t).
Proof. repeat constructor; simpl; set_solver. Qed.

Lemma ring_args_one_tag t : one_tag (ring_args t).
Proof. apply (one_tag_const t). by repeat constructor. Qed.

Lemma twice_to_one_args_valid : Forall (valid_call 2) twice_to_one_args.
Proof.
  unfold twice_to_one_args, valid_call, valid_payloads. repeat constructor; simpl; lia.
Qed.

Lemma twice_to_one_args_one_tag : one_tag twice_to_one_args.
Proof. apply (one_tag_const 0%Z). by repeat constructor. Qed.

(** C1, the claim as stated fails.  All the destinations are in range, but
    rank 0 lists rank 1 twice.  Rank 1 returns the single source 0 with a
    buffer of 3 elements (the later entry of the count table), holding the 2
    elements of the first message, while rank 0 has sent it 5 elements. *)
Lemma distribute_duplicate_destination :
  wf_world (start (elt:=Z) 2) ∧
  length twice_to_one_args = length (start (elt:=Z) 2) ∧
  Forall (valid_call 2) twice_to_one_args ∧
  one_tag twice_to_one_args ∧
  quiet (start 2) twice_to_one_args ∧
  (fst <$> distribute_all (start 2) twice_to_one_args !! 1)
    = Some (Returns ([0], [[1%Z; 2%Z; 0%Z]])) ∧
  elements_sent (start 2) twice_to_one_args 0 1 = 5 ∧
  length [1%Z; 2%Z; 0%Z] ≠ elements_sent (start 2) twice_to_one_args 0 1.
Proof.
  split_and!.
  - apply start_wf.
  - reflexivity.
  - apply twice_to_one_args_valid.
  - apply twice_to_one_args_one_tag.
  - apply start_quiet.
  - vm_compute. reflexivity.
  - vm_compute. reflexivity.
  - vm_compute. lia.
Qed.

Lemma distribute_sources_and_sizes_witness :
  wf_world (start (elt:=Z) 3) ∧
  length (ring_args 7) = length (start (elt:=Z) 3) ∧
  Forall (valid_call (length (start (elt:=Z) 3))) (ring_args 7) ∧
  Forall (λ a : @sr_args Z, NoDup (destination a)) (ring_args 7) ∧
  one_tag (ring_args 7) ∧
  quiet (start 3) (ring_args 7) ∧
  2 < length (start (elt:=Z) 3) ∧
  ∃ sources recvbuff p',
    distribute_all (start 3) (ring_args 7) !! 2
    = Some (Returns (sources, recvbuff), p') ∧
    length recvbuff = length sources ∧
    (∀ i j a b, sources !! i = Some a → sources !! j = Some b → i < j → a < b) ∧
    (∀ s, s ∈ sources ↔ elements_sent (start 3) (ring_args 7) s 2 ≠ 0) ∧
    (∀ i s buf, sources !! i = Some s → recvbuff !! i = Some buf →
                length buf = elements_sent (start 3) (ring_args 7) s 2).
Proof.
  assert (H1 : wf_world (start (elt:=Z) 3)) by apply start_wf.
  assert (H2 : length (ring_args 7) = length (start (elt:=Z) 3)) by reflexivity.
  assert (H3 : Forall (valid_call (length (start (elt:=Z) 3))) (ring_args 7))
    by apply ring_args_valid.
  assert (H4 : Forall (λ a : @sr_args Z, NoDup (destination a)) (ring_args 7))
    by apply ring_args_distinct.
  assert (H5 : one_tag (ring_args 7)) by apply ring_args_one_tag.
  assert (H6 : quiet (start 3) (ring_args 7)) by apply start_quiet.
  assert (H7 : 2 < length (start (elt:=Z) 3)) by (simpl; lia).
  split_and!; try assumption.
  exact (distribute_sources_and_sizes _ _ 2 H1 H2 H3 H4 H5 H6 H7).
Defined.

Lemma route_data_unrecognized_keyword_witness :
  ("reduce" ∉ ["distribute"; "gather"; "scatter"]) ∧
  route_data silent "reduce"
             (KwGather (Some (flat [1%Z])) 0) (start_proc 2 0)
  = (Raises (NameError "method_keyword"), start_proc 2 0).
Proof.
  assert (H : "reduce" ∉ ["distribute"; "gather"; "scatter"]).
  { intros Hin. repeat (apply elem_of_cons in Hin as [Hin|Hin]; [discriminate Hin|]).
    by apply elem_of_nil in Hin. }
  split; [exact H|].
  exact (route_data_unrecognized_keyword silent "reduce" (KwGather (Some (flat [1%Z])) 0) (start_proc 2 0) H).
Defined.

Lemma scatter_without_counts_off_root_witness :
  Get_rank (comm (self (start_proc (elt:=Z) 4 1))) ≠ 0 ∧
  scatter_from_root silent None None 0 (start_proc 4 1)
  = (Raises (TypeError "'NoneType' object is not subscriptable"), start_proc 4 1).
Proof.
  assert (H : Get_rank (comm (self (start_proc (elt:=Z) 4 1))) ≠ 0) by (simpl; lia).
  split; [exact H|].
  exact (scatter_without_counts_off_root silent None 0
           (start_proc 4 1) H).
Defined.

(** The whole round: the root keeps the first two elements and returns; the
    three other ranks raise. *)
Example scatter_ten_over_four_without_counts :
  (fst <$> scatter_all (start 4)
             [(Some ten, None); (None, None); (None, None); (None, None)] 0)
  = [ Returns [0%Z; 1%Z];
      Raises (TypeError "'NoneType' object is not subscriptable");
      Raises (TypeError "'NoneType' object is not subscriptable");
      Raises (TypeError "'NoneType' object is not subscriptable") ].
Proof. vm_compute. reflexivity. Qed.

Lemma scatter_then_gather_witness :
  wf_world (start (elt:=Z) 4) ∧ 0 < length (start (elt:=Z) 4) ∧
  length uneven_args = length (start (elt:=Z) 4) ∧
  length uneven_counts = length (start (elt:=Z) 4) ∧
  sum_list uneven_counts = length ten ∧
  uneven_args !! 0 = Some (Some ten, Some uneven_counts) ∧
  (∀ r a, uneven_args !! r = Some a → a.2 = Some uneven_counts) ∧
  (∀ r, r < length (start (elt:=Z) 4) →
        ∃ p', scatter_all (start 4) uneven_args 0 !! r
              = Some (Returns (scatterv_part ten uneven_counts r), p')) ∧
  ∃ p', gather_all (snd <$> scatter_all (start 4) uneven_args 0)
          (returned <$> scatter_all (start 4) uneven_args 0) 0 !! 0
        = Some (Returns (Some ten, uneven_counts), p').
Proof.
  assert (H1 : wf_world (start (elt:=Z) 4)) by apply start_wf.
  assert (H2 : 0 < length (start (elt:=Z) 4)) by (simpl; lia).
  assert (H3 : length uneven_args = length (start (elt:=Z) 4)) by reflexivity.
  assert (H4 : length uneven_counts = length (start (elt:=Z) 4)) by reflexivity.
  assert (H5 : sum_list uneven_counts = length ten) by reflexivity.
  assert (H6 : uneven_args !! 0 = Some (Some ten, Some uneven_counts)) by reflexivity.
  assert (H7 : ∀ r a, uneven_args !! r = Some a → a.2 = Some uneven_counts).
  { intros [|[|[|[|r]]]] a Ha; simpl in Ha; try discriminate Ha;
      injection Ha as <-; reflexivity. }
  split_and!; try assumption;
    apply (scatter_then_gather (start 4) uneven_args ten uneven_counts 0 H1 H2 H3 H4 H5 H6 H7).
Defined.

Lemma gather_returns_buffer_and_counts_witness :
  wf_world (start (elt:=Z) 3) ∧
  length strided_round = length (start (elt:=Z) 3) ∧
  0 < length (start (elt:=Z) 3) ∧
  start (elt:=Z) 3 !! 1 = Some (start_proc 3 1) ∧
  strided_round !! 1 = Some strided_view ∧
  buffer strided_view = None ∧
  gather_round (start 3) (Some <$> strided_round) 0 !! 1
  = Some (Raises BufferError, log [EvAllgather 2] (start_proc 3 1)).
Proof.
  assert (H1 : wf_world (start (elt:=Z) 3)) by apply start_wf.
  assert (H2 : length strided_round = length (start (elt:=Z) 3)) by reflexivity.
  assert (H3 : 0 < length (start (elt:=Z) 3)) by (simpl; lia).
  assert (H4 : start (elt:=Z) 3 !! 1 = Some (start_proc 3 1)) by reflexivity.
  assert (H5 : strided_round !! 1 = Some strided_view) by reflexivity.
  assert (H6 : buffer strided_view = None) by reflexivity.
  split_and!; try assumption.
  destruct (gather_returns_buffer_and_counts (start 3) strided_round 0 1 _ _
              H1 H2 H3 H4 H5) as (_ & Hraise & _).
  exact (Hraise H6).
Defined.

(** The root waits for the part of rank 1, rank 1 raises. *)
Example gather_with_a_strided_view :
  take 2 (fst <$> gather_round (start 3) (Some <$> strided_round) 0)
  = [ Blocks; Raises BufferError ].
Proof. vm_compute. reflexivity. Qed.

(** With contiguous arrays every rank returns; the Fortran-ordered array of
    rank 1 arrives in memory order, not flattened. *)
Example gather_with_a_fortran_array :
  (fst <$> gather_round (start 3) (Some <$> fortran_round) 0)
  = [ Returns (Some [0%Z; 1%Z; 3%Z; 2%Z; 4%Z; 7%Z], [1; 4; 1]);
      Returns (None, [1; 4; 1]);
      Returns (None, [1; 4; 1]) ].
Proof. vm_compute. reflexivity. Qed.

Lemma broadcast_is_list_of_copies_witness :
  wf_world (start (elt:=Z) 3) ∧
  length (ring_args 7) = length (start (elt:=Z) 3) ∧
  Forall2 (broadcast_or_copies (length (start (elt:=Z) 3))) (ring_args 7) (ring_args_copies 7) ∧
  (∀ rank p a x,
     start 3 !! rank = Some p → ring_args 7 !! rank = Some a → data a = DataArray x →
     Forall (λ dest, dest < length (start (elt:=Z) 3)) (destination a) →
     ∃ p', fill_destination_count (destination a) (DataArray x) p = (Returns tt, p') ∧
           ∀ dest, dest ∈ destination a →
                   destination_count (self p') !! dest = Some (size x)) ∧
  distribute_all (start 3) (ring_args 7)
  = distribute_all (start 3) (ring_args_copies 7) ∧
  ∃ sources recvbuff p' i,
    distribute_all (start 3) (ring_args 7) !! 0 = Some (Returns (sources, recvbuff), p') ∧
    distribute_all (start 3) (ring_args_copies 7) !! 0
    = Some (Returns (sources, recvbuff), p') ∧
    sources !! i = Some 2 ∧
    recvbuff !! i = Some (flatten [30%Z; 31%Z; 32%Z]).
Proof.
  assert (H1 : wf_world (start (elt:=Z) 3)) by apply start_wf.
  assert (H2 : length (ring_args 7) = length (start (elt:=Z) 3)) by reflexivity.
  assert (H3 : Forall2 (broadcast_or_copies (length (start (elt:=Z) 3)))
                       (ring_args 7) (ring_args_copies 7)).
  { constructor; [by split_and!; [| |left]|].
    constructor; [by split_and!; [| |left]|].
    constructor; [|constructor].
    split_and!; [reflexivity|reflexivity|]. right.
    split; [repeat constructor; simpl; lia|]. by exists [30%Z; 31%Z; 32%Z]. }
  destruct (broadcast_is_list_of_copies (start 3) (ring_args 7)
              (ring_args_copies 7) H1 H2 H3) as (Hfill & Hsame & _ & Hrecv).
  split_and!; try assumption.
  apply (Hrecv (ring_args_valid 7) (ring_args_distinct 7) (ring_args_one_tag 7)
               (start_quiet 3 (ring_args 7)) 2
               {| destination := [0]; data := DataArray [30%Z; 31%Z; 32%Z]; tag := 7%Z |}
               [30%Z; 31%Z; 32%Z] 0).
  - reflexivity.
  - reflexivity.
  - apply list_elem_of_singleton. reflexivity.
  - simpl. lia.
Defined.

Lemma distribute_twice_witness :
  ∃ o1 p1 o2 p2,
    wf_world (start (elt:=Z) 3) ∧
    length (ring_args 7) = length (start (elt:=Z) 3) ∧
    Forall (valid_call (length (start (elt:=Z) 3))) (ring_args 7) ∧
    Forall2 same_payloads (ring_args 7) (ring_args 8) ∧
    distribute_all (start 3) (ring_args 7) !! 1 = Some (o1, p1) ∧
    distribute_all (snd <$> distribute_all (start 3) (ring_args 7))
                   (ring_args 8) !! 1 = Some (o2, p2) ∧
    self p2 = self p1 ∧
    (∀ r1 r2, o1 = Returns r1 → o2 = Returns r2 →
              r1.1 = r2.1 ∧ length <$> r1.2 = length <$> r2.2) ∧
    ∃ r1 r2, o1 = Returns r1 ∧ o2 = Returns r2.
Proof.
  assert (H1 : wf_world (start (elt:=Z) 3)) by apply start_wf.
  assert (H2 : length (ring_args 7) = length (start (elt:=Z) 3)) by reflexivity.
  assert (H3 : Forall (valid_call (length (start (elt:=Z) 3))) (ring_args 7))
    by apply ring_args_valid.
  assert (H4 : Forall2 same_payloads (ring_args 7) (ring_args 8))
    by (repeat constructor).
  destruct (distribute_all (start 3) (ring_args 7) !! 1)
    as [[o1 p1]|] eqn:H5; [|vm_compute in H5; discriminate H5].
  destruct (distribute_all (snd <$> distribute_all (start 3) (ring_args 7))
                           (ring_args 8) !! 1)
    as [[o2 p2]|] eqn:H6; [|vm_compute in H6; discriminate H6].
  exists o1, p1, o2, p2.
  destruct (distribute_twice (start 3) (ring_args 7) (ring_args 8) 1
              o1 p1 o2 p2 H1 H2 H3 H4 H5 H6) as (Hself & Hsame & Hret).
  split_and!; try assumption; try reflexivity.
  apply Hret.
  - apply ring_args_distinct.
  - apply ring_args_one_tag.
  - apply ring_args_one_tag.
  - apply start_quiet.
Defined.

Lemma destination_count_after_fill_witness :
  length (destination_count (self (start_proc (elt:=Z) 3 0))) = 3 ∧
  valid_payloads 3 [1; 1; 2] (DataList [[1%Z]; [2%Z; 3%Z]; [4%Z]]) ∧
  ∃ p', fill_destination_count [1; 1; 2] (DataList [[1%Z]; [2%Z; 3%Z]; [4%Z]])
          (start_proc 3 0) = (Returns tt, p') ∧
    length (destination_count (self p')) = 3 ∧
    (∀ r, r < 3 → r ∉ [1; 1; 2] → destination_count (self p') !! r = Some 0) ∧
    (∀ i r a, [1; 1; 2] !! i = Some r → [[1%Z]; [2%Z; 3%Z]; [4%Z]] !! i = Some a →
              (∀ j, i < j → [1; 1; 2] !! j ≠ Some r) →
              destination_count (self p') !! r = Some (size a)).
Proof.
  assert (H1 : length (destination_count (self (start_proc (elt:=Z) 3 0))) = 3)
    by reflexivity.
  assert (H2 : valid_payloads 3 [1; 1; 2] (DataList [[1%Z]; [2%Z; 3%Z]; [4%Z]])).
  { split; [repeat constructor; lia|simpl; lia]. }
  split_and!; try assumption.
  exact (destination_count_after_fill 3 [1; 1; 2] [[1%Z]; [2%Z; 3%Z]; [4%Z]]
           (start_proc 3 0) H1 H2).
Defined.

Lemma send_recv_order_witness :
  ∃ o p',
    length (destination_count (self (start_proc (elt:=Z) 2 0))) = 2 ∧
    valid_payloads 2 [1] (DataArray [5%Z; 6%Z]) ∧
    net_alltoall order_net = Some [0; 1] ∧
    send_recv order_net [1] (DataArray [5%Z; 6%Z]) 3%Z (start_proc 2 0) = (o, p') ∧
    o = Returns ([1], [[9%Z]]) ∧
    trace p' = [ EvAlltoall [0; 2]; EvIrecv 1 3%Z 1; EvIsend 1 3%Z [5%Z; 6%Z];
                 EvWaitSend 1; EvWaitRecv 1 ].
Proof.
  assert (H1 : length (destination_count (self (start_proc (elt:=Z) 2 0))) = 2)
    by reflexivity.
  assert (H2 : valid_payloads 2 [1] (DataArray [5%Z; 6%Z])).
  { split; [repeat constructor; lia|exact I]. }
  assert (H3 : net_alltoall order_net = Some [0; 1]) by reflexivity.
  destruct (send_recv order_net [1] (DataArray [5%Z; 6%Z]) 3%Z (start_proc 2 0))
    as [o p'] eqn:H4.
  exists o, p'.
  assert (Ho : o = Returns ([1], [[9%Z]])).
  { vm_compute in H4. by injection H4 as <- _. }
  split_and!; try assumption; try reflexivity.
  destruct (send_recv_order 2 order_net [1] (DataArray [5%Z; 6%Z]) 3%Z
              (start_proc 2 0) [0; 1] o p' H1 H2 H3 H4) as (_ & _ & Hret).
  destruct (Hret _ Ho) as [_ Htrace]. exact Htrace.
Defined.

(** ** Concrete runs of the further properties *)

Ltac solve_distinct :=
  repeat constructor; simpl; rewrite ?not_elem_of_cons;
  repeat split; (lia || apply not_elem_of_nil).

Lemma start_empty_queues P (p : @proc Z) : p ∈ start P → mailbox p = [].
Proof.
  unfold start. intros Hp. apply list_elem_of_fmap in Hp as (r & -> & _). reflexivity.
Qed.

Lemma empty_first_args_valid : Forall (valid_call 2) empty_first_args.
Proof. unfold valid_call, valid_payloads. repeat constructor; simpl; lia. Qed.

Lemma empty_first_args_distinct :
  Forall (λ a : @sr_args Z, NoDup (destination a)) empty_first_args.
Proof. solve_distinct. Qed.

Lemma two_next_args_valid : Forall (valid_call 2) two_next_args.
Proof. unfold valid_call, valid_payloads. repeat constructor; simpl; lia. Qed.

Lemma two_next_args_distinct :
  Forall (λ a : @sr_args Z, NoDup (destination a)) two_next_args.
Proof. solve_distinct. Qed.

Lemma fan_args_valid : Forall (valid_call 3) fan_args.
Proof. unfold valid_call, valid_payloads. repeat constructor; simpl; lia. Qed.

Lemma fan_args_swapped_valid : Forall (valid_call 3) fan_args_swapped.
Proof. unfold valid_call, valid_payloads. repeat constructor; simpl; lia. Qed.

Lemma fan_args_distinct : Forall (λ a : @sr_args Z, NoDup (destination a)) fan_args.
Proof. solve_distinct. Qed.

Lemma two_tags_args_valid : Forall (valid_call 2) two_tags_args.
Proof. unfold valid_call, valid_payloads. repeat constructor; simpl; lia. Qed.

Lemma two_tags_args_distinct :
  Forall (λ a : @sr_args Z, NoDup (destination a)) two_tags_args.
Proof. solve_distinct. Qed.

Lemma distribute_delivers_payloads_witness :
  wf_world (start (elt:=Z) 3) ∧
  length (ring_args 7) = length (start (elt:=Z) 3) ∧
  Forall (valid_call (length (start (elt:=Z) 3))) (ring_args 7) ∧
  Forall (λ a : @sr_args Z, NoDup (destination a)) (ring_args 7) ∧
  one_tag (ring_args 7) ∧
  quiet (start 3) (ring_args 7) ∧
  0 < length (start (elt:=Z) 3) ∧
  ∃ sources recvbuff p',
    distribute_all (start 3) (ring_args 7) !! 0
    = Some (Returns (sources, recvbuff), p') ∧
    (∀ s a x, ring_args 7 !! s = Some a → (0, x) ∈ payloads (destination a) (data a) →
              size x ≠ 0 →
              ∃ i, sources !! i = Some s ∧ recvbuff !! i = Some (flatten x)) ∧
    (∀ i s, sources !! i = Some s →
            ∃ a x, ring_args 7 !! s = Some a ∧
                   (0, x) ∈ payloads (destination a) (data a) ∧
                   size x ≠ 0 ∧
                   recvbuff !! i = Some (flatten x)).
Proof.
  assert (H1 : wf_world (start (elt:=Z) 3)) by apply start_wf.
  assert (H2 : length (ring_args 7) = length (start (elt:=Z) 3)) by reflexivity.
  assert (H3 : Forall (valid_call (length (start (elt:=Z) 3))) (ring_args 7))
    by apply ring_args_valid.
  assert (H4 : Forall (λ a : @sr_args Z, NoDup (destination a)) (ring_args 7))
    by apply ring_args_distinct.
  assert (H5 : one_tag (ring_args 7)) by apply ring_args_one_tag.
  assert (H6 : quiet (start 3) (ring_args 7)) by apply start_quiet.
  assert (H7 : 0 < length (start (elt:=Z) 3)) by (simpl; lia).
  split_and!; try assumption.
  exact (distribute_delivers_payloads _ _ 0 H1 H2 H3 H4 H5 H6 H7).
Defined.

Lemma distribute_leaves_empty_messages_witness :
  wf_world (start (elt:=Z) 2) ∧
  length empty_first_args = length (start (elt:=Z) 2) ∧
  Forall (valid_call (length (start (elt:=Z) 2))) empty_first_args ∧
  Forall (λ a : @sr_args Z, NoDup (destination a)) empty_first_args ∧
  one_tag empty_first_args ∧
  quiet (start 2) empty_first_args ∧
  start (elt:=Z) 2 !! 1 = Some (start_proc 2 1) ∧
  ∃ r p',
    distribute_all (start 2) empty_first_args !! 1 = Some (Returns r, p') ∧
    (∀ s, s ∈ r.1 → pending s (mailbox p') = []) ∧
    (∀ m, m ∈ mailbox p' → m ∈ mailbox (start_proc (elt:=Z) 2 1) ∨ msg_payload m = []).
Proof.
  assert (H1 : wf_world (start (elt:=Z) 2)) by apply start_wf.
  assert (H2 : length empty_first_args = length (start (elt:=Z) 2)) by reflexivity.
  assert (H3 : Forall (valid_call (length (start (elt:=Z) 2))) empty_first_args)
    by apply empty_first_args_valid.
  assert (H4 : Forall (λ a : @sr_args Z, NoDup (destination a)) empty_first_args)
    by apply empty_first_args_distinct.
  assert (H5 : one_tag empty_first_args).
  { apply (one_tag_const 0%Z). by repeat constructor. }
  assert (H6 : quiet (start 2) empty_first_args) by apply start_quiet.
  assert (H7 : start 2 !! 1 = Some (start_proc (elt:=Z) 2 1)) by reflexivity.
  split_and!; try assumption.
  exact (distribute_leaves_empty_messages _ _ 1 _ H1 H2 H3 H4 H5 H6 H7).
Defined.

Lemma distribute_empty_payload_stays_witness :
  wf_world (start (elt:=Z) 2) ∧
  length empty_first_args = length (start (elt:=Z) 2) ∧
  Forall (valid_call (length (start (elt:=Z) 2))) empty_first_args ∧
  Forall (λ a : @sr_args Z, NoDup (destination a)) empty_first_args ∧
  one_tag empty_first_args ∧
  quiet (start 2) empty_first_args ∧
  start (elt:=Z) 2 !! 1 = Some (start_proc 2 1) ∧
  empty_first_args !! 0
  = Some {| destination := [1]; data := DataList [[]]; tag := 0%Z |} ∧
  (1, []) ∈ payloads [1] (DataList [([] : list Z)]) ∧
  size ([] : list Z) = 0 ∧
  ∃ r p',
    distribute_all (start 2) empty_first_args !! 1 = Some (Returns r, p') ∧
    (0 ∉ r.1) ∧
    {| msg_source := 0; msg_tag := 0%Z; msg_payload := [] |} ∈ mailbox p'.
Proof.
  assert (H1 : wf_world (start (elt:=Z) 2)) by apply start_wf.
  assert (H2 : length empty_first_args = length (start (elt:=Z) 2)) by reflexivity.
  assert (H3 : Forall (valid_call (length (start (elt:=Z) 2))) empty_first_args)
    by apply empty_first_args_valid.
  assert (H4 : Forall (λ a : @sr_args Z, NoDup (destination a)) empty_first_args)
    by apply empty_first_args_distinct.
  assert (H5 : one_tag empty_first_args).
  { apply (one_tag_const 0%Z). by repeat constructor. }
  assert (H6 : quiet (start 2) empty_first_args) by apply start_quiet.
  assert (H7 : start 2 !! 1 = Some (start_proc (elt:=Z) 2 1)) by reflexivity.
  assert (H8 : empty_first_args !! 0
               = Some {| destination := [1]; data := DataList [[]]; tag := 0%Z |})
    by reflexivity.
  assert (H9 : (1, []) ∈ payloads [1] (DataList [([] : list Z)])).
  { simpl. apply list_elem_of_singleton. reflexivity. }
  assert (H10 : size ([] : list Z) = 0) by reflexivity.
  split_and!; try assumption.
  exact (distribute_empty_payload_stays _ _ 1 _ 0 _ [] H1 H2 H3 H4 H5 H6 H7 H8 H9 H10).
Defined.

Lemma distribute_nothing_addressed_witness :
  wf_world (start (elt:=Z) 2) ∧
  length empty_first_args = length (start (elt:=Z) 2) ∧
  Forall (valid_call (length (start (elt:=Z) 2))) empty_first_args ∧
  start (elt:=Z) 2 !! 1 = Some (start_proc 2 1) ∧
  empty_first_args !! 1 = Some {| destination := []; data := DataList []; tag := 0%Z |} ∧
  destination {| destination := []; data := DataList ([] : list (list Z)); tag := 0%Z |}
  = [] ∧
  (∀ a x, a ∈ empty_first_args → (1, x) ∈ payloads (destination a) (data a) →
          size x = 0) ∧
  ∃ p', distribute_all (start 2) empty_first_args !! 1 = Some (Returns ([], []), p') ∧
        trace p' = trace (start_proc (elt:=Z) 2 1)
                   ++ [EvAlltoall (replicate (length (start (elt:=Z) 2)) 0)] ∧
        mailbox p' = mailbox (start_proc (elt:=Z) 2 1)
                     ++ net_arrivals (distribute_net (zip (start 2) empty_first_args) 1).
Proof.
  assert (H1 : wf_world (start (elt:=Z) 2)) by apply start_wf.
  assert (H2 : length empty_first_args = length (start (elt:=Z) 2)) by reflexivity.
  assert (H3 : Forall (valid_call (length (start (elt:=Z) 2))) empty_first_args)
    by apply empty_first_args_valid.
  assert (H4 : start 2 !! 1 = Some (start_proc (elt:=Z) 2 1)) by reflexivity.
  assert (H5 : empty_first_args !! 1
               = Some {| destination := []; data := DataList []; tag := 0%Z |})
    by reflexivity.
  assert (H6 : destination {| destination := []; data := DataList ([] : list (list Z));
                              tag := 0%Z |} = []) by reflexivity.
  assert (H7 : ∀ a x, a ∈ empty_first_args →
                      (1, x) ∈ payloads (destination a) (data a) → size x = 0).
  { intros a x Ha Hx. unfold empty_first_args in Ha.
    apply elem_of_cons in Ha as [->|Ha].
    - simpl in Hx. apply list_elem_of_singleton in Hx. by injection Hx as ->.
    - apply list_elem_of_singleton in Ha as ->. simpl in Hx.
      by apply elem_of_nil in Hx. }
  split_and!; try assumption.
  exact (distribute_nothing_addressed _ _ 1 _ _ H1 H2 H3 H4 H5 H6 H7).
Defined.

Lemma distribute_counts_transposed_witness :
  ∃ o p' o_s p_s,
    wf_world (start (elt:=Z) 3) ∧
    length (ring_args 7) = length (start (elt:=Z) 3) ∧
    Forall (valid_call (length (start (elt:=Z) 3))) (ring_args 7) ∧
    distribute_all (start 3) (ring_args 7) !! 2 = Some (o, p') ∧
    distribute_all (start 3) (ring_args 7) !! 1 = Some (o_s, p_s) ∧
    source_count (self p') !! 1 = destination_count (self p_s) !! 2 ∧
    length (source_count (self p')) = length (start (elt:=Z) 3) ∧
    length (destination_count (self p_s)) = length (start (elt:=Z) 3).
Proof.
  assert (H1 : wf_world (start (elt:=Z) 3)) by apply start_wf.
  assert (H2 : length (ring_args 7) = length (start (elt:=Z) 3)) by reflexivity.
  assert (H3 : Forall (valid_call (length (start (elt:=Z) 3))) (ring_args 7))
    by apply ring_args_valid.
  destruct (distribute_all (start 3) (ring_args 7) !! 2)
    as [[o p']|] eqn:H4; [|vm_compute in H4; discriminate H4].
  destruct (distribute_all (start 3) (ring_args 7) !! 1)
    as [[o_s p_s]|] eqn:H5; [|vm_compute in H5; discriminate H5].
  exists o, p', o_s, p_s.
  split_and!; try assumption; try reflexivity;
    apply (distribute_counts_transposed (start 3) (ring_args 7) 2 1 o p' o_s p_s
             H1 H2 H3 H4 H5).
Defined.

Lemma distribute_invalid_call_hangs_witness :
  wf_world (start (elt:=Z) 2) ∧
  length out_of_range_args = length (start (elt:=Z) 2) ∧
  start (elt:=Z) 2 !! 0 = Some (start_proc 2 0) ∧
  out_of_range_args !! 0
  = Some {| destination := [5]; data := DataArray [1%Z]; tag := 0%Z |} ∧
  ¬ valid_call (length (start (elt:=Z) 2))
      {| destination := [5]; data := DataArray [1%Z]; tag := 0%Z |} ∧
  (∃ p', distribute_all (start 2) out_of_range_args !! 0
         = Some (Raises IndexError, p') ∧
         trace p' = trace (start_proc (elt:=Z) 2 0) ∧
         source_count (self p') = source_count (self (start_proc (elt:=Z) 2 0))) ∧
  (∀ r p a, start 2 !! r = Some p → out_of_range_args !! r = Some a →
            valid_call (length (start (elt:=Z) 2)) a →
            ∃ p', distribute_all (start 2) out_of_range_args !! r = Some (Blocks, p') ∧
                  trace p' = trace p ++ [EvAlltoall (counts_of (length (start (elt:=Z) 2))
                                           (payloads (destination a) (data a)))]).
Proof.
  assert (H1 : wf_world (start (elt:=Z) 2)) by apply start_wf.
  assert (H2 : length out_of_range_args = length (start (elt:=Z) 2)) by reflexivity.
  assert (H3 : start (elt:=Z) 2 !! 0 = Some (start_proc 2 0)) by reflexivity.
  assert (H4 : out_of_range_args !! 0
               = Some {| destination := [5]; data := DataArray [1%Z]; tag := 0%Z |})
    by reflexivity.
  assert (H5 : ¬ valid_call (length (start (elt:=Z) 2))
                   {| destination := [5]; data := DataArray [1%Z]; tag := 0%Z |}).
  { intros [H _]. simpl in H. inversion H. lia. }
  split_and!; try assumption;
    apply (distribute_invalid_call_hangs (start 2) out_of_range_args 0 _ _ H1 H2 H3 H4 H5).
Defined.

Lemma distribute_tag_mismatch_blocks_witness :
  wf_world (start (elt:=Z) 2) ∧
  length two_tags_args = length (start (elt:=Z) 2) ∧
  Forall (valid_call (length (start (elt:=Z) 2))) two_tags_args ∧
  Forall (λ a : @sr_args Z, NoDup (destination a)) two_tags_args ∧
  quiet (start 2) two_tags_args ∧
  start (elt:=Z) 2 !! 1 = Some (start_proc 2 1) ∧
  two_tags_args !! 1 = Some {| destination := []; data := DataList []; tag := 2%Z |} ∧
  two_tags_args !! 0
  = Some {| destination := [1]; data := DataArray [1%Z]; tag := 1%Z |} ∧
  (1, [1%Z]) ∈ payloads [1] (DataArray [1%Z]) ∧
  size [1%Z] ≠ 0 ∧
  1%Z ≠ 2%Z ∧
  ∃ p', distribute_all (start 2) two_tags_args !! 1 = Some (Blocks, p').
Proof.
  assert (H1 : wf_world (start (elt:=Z) 2)) by apply start_wf.
  assert (H2 : length two_tags_args = length (start (elt:=Z) 2)) by reflexivity.
  assert (H3 : Forall (valid_call (length (start (elt:=Z) 2))) two_tags_args)
    by apply two_tags_args_valid.
  assert (H4 : Forall (λ a : @sr_args Z, NoDup (destination a)) two_tags_args)
    by apply two_tags_args_distinct.
  assert (H5 : quiet (start 2) two_tags_args) by apply start_quiet.
  assert (H6 : start (elt:=Z) 2 !! 1 = Some (start_proc 2 1)) by reflexivity.
  assert (H7 : two_tags_args !! 1
               = Some {| destination := []; data := DataList []; tag := 2%Z |})
    by reflexivity.
  assert (H8 : two_tags_args !! 0
               = Some {| destination := [1]; data := DataArray [1%Z]; tag := 1%Z |})
    by reflexivity.
  assert (H9 : (1, [1%Z]) ∈ payloads [1] (DataArray [1%Z])).
  { simpl. apply list_elem_of_singleton. reflexivity. }
  assert (H10 : size [1%Z] ≠ 0) by (simpl; lia).
  assert (H11 : 1%Z ≠ 2%Z) by lia.
  split_and!; try assumption.
  exact (distribute_tag_mismatch_blocks _ _ 1 _ _ 0 _ [1%Z]
           H1 H2 H3 H4 H5 H6 H7 H8 H9 H10 H11).
Defined.

Lemma fortran_round_contiguous : Forall contiguous fortran_round.
Proof. repeat constructor; eexists; split; reflexivity. Qed.

Lemma gather_collects_in_rank_order_witness :
  wf_world (start (elt:=Z) 3) ∧
  length fortran_round = length (start (elt:=Z) 3) ∧
  2 < length (start (elt:=Z) 3) ∧
  Forall contiguous fortran_round ∧
  ∃ buf counts p',
    gather_round (start 3) (Some <$> fortran_round) 2 !! 2
    = Some (Returns (Some buf, counts), p') ∧
    buf = concat (memory_of <$> fortran_round) ∧
    (∀ r d, fortran_round !! r = Some d →
            take (size (elements d)) (drop (sum_list (take r counts)) buf) = memory_of d) ∧
    (Forall (λ d, buffer d = Some (elements d)) fortran_round →
     buf = concat ((λ d, flatten (elements d)) <$> fortran_round)).
Proof.
  assert (H1 : wf_world (start (elt:=Z) 3)) by apply start_wf.
  assert (H2 : length fortran_round = length (start (elt:=Z) 3)) by reflexivity.
  assert (H3 : 2 < length (start (elt:=Z) 3)) by (simpl; lia).
  assert (H4 : Forall contiguous fortran_round) by apply fortran_round_contiguous.
  split_and!; try assumption.
  exact (gather_collects_in_rank_order (start 3) fortran_round 2 H1 H2 H3 H4).
Defined.

Lemma gather_then_scatter_witness :
  wf_world (start (elt:=Z) 3) ∧
  length fortran_round = length (start (elt:=Z) 3) ∧
  2 < length (start (elt:=Z) 3) ∧
  Forall contiguous fortran_round ∧
  fortran_round !! 1
  = Some {| elements := [1%Z; 2%Z; 3%Z; 4%Z]; buffer := Some [1%Z; 3%Z; 2%Z; 4%Z] |} ∧
  ∃ p', scatter_all (snd <$> gather_round (start 3) (Some <$> fortran_round) 2)
                    (scatter_back (gather_round (start 3) (Some <$> fortran_round) 2))
                    2 !! 1
        = Some (Returns [1%Z; 3%Z; 2%Z; 4%Z], p').
Proof.
  assert (H1 : wf_world (start (elt:=Z) 3)) by apply start_wf.
  assert (H2 : length fortran_round = length (start (elt:=Z) 3)) by reflexivity.
  assert (H3 : 2 < length (start (elt:=Z) 3)) by (simpl; lia).
  assert (H4 : Forall contiguous fortran_round) by apply fortran_round_contiguous.
  assert (H5 : fortran_round !! 1
               = Some {| elements := [1%Z; 2%Z; 3%Z; 4%Z];
                         buffer := Some [1%Z; 3%Z; 2%Z; 4%Z] |}) by reflexivity.
  split_and!; try assumption.
  exact (gather_then_scatter (start 3) fortran_round 2 1 _ H1 H2 H3 H4 H5).
Defined.


Lemma scatter_root_without_data_hangs_witness :
  wf_world (start (elt:=Z) 2) ∧
  start (elt:=Z) 2 !! 0 = Some (start_proc 2 0) ∧
  no_data_args !! 0 = Some (None, Some [1; 1]) ∧
  scatter_all (start 2) no_data_args 0 !! 0
  = Some (Raises (AttributeError "flatten"), start_proc 2 0) ∧
  ∀ r p data counts n,
    r ≠ 0 → start 2 !! r = Some p → no_data_args !! r = Some (data, Some counts) →
    counts !! r = Some n →
    scatter_all (start 2) no_data_args 0 !! r
    = Some (if decide (n = 0) then Returns [] else Blocks,
            log [EvScatterv None counts n 0] p).
Proof.
  assert (H1 : wf_world (start (elt:=Z) 2)) by apply start_wf.
  assert (H2 : start (elt:=Z) 2 !! 0 = Some (start_proc 2 0)) by reflexivity.
  assert (H3 : no_data_args !! 0 = Some (None, Some [1; 1])) by reflexivity.
  split_and!; try assumption;
    apply (scatter_root_without_data_hangs (start 2) no_data_args 0 _ _ H1 H2 H3).
Defined.

Lemma gather_without_data_hangs_witness :
  start (elt:=Z) 2 !! 1 = Some (start_proc 2 1) ∧
  one_missing !! 1 = Some None ∧
  gather_all (start 2) one_missing 0 !! 1
  = Some (Raises (AttributeError "size"), start_proc 2 1) ∧
  ∀ r p (d : list Z),
    start 2 !! r = Some p → one_missing !! r = Some (Some d) →
    gather_all (start 2) one_missing 0 !! r = Some (Blocks, log [EvAllgather (size d)] p).
Proof.
  assert (H1 : start (elt:=Z) 2 !! 1 = Some (start_proc 2 1)) by reflexivity.
  assert (H2 : one_missing !! 1 = Some None) by reflexivity.
  split_and!; try assumption;
    apply (gather_without_data_hangs (start 2) one_missing 0 1 _ H1 H2).
Defined.

Lemma distribute_after_empty_payload_witness :
  wf_world (start (elt:=Z) 2) ∧
  (∀ p, p ∈ start (elt:=Z) 2 → mailbox p = []) ∧
  length empty_first_args = length (start (elt:=Z) 2) ∧
  length two_next_args = length (start (elt:=Z) 2) ∧
  Forall (valid_call (length (start (elt:=Z) 2))) empty_first_args ∧
  Forall (valid_call (length (start (elt:=Z) 2))) two_next_args ∧
  Forall (λ a : @sr_args Z, NoDup (destination a)) empty_first_args ∧
  Forall (λ a : @sr_args Z, NoDup (destination a)) two_next_args ∧
  (∀ a, a ∈ empty_first_args ++ two_next_args → tag a = 0%Z) ∧
  1 < length (start (elt:=Z) 2) ∧
  0 ≠ 1 ∧
  (∀ r a d x, empty_first_args !! r = Some a →
              (d, x) ∈ payloads (destination a) (data a) → size x = 0 → r = 0 ∧ d = 1) ∧
  empty_first_args !! 0
  = Some {| destination := [1]; data := DataList [[]]; tag := 0%Z |} ∧
  (1, []) ∈ payloads [1] (DataList [([] : list Z)]) ∧
  size ([] : list Z) = 0 ∧
  two_next_args !! 0
  = Some {| destination := [1]; data := DataList [[5%Z; 6%Z]]; tag := 0%Z |} ∧
  (1, [5%Z; 6%Z]) ∈ payloads [1] (DataList [[5%Z; 6%Z]]) ∧
  size [5%Z; 6%Z] ≠ 0 ∧
  ∃ sources recvbuff p2 i,
    distribute_all (snd <$> distribute_all (start 2) empty_first_args) two_next_args !! 1
    = Some (Returns (sources, recvbuff), p2) ∧
    sources !! i = Some 0 ∧
    recvbuff !! i = Some (np_zeros (size [5%Z; 6%Z])) ∧
    {| msg_source := 0; msg_tag := 0%Z; msg_payload := flatten [5%Z; 6%Z] |} ∈ mailbox p2.
Proof.
  assert (H1 : wf_world (start (elt:=Z) 2)) by apply start_wf.
  assert (H2 : ∀ p, p ∈ start (elt:=Z) 2 → mailbox p = [])
    by apply start_empty_queues.
  assert (H3 : length empty_first_args = length (start (elt:=Z) 2)) by reflexivity.
  assert (H4 : length two_next_args = length (start (elt:=Z) 2)) by reflexivity.
  assert (H5 : Forall (valid_call (length (start (elt:=Z) 2))) empty_first_args)
    by apply empty_first_args_valid.
  assert (H6 : Forall (valid_call (length (start (elt:=Z) 2))) two_next_args)
    by apply two_next_args_valid.
  assert (H7 : Forall (λ a : @sr_args Z, NoDup (destination a)) empty_first_args)
    by apply empty_first_args_distinct.
  assert (H8 : Forall (λ a : @sr_args Z, NoDup (destination a)) two_next_args)
    by apply two_next_args_distinct.
  assert (H9 : ∀ a, a ∈ empty_first_args ++ two_next_args → tag a = 0%Z).
  { intros a Ha. simpl in Ha.
    repeat (apply elem_of_cons in Ha as [->|Ha]; [reflexivity|]).
    by apply elem_of_nil in Ha. }
  assert (H10 : 1 < length (start (elt:=Z) 2)) by (simpl; lia).
  assert (Hne : 0 ≠ 1) by lia.
  assert (Honly : ∀ r a d x, empty_first_args !! r = Some a →
                    (d, x) ∈ payloads (destination a) (data a) → size x = 0 →
                    r = 0 ∧ d = 1).
  { intros [|[|r]] a d x Ha Hx _; simpl in Ha; try discriminate Ha; injection Ha as <-.
    - simpl in Hx. apply list_elem_of_singleton in Hx. by injection Hx as -> _.
    - simpl in Hx. by apply elem_of_nil in Hx. }
  assert (H11 : empty_first_args !! 0
                = Some {| destination := [1]; data := DataList [[]]; tag := 0%Z |})
    by reflexivity.
  assert (H12 : (1, []) ∈ payloads [1] (DataList [([] : list Z)])).
  { simpl. apply list_elem_of_singleton. reflexivity. }
  assert (H13 : size ([] : list Z) = 0) by reflexivity.
  assert (H14 : two_next_args !! 0
                = Some {| destination := [1]; data := DataList [[5%Z; 6%Z]]; tag := 0%Z |})
    by reflexivity.
  assert (H15 : (1, [5%Z; 6%Z]) ∈ payloads [1] (DataList [[5%Z; 6%Z]])).
  { simpl. apply list_elem_of_singleton. reflexivity. }
  assert (H16 : size [5%Z; 6%Z] ≠ 0) by (simpl; lia).
  split_and!; try assumption.
  exact (distribute_after_empty_payload (start 2) empty_first_args two_next_args 1 0
           _ _ [] [5%Z; 6%Z] 0%Z
           H1 H2 H3 H4 H5 H6 H7 H8 H9 H10 Hne Honly H11 H12 H13 H14 H15 H16).
Defined.

Lemma scatter_equal_division_witness :
  wf_world (start (elt:=Z) 4) ∧
  length equal_args = length (start (elt:=Z) 4) ∧
  start (elt:=Z) 4 !! 0 = Some (start_proc 4 0) ∧
  equal_args !! 0 = Some (Some ten, None) ∧
  (∀ r a, r ≠ 0 → equal_args !! r = Some a →
          a.2 = Some (replicate (length (start (elt:=Z) 4))
                                (size ten `div` length (start (elt:=Z) 4)))) ∧
  ∃ parts,
    Forall2 (λ out part, out.1 = Returns part) (scatter_all (start 4) equal_args 0) parts ∧
    (∀ r part, parts !! r = Some part →
               part = take (size ten `div` length (start (elt:=Z) 4))
                           (drop (r * (size ten `div` length (start (elt:=Z) 4))) ten) ∧
               length part = size ten `div` length (start (elt:=Z) 4)) ∧
    concat parts
    = take (length (start (elt:=Z) 4) * (size ten `div` length (start (elt:=Z) 4))) ten.
Proof.
  assert (H1 : wf_world (start (elt:=Z) 4)) by apply start_wf.
  assert (H2 : length equal_args = length (start (elt:=Z) 4)) by reflexivity.
  assert (H3 : start (elt:=Z) 4 !! 0 = Some (start_proc 4 0)) by reflexivity.
  assert (H4 : equal_args !! 0 = Some (Some ten, None)) by reflexivity.
  assert (H5 : ∀ r a, r ≠ 0 → equal_args !! r = Some a →
                 a.2 = Some (replicate (length (start (elt:=Z) 4))
                                       (size ten `div` length (start (elt:=Z) 4)))).
  { intros [|[|[|[|r]]]] a Hne Ha; simpl in Ha; try discriminate Ha;
      [by destruct Hne|..]; injection Ha as <-; reflexivity. }
  split_and!; try assumption.
  exact (scatter_equal_division (start 4) equal_args 0 _ ten H1 H2 H3 H4 H5).
Defined.

Lemma distribute_order_of_destinations_witness :
  wf_world (start (elt:=Z) 3) ∧
  length fan_args = length (start (elt:=Z) 3) ∧
  Forall (valid_call (length (start (elt:=Z) 3))) fan_args ∧
  Forall (valid_call (length (start (elt:=Z) 3))) fan_args_swapped ∧
  Forall (λ a : @sr_args Z, NoDup (destination a)) fan_args ∧
  one_tag fan_args ∧
  quiet (start 3) fan_args ∧
  Forall2 reordered fan_args fan_args_swapped ∧
  2 < length (start (elt:=Z) 3) ∧
  ∃ r p1 p2,
    distribute_all (start 3) fan_args !! 2 = Some (Returns r, p1) ∧
    distribute_all (start 3) fan_args_swapped !! 2 = Some (Returns r, p2).
Proof.
  assert (H1 : wf_world (start (elt:=Z) 3)) by apply start_wf.
  assert (H2 : length fan_args = length (start (elt:=Z) 3)) by reflexivity.
  assert (H3 : Forall (valid_call (length (start (elt:=Z) 3))) fan_args)
    by apply fan_args_valid.
  assert (H4 : Forall (valid_call (length (start (elt:=Z) 3))) fan_args_swapped)
    by apply fan_args_swapped_valid.
  assert (H5 : Forall (λ a : @sr_args Z, NoDup (destination a)) fan_args)
    by apply fan_args_distinct.
  assert (H6 : one_tag fan_args).
  { apply (one_tag_const 0%Z). by repeat constructor. }
  assert (H7 : quiet (start 3) fan_args) by apply start_quiet.
  assert (H8 : Forall2 reordered fan_args fan_args_swapped).
  { constructor; [split; [reflexivity|apply perm_swap]|].
    constructor; [split; reflexivity|].
    constructor; [split; reflexivity|constructor]. }
  assert (H9 : 2 < length (start (elt:=Z) 3)) by (simpl; lia).
  split_and!; try assumption.
  exact (distribute_order_of_destinations (start 3) fan_args fan_args_swapped 2
           H1 H2 H3 H4 H5 H6 H7 H8 H9).
Defined.
